(** * Sitemap_Service/sitemap_api.py: the crawler and the hierarchy builder

    A shallow embedding of [SitemapGenerator] (URL classification, link
    extraction, the recursive crawl and the hierarchy builder) and the
    properties of it that the specification states.

    Conventions.
    - A Python [str] is a [string]; characters are 8-bit code units.
    - A Python [set] of strings is a [gset string], a [dict] from strings a
      [gmap]; the order in which a [for] loop walks a set is a parameter
      ([SetOrder]), since Python does not fix it.
    - [urllib.parse] is a library: the program is embedded over an interface
      ([UrlLib]); [CPython] gives an executable instance of it, written after
      Lib/urllib/parse.py (3.11), which the concrete examples run on.
    - Mutable state and exceptions: a computation maps a state to a state and
      a result, and the state survives a raised exception, as in Python. *)

From Stdlib Require Import ZArith Ascii.
From stdpp Require Import base strings list gmap sorting.

Local Open Scope Z_scope.

(** ** Python string methods used by the program *)
Module Py.

(** [s.startswith(p)] *)
Fixpoint startswith (s p : string) {struct p} : bool :=
  match p, s with
  | EmptyString, _ => true
  | String _ _, EmptyString => false
  | String a p', String b s' => Ascii.eqb a b && startswith s' p'
  end.

(** [s.endswith(p)] *)
Fixpoint endswith (s p : string) : bool :=
  String.eqb s p ||
  match s with
  | EmptyString => false
  | String _ s' => endswith s' p
  end.

(** [sub in s] *)
Fixpoint contains (sub s : string) : bool :=
  startswith s sub ||
  match s with
  | EmptyString => false
  | String _ s' => contains sub s'
  end.

(** [s.rstrip(chars)], the character set given as a predicate: drops every
    trailing character of the set. *)
Fixpoint rstrip (f : ascii → bool) (s : string) : string :=
  match s with
  | EmptyString => EmptyString
  | String a s' =>
      match rstrip f s' with
      | EmptyString => if f a then EmptyString else String a EmptyString
      | r => String a r
      end
  end.

(** [s[n:]] *)
Fixpoint drop (n : nat) (s : string) : string :=
  match n, s with
  | O, _ => s
  | S _, EmptyString => EmptyString
  | S n', String _ s' => drop n' s'
  end.

(** [s.endswith((p1, ..., pn))] *)
Definition endswith_any (s : string) (ps : list string) : bool :=
  existsb (endswith s) ps.

(** [s.lstrip(chars)], the character set given as a predicate *)
Fixpoint lstrip (f : ascii → bool) (s : string) : string :=
  match s with
  | EmptyString => EmptyString
  | String a s' => if f a then lstrip f s' else s
  end.

(** removes every character satisfying [f] ([s.replace(c, "")]) *)
Fixpoint remove (f : ascii → bool) (s : string) : string :=
  match s with
  | EmptyString => EmptyString
  | String a s' => if f a then remove f s' else String a (remove f s')
  end.

(** [s.split(c, 1)] when [c] occurs in [s]: the text before and after the
    first [c]; [None] when [c] does not occur. *)
Fixpoint split1 (c : ascii) (s : string) : option (string * string) :=
  match s with
  | EmptyString => None
  | String a s' =>
      if Ascii.eqb a c then Some (EmptyString, s')
      else match split1 c s' with
           | Some (x, y) => Some (String a x, y)
           | None => None
           end
  end.

(** the longest prefix of characters satisfying [f], and the rest *)
Fixpoint span (f : ascii → bool) (s : string) : string * string :=
  match s with
  | EmptyString => (EmptyString, EmptyString)
  | String a s' =>
      if f a then let '(x, y) := span f s' in (String a x, y)
      else (EmptyString, s)
  end.

Fixpoint forallb (f : ascii → bool) (s : string) : bool :=
  match s with
  | EmptyString => true
  | String a s' => f a && forallb f s'
  end.

Fixpoint map (f : ascii → ascii) (s : string) : string :=
  match s with
  | EmptyString => EmptyString
  | String a s' => String (f a) (map f s')
  end.

(** [s.split(c)]: never empty *)
Fixpoint split (c : ascii) (s : string) : list string :=
  match s with
  | EmptyString => [EmptyString]
  | String a s' =>
      if Ascii.eqb a c then EmptyString :: split c s'
      else match split c s' with
           | x :: xs => String a x :: xs
           | [] => [String a EmptyString]
           end
  end.

(** [sep.join(l)] *)
Fixpoint join (sep : string) (l : list string) : string :=
  match l with
  | [] => EmptyString
  | [x] => x
  | x :: xs => x +:+ sep +:+ join sep xs
  end.

Definition nonempty (s : string) : bool :=
  match s with EmptyString => false | _ => true end.

End Py.

(** ** The interface of [urllib.parse] *)

(** [urllib.parse.ParseResult] *)
Record ParseResult := mkParseResult {
  scheme : string;
  netloc : string;
  path : string;
  params : string;
  query : string;
  fragment : string
}.

(** [urlparse] and [urljoin] raise [ValueError] on some inputs: [None]. *)
Class UrlLib := {
  urlparse : string → option ParseResult;
  urlunparse : ParseResult → string;
  urljoin : string → string → option string
}.

(** ** An executable instance, after CPython's Lib/urllib/parse.py

    [urlparse], [urlunparse] and [urljoin] as in CPython 3.11, on [str]
    arguments with the default [allow_fragments]. Two checks of [urlsplit]
    are not computed here: [_check_bracketed_netloc] is a parameter (see
    below), and [_checknetloc], which rejects a network location whose NFKC
    normal form gains one of the characters /?#@: , never raises on the
    8-bit characters of this model. *)
Module CPython.

Definition uses_relative : list string :=
  [""; "ftp"; "http"; "gopher"; "nntp"; "imap"; "wais"; "file"; "https";
   "shttp"; "mms"; "prospero"; "rtsp"; "rtspu"; "sftp"; "svn"; "svn+ssh";
   "ws"; "wss"].

Definition uses_netloc : list string :=
  [""; "ftp"; "http"; "gopher"; "nntp"; "telnet"; "imap"; "wais"; "file";
   "mms"; "https"; "shttp"; "snews"; "prospero"; "rtsp"; "rtspu"; "rsync";
   "svn"; "svn+ssh"; "sftp"; "nfs"; "git"; "git+ssh"; "ws"; "wss"].

Definition uses_params : list string :=
  [""; "ftp"; "hdl"; "prospero"; "http"; "imap"; "https"; "shttp"; "rtsp";
   "rtspu"; "sip"; "sips"; "mms"; "sftp"; "tel"].

Definition mem (s : string) (l : list string) : bool := existsb (String.eqb s) l.

Definition code (a : ascii) : nat := nat_of_ascii a.

Definition is_upper (a : ascii) : bool := (65 <=? code a)%nat && (code a <=? 90)%nat.
Definition is_lower (a : ascii) : bool := (97 <=? code a)%nat && (code a <=? 122)%nat.
Definition is_digit (a : ascii) : bool := (48 <=? code a)%nat && (code a <=? 57)%nat.

(** [c.isascii() and c.isalpha()] *)
Definition is_ascii_alpha (a : ascii) : bool := is_upper a || is_lower a.

(** [c in scheme_chars] *)
Definition scheme_char (a : ascii) : bool :=
  is_ascii_alpha a || is_digit a ||
  Ascii.eqb a "+" || Ascii.eqb a "-" || Ascii.eqb a ".".

Definition lower (a : ascii) : ascii :=
  if is_upper a then ascii_of_nat (code a + 32) else a.

(** [_WHATWG_C0_CONTROL_OR_SPACE] *)
Definition c0_control_or_space (a : ascii) : bool := (code a <=? 32)%nat.

(** [_UNSAFE_URL_BYTES_TO_REMOVE]: tab, carriage return, newline *)
Definition unsafe_byte (a : ascii) : bool :=
  (code a =? 9)%nat || (code a =? 13)%nat || (code a =? 10)%nat.

Definition is_char (c a : ascii) : bool := Ascii.eqb a c.

Definition has (c : ascii) (s : string) : bool := negb (Py.forallb (fun a => negb (is_char c a)) s).

Definition head_ok (f : ascii → bool) (s : string) : bool :=
  match s with String a _ => f a | EmptyString => false end.

Section Parse.

(** [_check_bracketed_netloc] validates a bracketed host with the [ipaddress]
    module, which is outside this model: its verdict is a parameter ([true]
    when it returns normally). It is consulted only for a network location
    that contains both brackets. *)
Variable check_bracketed_netloc : string → bool.

(** the scheme prefix of [urlsplit]: [Some (scheme, rest)] when the text
    before the first colon is a well-formed scheme *)
Definition split_scheme (url : string) : option (string * string) :=
  match Py.split1 ":" url with
  | Some (pre, post) =>
      if Py.nonempty pre && head_ok is_ascii_alpha url && Py.forallb scheme_char pre
      then Some (Py.map lower pre, post)
      else None
  | None => None
  end.

(** [_splitnetloc(url, 2)] on the text after the two slashes *)
Definition splitnetloc (rest : string) : string * string :=
  Py.span (fun a => negb (is_char "/" a || is_char "?" a || is_char "#" a)) rest.

(** [urlsplit(url, scheme)]: scheme, netloc, path, query, fragment *)
Definition urlsplit (url0 dflt : string)
  : option (string * string * string * string * string) :=
  let url := Py.remove unsafe_byte (Py.lstrip c0_control_or_space url0) in
  let dflt :=
    Py.remove unsafe_byte
      (Py.rstrip c0_control_or_space (Py.lstrip c0_control_or_space dflt)) in
  let '(sch, url) :=
    match split_scheme url with
    | Some (s, rest) => (s, rest)
    | None => (dflt, url)
    end in
  let after_netloc :=
    match url with
    | String "/" (String "/" rest) =>
        let '(nl, url') := splitnetloc rest in
        if xorb (has "[" nl) (has "]" nl) then None
        else if has "[" nl && has "]" nl && negb (check_bracketed_netloc nl) then None
        else Some (nl, url')
    | _ => Some (EmptyString, url)
    end in
  match after_netloc with
  | None => None
  | Some (nl, url) =>
      let '(url, frag) :=
        match Py.split1 "#" url with
        | Some (u, f) => (u, f)
        | None => (url, EmptyString)
        end in
      let '(url, qry) :=
        match Py.split1 "?" url with
        | Some (u, q) => (u, q)
        | None => (url, EmptyString)
        end in
      Some (sch, nl, url, qry, frag)
  end.

(** the text up to (excluding) the last slash, and the text from it on;
    [None] without a slash *)
Fixpoint rsplit_slash (s : string) : option (string * string) :=
  match s with
  | EmptyString => None
  | String a s' =>
      match rsplit_slash s' with
      | Some (x, y) => Some (String a x, y)
      | None => if is_char "/" a then Some (EmptyString, s) else None
      end
  end.

(** [_splitparams] *)
Definition splitparams (url : string) : string * string :=
  match rsplit_slash url with
  | Some (dir, last) =>
      match Py.split1 ";" last with
      | Some (a, b) => (dir +:+ a, b)
      | None => (url, EmptyString)
      end
  | None =>
      match Py.split1 ";" url with
      | Some (a, b) => (a, b)
      | None => (url, EmptyString)  (* not reached: the caller saw a ';' *)
      end
  end.

(** [urlparse(url, scheme)] *)
Definition urlparse_with (url dflt : string) : option ParseResult :=
  match urlsplit url dflt with
  | None => None
  | Some (sch, nl, url, qry, frag) =>
      let '(url, prm) :=
        if mem sch uses_params && has ";" url then splitparams url
        else (url, EmptyString) in
      Some (mkParseResult sch nl url prm qry frag)
  end.

Definition urlparse (url : string) : option ParseResult :=
  urlparse_with url EmptyString.

(** [urlunsplit] *)
Definition urlunsplit (sch nl url qry frag : string) : string :=
  let url :=
    if Py.nonempty nl
       || (Py.nonempty sch && mem sch uses_netloc && negb (Py.startswith url "//"))
    then "//" +:+ nl +:+
         (if Py.nonempty url && negb (Py.startswith url "/") then "/" +:+ url else url)
    else url in
  let url := if Py.nonempty sch then sch +:+ ":" +:+ url else url in
  let url := if Py.nonempty qry then url +:+ "?" +:+ qry else url in
  if Py.nonempty frag then url +:+ "#" +:+ frag else url.

(** [urlunparse] *)
Definition urlunparse (p : ParseResult) : string :=
  let url := if Py.nonempty (params p) then path p +:+ ";" +:+ params p else path p in
  urlunsplit (scheme p) (netloc p) url (query p) (fragment p).

(** the dot-segment loop of [urljoin], the resolved path kept reversed *)
Fixpoint resolve (segs : list string) (acc : list string) : list string :=
  match segs with
  | [] => rev acc
  | seg :: segs' =>
      if String.eqb seg ".." then resolve segs' (tail acc)
      else if String.eqb seg "." then resolve segs' acc
      else resolve segs' (seg :: acc)
  end.

(** [segments[1:-1] = filter(None, segments[1:-1])] *)
Definition squeeze (segs : list string) : list string :=
  match segs with
  | [] => []
  | x :: rest =>
      match rev rest with
      | [] => [x]
      | z :: mid => x :: filter (fun s => Py.nonempty s = true) (rev mid) ++ [z]
      end
  end.

(** [urljoin(base, url)] *)
Definition urljoin (base url : string) : option string :=
  if negb (Py.nonempty base) then Some url
  else if negb (Py.nonempty url) then Some base
  else
    match urlparse base with
    | None => None
    | Some b =>
        match urlparse_with url (scheme b) with
        | None => None
        | Some u =>
            if negb (String.eqb (scheme u) (scheme b)) || negb (mem (scheme u) uses_relative)
            then Some url
            else if mem (scheme u) uses_netloc && Py.nonempty (netloc u)
            then Some (urlunparse u)
            else
              let nl := if mem (scheme u) uses_netloc then netloc b else netloc u in
              if negb (Py.nonempty (path u)) && negb (Py.nonempty (params u))
              then Some (urlunparse
                     (mkParseResult (scheme u) nl (path b) (params b)
                        (if Py.nonempty (query u) then query u else query b)
                        (fragment u)))
              else
                let base_parts :=
                  let parts := Py.split "/" (path b) in
                  match last parts with
                  | Some EmptyString => parts
                  | _ => removelast parts
                  end in
                let segments :=
                  if Py.startswith (path u) "/" then Py.split "/" (path u)
                  else squeeze (base_parts ++ Py.split "/" (path u)) in
                let resolved := resolve segments [] in
                let resolved :=
                  match last segments with
                  | Some s => if String.eqb s "." || String.eqb s ".."
                              then resolved ++ [EmptyString] else resolved
                  | None => resolved
                  end in
                let joined := Py.join "/" resolved in
                Some (urlunparse
                  (mkParseResult (scheme u) nl
                     (if Py.nonempty joined then joined else "/")
                     (params u) (query u) (fragment u)))
        end
    end.

End Parse.

Definition lib (check_bracketed_netloc : string → bool) : UrlLib :=
  Build_UrlLib (urlparse check_bracketed_netloc) urlunparse (urljoin check_bracketed_netloc).

End CPython.

(** ** The environment of a generator *)

(** Python fixes no order for the iteration of a set. [iter site url X] is
    the order in which the loop at [site], run for [url], walks [X]; any
    permutation of the elements is allowed. *)
Inductive loop_site :=
  | OverLinks        (* for link in links *)
  | OverChildren     (* for child_url in children; list(self.url_children[url]) *)
  | OverFound        (* for discovered_url in self.all_found_urls *)
  | OverVisited      (* for discovered_url in self.visited_urls *)
  | OverDescendants. (* list(set(descendants)) *)

Class SetOrder := {
  iter : loop_site → string → gset string → list string;
  iter_perm : ∀ site url X, iter site url X ≡ₚ elements X
}.

(** What the Selenium driver does, as far as the generator observes it. *)

(** [link.get_attribute("href")]: raises, returns [None], or a string *)
Inductive attribute :=
  | AttrRaises
  | AttrNone
  | AttrValue (href : string).

(** [driver.find_elements(By.CSS_SELECTOR, "a[href]")] *)
Inductive find_result :=
  | FindRaises
  | Found (elems : list attribute).

Record Page := mkPage {
  loads : bool;             (* driver.get and the wait for <body> return normally *)
  all_links : find_result;  (* the first find_elements *)
  scrolls : bool;           (* execute_script(scrollTo) returns normally *)
  more_links : find_result  (* find_elements after scrolling *)
}.

Class Browser := {
  chrome_starts : bool;              (* webdriver.Chrome(options) returns *)
  render : string → Page;            (* what loading a URL yields *)
  sitemap_candidates : list string   (* the texts discover_sitemap_urls reads *)
}.

(** ** The generator's state *)

(** The three collections of a crawl. *)
Record CrawlState := mkState {
  visited_urls : gset string;
  all_found_urls : gset string;
  url_children : gmap string (gset string)
}.

(** [self]. Of [self.logs] only the entries [Crawling: url (depth: d)] are
    kept, oldest first. [history] is a ghost field: the crawl state before
    each update of one of the three collections, newest first. The fields
    status, error, sitemap_data and the timestamps are left out: no function
    below reads them. *)
Record Generator := mkGen {
  state : CrawlState;
  driver : bool;                  (* self.driver is not None *)
  logs : list (string * Z);
  history : list CrawlState
}.

Inductive exn := DriverInitError | ValueError.

Inductive result (A : Type) :=
  | Ret (a : A)
  | Raise (e : exn)
  | OutOfFuel.
Arguments Ret {A} a.
Arguments Raise {A} e.
Arguments OutOfFuel {A}.

(** A method of the generator: the state is kept when it raises. *)
Definition M (A : Type) : Type := Generator → Generator * result A.

Global Instance M_ret : MRet M := λ A a g, (g, Ret a).

Global Instance M_bind : MBind M := λ A B k c g,
  match c g with
  | (g', Ret a) => k a g'
  | (g', Raise e) => (g', Raise e)
  | (g', OutOfFuel) => (g', OutOfFuel)
  end.

Definition get_self : M Generator := λ g, (g, Ret g).
Definition raise {A} (e : exn) : M A := λ g, (g, Raise e).
Definition out_of_fuel {A} : M A := λ g, (g, OutOfFuel).

(** an [urllib] call inside a method *)
Definition lift {A} (o : option A) : M A :=
  match o with
  | Some a => mret a
  | None => raise ValueError
  end.

(** an update of the crawl state, recorded in the history *)
Definition update (f : CrawlState → CrawlState) : M unit := λ g,
  (mkGen (f (state g)) (driver g) (logs g) (state g :: history g), Ret tt).

(** [for x in l: body(x)] *)
Fixpoint for_each {A} (l : list A) (body : A → M unit) : M unit :=
  match l with
  | [] => mret tt
  | x :: l' => body x ;; for_each l' body
  end.

(** every crawl state the generator has been in, newest first *)
Definition states (g : Generator) : list CrawlState := state g :: history g.

(** [SitemapGenerator(base_url, max_depth)] *)
Definition init : Generator := mkGen (mkState ∅ ∅ ∅) false [] [].

#[local] Set Warnings "-register-all,-clear-no-such-hyp".

(** the tree a sitemap is returned as: a dict in insertion order, or a list *)
Inductive Value :=
  | Dict (entries : list (string * Value))
  | List (items : list string).

(** [d[k] = v] on a dict kept in insertion order *)
Fixpoint dict_set (k : string) (v : Value) (d : list (string * Value))
  : list (string * Value) :=
  match d with
  | [] => [(k, v)]
  | (k', v') :: d' =>
      if String.eqb k' k then (k', v) :: d' else (k', v') :: dict_set k v d'
  end.

(** [d[k]] *)
Fixpoint dict_get (k : string) (d : list (string * Value)) : option Value :=
  match d with
  | [] => None
  | (k', v') :: d' => if String.eqb k' k then Some v' else dict_get k d'
  end.

(** [sorted(l)] on strings *)
Definition sorted (l : list string) : list string := merge_sort String.le l.

(** ** SitemapGenerator *)
Section SitemapGenerator.

Context {url_lib : UrlLib} {set_order : SetOrder} {browser : Browser}.

Variable base_url : string.
Variable max_depth : Z.

Definition is_slash (a : ascii) : bool := Ascii.eqb a "/".

(** [setup_driver] *)
Definition setup_driver : M unit := λ g,
  if chrome_starts
  then (mkGen (state g) true (logs g) (history g), Ret tt)
  else (g, Raise DriverInitError).

(** [is_same_domain]: any exception of the body gives [False] *)
Definition is_same_domain (url : string) : bool :=
  match urlparse base_url with
  | Some base_parsed =>
      match urlparse url with
      | Some url_parsed => String.eqb (netloc base_parsed) (netloc url_parsed)
      | None => false
      end
  | None => false
  end.

(** [is_child_of] *)
Definition is_child_of (parent_url child_url : string) : option bool :=
  parent_parsed ← urlparse parent_url;
  child_parsed ← urlparse child_url;
  if negb (String.eqb (netloc parent_parsed) (netloc child_parsed)) then Some false
  else
    let parent_path := Py.rstrip is_slash (path parent_parsed) in
    let child_path := Py.rstrip is_slash (path child_parsed) in
    if String.eqb parent_path "" then
      Some (negb (String.eqb child_path "") && Py.startswith child_path "/")
    else if negb (Py.startswith child_path (parent_path +:+ "/")) then Some false
    else if Py.contains "blogs" parent_path || Py.contains "blog" parent_path then Some true
    else
      let remaining_path := Py.drop (String.length (parent_path +:+ "/")) child_path in
      Some (negb (Py.contains "/" remaining_path)).

Definition skipped_extensions : list string :=
  [".jpg"; ".png"; ".gif"; ".css"; ".js"; ".pdf"; ".zip"].

(** the test a cleaned URL passes to be added to [urls] *)
Definition keep_link (url clean_url : string) : bool :=
  Py.startswith clean_url "http"
  && negb (String.eqb clean_url url)
  && negb (Py.endswith_any clean_url skipped_extensions)
  && negb (Py.contains "#" clean_url).

(** [urlunparse((p.scheme, p.netloc, p.path, p.params, p.query, ''))] *)
Definition defragment (p : ParseResult) : string :=
  urlunparse (mkParseResult (scheme p) (netloc p) (path p) (params p) (query p) "").

(** The loop [for link in all_links] of [get_page_links], from the set
    [urls]: the set it reaches, and whether it ran to its end ([false]: an
    exception left it). *)
Fixpoint extract_links (url : string) (elems : list attribute) (urls : gset string)
  : gset string * bool :=
  match elems with
  | [] => (urls, true)
  | AttrRaises :: _ => (urls, false)
  | AttrNone :: rest => extract_links url rest urls
  | AttrValue href :: rest =>
      if Py.nonempty href then
        match urljoin url href with
        | None => (urls, false)
        | Some absolute_url =>
            if is_same_domain absolute_url then
              match urlparse absolute_url with
              | None => (urls, false)
              | Some parsed_url =>
                  let clean_url := defragment parsed_url in
                  if keep_link url clean_url
                  then extract_links url rest ({[clean_url]} ∪ urls)
                  else extract_links url rest urls
              end
            else extract_links url rest urls
        end
      else extract_links url rest urls
  end.

(** The body of [get_page_links] after the driver check: the page is loaded
    (outer [try]), the links are extracted (inner [try]) and, for a URL that
    contains "blogs", extracted again after scrolling (innermost [try]). *)
Definition page_links (url : string) : gset string :=
  let page := render url in
  if negb (loads page) then ∅
  else
    match all_links page with
    | FindRaises => ∅
    | Found elems =>
        let '(urls, finished) := extract_links url elems ∅ in
        if finished && Py.contains "blogs" url then
          if scrolls page then
            match more_links page with
            | FindRaises => urls
            | Found more => fst (extract_links url more urls)
            end
          else urls
        else urls
    end.

(** [get_page_links] *)
Definition get_page_links (url : string) : M (gset string) :=
  g ← get_self;
  (if driver g then mret tt else setup_driver) ;;
  mret (page_links url).

(** the loop that collects [children] in [crawl_recursive] *)
Fixpoint collect_children (url : string) (links : list string) (children : gset string)
  : option (gset string) :=
  match links with
  | [] => Some children
  | link :: rest =>
      b ← is_child_of url link;
      collect_children url rest (if b : bool then {[link]} ∪ children else children)
  end.

Definition log_crawling (url : string) (depth : Z) : M unit := λ g,
  (mkGen (state g) (driver g) (logs g ++ [(url, depth)]) (history g), Ret tt).

Definition add_visited (url : string) : M unit :=
  update (λ s, mkState ({[url]} ∪ visited_urls s) (all_found_urls s) (url_children s)).

Definition update_found (links : gset string) : M unit :=
  update (λ s, mkState (visited_urls s) (all_found_urls s ∪ links) (url_children s)).

Definition set_children (url : string) (children : gset string) : M unit :=
  update (λ s, mkState (visited_urls s) (all_found_urls s) (<[url := children]> (url_children s))).

(** The body of [crawl_recursive], its recursive calls going to [self_crawl]. *)
Definition crawl_body (self_crawl : string → Z → M unit) (url : string) (depth : Z)
  : M unit :=
  g ← get_self;
  if (depth >? max_depth) || bool_decide (url ∈ visited_urls (state g)) then mret tt
  else
    log_crawling url depth ;;
    add_visited url ;;
    links ← get_page_links url;
    update_found links ;;
    children ← lift (collect_children url (iter OverLinks url links) ∅);
    set_children url children ;;
    (if Py.contains "blogs" url && (depth <? 3) then
       for_each (iter OverLinks url links) (λ link,
         g ← get_self;
         if is_same_domain link
            && Py.contains "/blogs/" link
            && bool_decide (link ∉ visited_urls (state g))
         then self_crawl link (depth + 1)
         else mret tt)
     else mret tt) ;;
    for_each (iter OverChildren url children) (λ child_url,
      g ← get_self;
      if bool_decide (child_url ∉ visited_urls (state g))
      then self_crawl child_url (depth + 1)
      else mret tt).

(** [crawl_recursive]; [fuel] bounds the nesting of the calls. *)
Fixpoint crawl_recursive (fuel : nat) (url : string) (depth : Z) : M unit :=
  match fuel with
  | O => out_of_fuel
  | S fuel' => crawl_body (crawl_recursive fuel') url depth
  end.

(** [discover_sitemap_urls]: every failure is caught inside; the URLs come
    from the texts the driver yields, kept when on the base domain. *)
Definition discover_sitemap_urls : gset string :=
  list_to_set (filter (λ u, is_same_domain u = true) sitemap_candidates).

(** [urlunparse((parsed.scheme, parsed.netloc, '', '', '', ''))] *)
Definition root_of (parsed : ParseResult) : string :=
  urlunparse (mkParseResult (scheme parsed) (netloc parsed) "" "" "" "").

(** [crawl_site] *)
Definition crawl_site (fuel : nat) : M unit :=
  g ← get_self;
  (if driver g then mret tt else setup_driver) ;;
  parsed ← lift (urlparse base_url);
  let root_url := root_of parsed in
  update_found discover_sitemap_urls ;;
  crawl_recursive fuel root_url 0 ;;
  if negb (String.eqb base_url root_url) then crawl_recursive fuel base_url 0
  else mret tt.

(** [f"{parsed.netloc}{parsed.path}"] *)
Definition key_of (parsed : ParseResult) : string := netloc parsed +:+ path parsed.

(** The two loops of [build_tree_for_url] that scan for the descendants of
    a leaf: over [all_found_urls] with the extra test on "/blogs/"
    ([blogs = true]), over [visited_urls] without it. *)
Fixpoint scan_descendants (blogs : bool) (child_url child_path : string)
    (candidates : list string) (descendants : list string) : option (list string) :=
  match candidates with
  | [] => Some descendants
  | discovered_url :: rest =>
      discovered ← urlparse discovered_url;
      let discovered_path := path discovered in
      if Py.startswith discovered_path (child_path +:+ "/")
         && negb (String.eqb discovered_url child_url)
         && (if blogs then Py.contains "/blogs/" discovered_path else true)
      then
        parsed_desc ← urlparse discovered_url;
        scan_descendants blogs child_url child_path rest
          (descendants ++ [key_of parsed_desc])
      else scan_descendants blogs child_url child_path rest descendants
  end.

(** the [else] branch for a leaf child: [sorted(list(set(descendants)))] *)
Definition leaf_descendants (s : CrawlState) (child_url : string) : option (list string) :=
  parsed ← urlparse child_url;
  let child_path := path parsed in
  descendants ←
    (if Py.contains "blogs" child_path
     then scan_descendants true child_url child_path
            (iter OverFound child_url (all_found_urls s)) []
     else scan_descendants false child_url child_path
            (iter OverVisited child_url (visited_urls s)) []);
  Some (sorted (iter OverDescendants child_url (list_to_set descendants))).

(** [child_url in self.url_children and self.url_children[child_url]] *)
Definition has_children (s : CrawlState) (child_url : string) : bool :=
  match url_children s !! child_url with
  | Some cs => bool_decide (cs ≠ ∅)
  | None => false
  end.

(** the loop [for child_url in children] of [build_tree_for_url], its
    recursive calls going to [self_build] *)
Fixpoint build_entries (s : CrawlState)
    (self_build : string → result (list (string * Value)))
    (children : list string) (tree : list (string * Value))
  : result (list (string * Value)) :=
  match children with
  | [] => Ret tree
  | child_url :: rest =>
      match urlparse child_url with
      | None => Raise ValueError
      | Some parsed =>
          let child_key := key_of parsed in
          if has_children s child_url then
            match self_build child_url with
            | Ret subtree =>
                build_entries s self_build rest (dict_set child_key (Dict subtree) tree)
            | Raise e => Raise e
            | OutOfFuel => OutOfFuel
            end
          else
            match leaf_descendants s child_url with
            | Some descendants =>
                build_entries s self_build rest (dict_set child_key (List descendants) tree)
            | None => Raise ValueError
            end
      end
  end.

(** [build_tree_for_url]; [fuel] bounds the nesting of the calls. *)
Fixpoint build_tree_for_url (s : CrawlState) (fuel : nat) (url : string)
  : result (list (string * Value)) :=
  match fuel with
  | O => OutOfFuel
  | S fuel' =>
      match url_children s !! url with
      | Some cs =>
          build_entries s (build_tree_for_url s fuel')
            (sorted (iter OverChildren url cs)) []
      | None => Ret []
      end
  end.

(** [build_hierarchical_sitemap], on the crawl state it reads *)
Definition build_hierarchical_sitemap (s : CrawlState) (fuel : nat)
  : result (list (string * Value)) :=
  match urlparse base_url with
  | None => Raise ValueError
  | Some parsed =>
      let base_domain := netloc parsed in
      match build_tree_for_url s fuel (root_of parsed) with
      | Ret tree => Ret [(base_domain, Dict tree)]
      | Raise e => Raise e
      | OutOfFuel => OutOfFuel
      end
  end.

End SitemapGenerator.

(** ** Concrete environments for the examples *)

(** CPython's [urllib.parse], every bracketed host accepted (no example below
    has one). *)
Definition cpython : UrlLib := CPython.lib (λ _, true).

(** sets walked in the order of [elements] *)
Definition elements_order : SetOrder :=
  {| iter := λ _ _ X, elements X; iter_perm := λ _ _ X, reflexivity (elements X) |}.

(** ** Predicates, states and sites used in the statements *)

(** [s] starts with [p] *)
Definition prefix_of (p s : string) : Prop := ∃ r, s = p +:+ r.

(** [s] ends with [p] *)
Definition suffix_of (p s : string) : Prop := ∃ r, s = r +:+ p.

(** [s] contains the substring [sub] *)
Definition substring_of (sub s : string) : Prop := ∃ a b, s = a +:+ sub +:+ b.

(** a page that loads and shows the given [href] attributes, before and
    after scrolling *)
Definition page_of (attrs : list attribute) : Page :=
  mkPage true (Found attrs) true (Found attrs).

(** a page whose load raises *)
Definition broken_page : Page := mkPage false FindRaises false FindRaises.

(** a site whose every page has the same attributes *)
Definition uniform_browser (attrs : list attribute) : Browser :=
  {| chrome_starts := true; render := λ _, page_of attrs; sitemap_candidates := [] |}.

(** a running generator that has not crawled yet *)
Definition started : Generator := mkGen (mkState ∅ ∅ ∅) true [] [].

(** the [href] attributes a page shows: before scrolling, then after *)
Definition page_attrs (page : Page) : list attribute :=
  match all_links page with Found elems => elems | FindRaises => [] end ++
  match more_links page with Found elems => elems | FindRaises => [] end.

Section ExtractionSpec.

Context {url_lib : UrlLib}.
Variable base_url : string.

(** what every extracted link is: the cleaned form of a same-domain target
    of one of the [pool] of attributes, and it passed [keep_link] *)
Definition extracted_from (url : string) (pool : list attribute) (u : string) : Prop :=
  ∃ href absolute_url parsed,
    AttrValue href ∈ pool
    ∧ urljoin url href = Some absolute_url
    ∧ is_same_domain base_url absolute_url = true
    ∧ urlparse absolute_url = Some parsed
    ∧ u = defragment parsed
    ∧ keep_link url u = true.

End ExtractionSpec.

(** the generator a method leaves, and what it returns or raises *)
Definition after {A} (c : M A) (g : Generator) : Generator := (c g).1.
Definition outcome {A} (c : M A) (g : Generator) : result A := (c g).2.

(** [later] has every visited URL of [earlier] *)
Definition grows (later earlier : CrawlState) : Prop :=
  visited_urls earlier ⊆ visited_urls later.

(** a list of crawl states, newest first, along which [visited_urls] only
    grows: each state has every visited URL of every older one *)
Definition ascending (l : list CrawlState) : Prop := StronglySorted grows l.

(** the invariant of the crawl state, for a set of traversal roots *)
Definition crawl_invariant (roots : gset string) (s : CrawlState) : Prop :=
  visited_urls s ⊆ all_found_urls s ∪ roots
  ∧ dom (url_children s) ⊆ visited_urls s.

(** the URLs [crawl_site] starts a traversal from: the bare root of the base
    URL, and the base URL itself *)
Definition crawl_roots {url_lib : UrlLib} (base_url : string) : gset string :=
  match urlparse base_url with
  | Some parsed => {[root_of parsed; base_url]}
  | None => ∅
  end.

(** a site none of whose pages loads *)
Definition dead_browser : Browser :=
  {| chrome_starts := true; render := λ _, broken_page; sitemap_candidates := [] |}.

(** the entry of [crawl_recursive] past its guard: log, then mark visited *)
Definition enter (url : string) (depth : Z) : M unit :=
  log_crawling url depth ;; add_visited url.

(** what a crawl does to the log and the history: it appends log entries for
    URLs that were not visited, each once, and leaves them visited; it
    extends the history by states along which [visited_urls] grows *)
Definition progress (g g' : Generator) : Prop :=
  (∃ steps, history g' = steps ++ history g
            ∧ ascending (state g' :: steps)
            ∧ Forall (λ s, visited_urls (state g) ⊆ visited_urls s) (state g' :: steps))
  ∧ (∃ entries, logs g' = logs g ++ entries
                ∧ NoDup entries.*1
                ∧ Forall (λ u, (u ∉ visited_urls (state g)) ∧ (u ∈ visited_urls (state g')))
                         entries.*1).

(** what a crawl does to the invariant: it keeps it, and forgets no found URL *)
Definition keeps_invariant (roots : gset string) (g g' : Generator) : Prop :=
  all_found_urls (state g) ⊆ all_found_urls (state g')
  ∧ (Forall (crawl_invariant roots) (states g) →
     Forall (crawl_invariant roots) (states g')).

(** a URL a traversal may start from: a root, or a URL found before *)
Definition crawlable (roots : gset string) (url : string) (g : Generator) : Prop :=
  url ∈ all_found_urls (state g) ∪ roots.


(** a site on the host blogs.x.com: the page /a links to /blogs/p1, the
    other pages have no links *)
Definition blog_host_browser : Browser :=
  {| chrome_starts := true;
     render := λ url, if String.eqb url "https://blogs.x.com/a"
                      then page_of [AttrValue "/blogs/p1"] else page_of [];
     sitemap_candidates := [] |}.

(** [k] is the key of the candidate [u], a descendant of the leaf
    [child_url] with path [child_path]: the path of [u] starts with
    [child_path] and a slash, [u] is not the child and, for a blog section,
    its path contains "/blogs/" *)
Definition descendant_key {url_lib : UrlLib} (blogs : bool)
    (child_url child_path u k : string) : Prop :=
  ∃ p, urlparse u = Some p
       ∧ prefix_of (child_path +:+ "/") (path p)
       ∧ u ≠ child_url
       ∧ (blogs = true → substring_of "/blogs/" (path p))
       ∧ k = key_of p.

(** the crawl state of the specification's example: /docs, /docs/guide and
    /docs/guide/setup visited, /docs/guide the only child of /docs and
    without children *)
Definition docs_state : CrawlState :=
  mkState {["https://x.com/docs"; "https://x.com/docs/guide"; "https://x.com/docs/guide/setup"]}
          ∅
          (<["https://x.com/docs" := {["https://x.com/docs/guide"]}]>
             (<["https://x.com/docs/guide" := ∅]> ∅)).

(** a crawl state with a leaf section /myblogs and a found post below it *)
Definition myblogs_state : CrawlState :=
  mkState {["https://x.com"; "https://x.com/myblogs"]}
          {["https://x.com/myblogs"; "https://x.com/myblogs/p1"]}
          (<["https://x.com" := {["https://x.com/myblogs"]}]>
             (<["https://x.com/myblogs" := ∅]> ∅)).

(** a crawl state with a leaf /a, the visited page /a/b below it, and a
    sibling /a?v=1 of the leaf that has the child /a/b *)
Definition shared_key_state : CrawlState :=
  mkState {["https://x.com"; "https://x.com/a"; "https://x.com/a?v=1"; "https://x.com/a/b"]}
          {["https://x.com/a"; "https://x.com/a?v=1"; "https://x.com/a/b"]}
          (<["https://x.com" := {["https://x.com/a"; "https://x.com/a?v=1"]}]>
             (<["https://x.com/a" := ∅]>
                (<["https://x.com/a?v=1" := {["https://x.com/a/b"]}]>
                   (<["https://x.com/a/b" := ∅]> ∅)))).

(** The log entries of the recursive calls of a step at depth [depth], one
    block per call that passed its guard: the entry of the link the call was
    made on, at [depth + 1], then the entries of the calls nested in it. *)
Definition call_entries (depth : Z) (blocks : list (string * list (string * Z)))
  : list (string * Z) :=
  concat ((λ b, (b.1, depth + 1) :: b.2) <$> blocks).

(** the test of the blog loop of [crawl_recursive] on a link, apart from
    the test on [visited_urls] *)
Definition deepening_target {url_lib : UrlLib} (base_url link : string) : bool :=
  is_same_domain base_url link && Py.contains "/blogs/" link.

(** a block of [call_entries] of the step of [url] at [depth]: the call was
    made on a link of the page that is a target of the blog loop, the loop
    being run, or a child of [url]; the nested entries are deeper *)
Definition call_block {url_lib : UrlLib} {browser : Browser}
    (base_url : string) (max_depth : Z) (url : string) (depth : Z)
    (b : string * list (string * Z)) : Prop :=
  b.1 ∈ page_links base_url url
  ∧ ((Py.contains "blogs" url && (depth <? 3) = true
      ∧ deepening_target base_url b.1 = true)
     ∨ is_child_of url b.1 = Some true)
  ∧ depth + 1 ≤ max_depth
  ∧ Forall (λ e, depth + 2 ≤ e.2 ≤ max_depth) b.2.

(** what a call [crawl_recursive(link, d)] does to the log and to
    [visited_urls], whatever it is called on: the contract of the recursive
    calls of a step *)
Definition crawl_contract (max_depth : Z) (self_crawl : string → Z → M unit) : Prop :=
  ∀ link d g,
    visited_urls (state g) ⊆ visited_urls (state (after (self_crawl link d) g))
    ∧ (outcome (self_crawl link d) g = Ret tt → d ≤ max_depth →
       link ∈ visited_urls (state (after (self_crawl link d) g)))
    ∧ ∃ es, logs (after (self_crawl link d) g) = logs g ++ es
            ∧ visited_urls (state (after (self_crawl link d) g))
              ⊆ visited_urls (state g) ∪ list_to_set es.*1
            ∧ Forall (λ e, d ≤ e.2 ≤ max_depth) es
            ∧ (es = [] ∨ ∃ nested, es = (link, d) :: nested
                                   ∧ Forall (λ e, d + 1 ≤ e.2) nested).

(** what the step of [url] at [depth] does, from [g] to [g'] with outcome
    [r]: it logs the URL, then the blocks of its recursive calls; when it
    returns and the blog loop was run below the depth bound, every target of
    the loop is visited *)
Definition deepening_step {url_lib : UrlLib} {browser : Browser}
    (base_url : string) (max_depth : Z) (url : string) (depth : Z)
    (g g' : Generator) (r : result unit) : Prop :=
  visited_urls (state g) ⊆ visited_urls (state g')
  ∧ url ∈ visited_urls (state g')
  ∧ ∃ blocks,
      logs g' = logs g ++ (url, depth) :: call_entries depth blocks
      ∧ visited_urls (state g')
        ⊆ visited_urls (state g) ∪ {[url]} ∪ list_to_set (call_entries depth blocks).*1
      ∧ Forall (call_block base_url max_depth url depth) blocks
      ∧ (r = Ret tt → Py.contains "blogs" url && (depth <? 3) = true →
         depth < max_depth →
         ∀ link, link ∈ page_links base_url url →
                 deepening_target base_url link = true →
                 link ∈ visited_urls (state g')).

(** the keys of a dict in the order of their first insertion, for the keys
    in the order of the insertions *)
Definition first_occurrences (keys : list string) : list string :=
  foldl (λ acc k, if bool_decide (k ∈ acc) then acc else acc ++ [k]) [] keys.

(** every list in a tree, at any depth, is sorted and without duplicates *)
Inductive lists_sorted : Value → Prop :=
  | lists_sorted_list items :
      Sorted String.le items → NoDup items → lists_sorted (List items)
  | lists_sorted_dict entries :
      Forall (λ entry, lists_sorted entry.2) entries → lists_sorted (Dict entries).

(** ** More of sitemap_api.py, and its caller in app.py *)

(** [s.strip(chars)], the character set given as a predicate *)
Definition strip (f : ascii → bool) (s : string) : string :=
  Py.lstrip f (Py.rstrip f s).

(** [get_url_depth]; [None] when [urlparse] raises *)
Definition get_url_depth {url_lib : UrlLib} (url : string) : option Z :=
  parsed ← urlparse url;
  let path := strip is_slash (path parsed) in
  if String.eqb path "" then Some 0
  else Some (Z.of_nat (length (Py.split "/" path))).

(** the length of the path of a URL after [rstrip('/')], 0 when the URL does
    not parse: what [is_child_of] makes grow *)
Definition path_weight {url_lib : UrlLib} (url : string) : nat :=
  match urlparse url with
  | Some parsed => String.length (Py.rstrip is_slash (path parsed))
  | None => O
  end.

(** the children recorded for a URL are the links of its page that
    [is_child_of] accepts, and they are found links *)
Definition children_exact {url_lib : UrlLib} {browser : Browser}
    (base_url : string) (s : CrawlState) : Prop :=
  ∀ url cs, url_children s !! url = Some cs →
    cs ⊆ all_found_urls s
    ∧ ∀ child, child ∈ cs ↔
               child ∈ page_links base_url url ∧ is_child_of url child = Some true.

(** what a crawl does to [children_exact]: it keeps it, and forgets no
    found URL *)
Definition keeps_children {url_lib : UrlLib} {browser : Browser}
    (base_url : string) (g g' : Generator) : Prop :=
  all_found_urls (state g) ⊆ all_found_urls (state g')
  ∧ (children_exact base_url (state g) → children_exact base_url (state g')).

(** what a crawl started at depth [d0] does to the log: it appends entries
    whose depth is between [d0] and [max_depth] *)
Definition logs_within (d0 max_depth : Z) (g g' : Generator) : Prop :=
  ∃ entries, logs g' = logs g ++ entries
             ∧ Forall (λ e, d0 ≤ e.2 ≤ max_depth) entries.

(** the keys of [url_children] whose stripped path is longer than that of
    [url]: the URLs [build_tree_for_url] can still descend into from [url] *)
Definition deeper {url_lib : UrlLib} (s : CrawlState) (url : string) : gset string :=
  filter (λ k, (path_weight url < path_weight k)%nat) (dom (url_children s)).

(** every recorded child is one that [is_child_of] accepts *)
Definition children_sound {url_lib : UrlLib} (s : CrawlState) : Prop :=
  ∀ url cs child, url_children s !! url = Some cs → child ∈ cs →
                  is_child_of url child = Some true.

(** the links of every page with an entry in [url_children] are found links *)
Definition links_found {url_lib : UrlLib} {browser : Browser}
    (base_url : string) (s : CrawlState) : Prop :=
  ∀ url, url ∈ dom (url_children s) → page_links base_url url ⊆ all_found_urls s.

(** what a crawl does to [links_found]: it keeps it, and forgets no found
    URL *)
Definition keeps_links {url_lib : UrlLib} {browser : Browser}
    (base_url : string) (g g' : Generator) : Prop :=
  all_found_urls (state g) ⊆ all_found_urls (state g')
  ∧ (links_found base_url (state g) → links_found base_url (state g')).

(** where the found URLs of a crawl come from: each one was found before or
    is a link of the page of a visited URL *)
Definition found_from {url_lib : UrlLib} {browser : Browser}
    (base_url : string) (g g' : Generator) : Prop :=
  visited_urls (state g) ⊆ visited_urls (state g')
  ∧ ∀ link, link ∈ all_found_urls (state g') →
            link ∈ all_found_urls (state g)
            ∨ ∃ url, url ∈ visited_urls (state g') ∧ link ∈ page_links base_url url.

(** the second traversal of [crawl_site] *)
Definition crawl_base {url_lib : UrlLib} {set_order : SetOrder} {browser : Browser}
    (base_url : string) (max_depth : Z) (fuel : nat) (root_url : string) : M unit :=
  if negb (String.eqb base_url root_url)
  then crawl_recursive base_url max_depth fuel base_url 0
  else mret tt.

(** [generate_sitemap]: the crawl, then the hierarchy of the state it left.
    An exception of either is raised again by the [except] clause. The
    status, the error message and the timestamps it sets, and the
    [driver.quit()] of its [finally] clause, are not in [Generator]: no
    function here reads them. [fuel] bounds the nesting of the calls of
    both. *)
Definition generate_sitemap {url_lib : UrlLib} {set_order : SetOrder} {browser : Browser}
    (base_url : string) (max_depth : Z) (fuel : nat) : M (list (string * Value)) :=
  crawl_site base_url max_depth fuel ;;
  g ← get_self;
  match build_hierarchical_sitemap base_url (state g) fuel with
  | Ret hierarchical_sitemap => mret hierarchical_sitemap
  | Raise e => raise e
  | OutOfFuel => out_of_fuel
  end.

(** ** app.py: the URLs read off a sitemap *)

(** a decoded JSON document; [JOther] is a number, a boolean or null *)
Inductive Json :=
  | JStr (s : string)
  | JList (items : list Json)
  | JDict (entries : list (string * Json))
  | JOther.

(** the order in which [list(set(urls))] lists a set; any permutation of the
    elements is allowed *)
Class ListOfSet := {
  list_of_set : gset string → list string;
  list_of_set_perm : ∀ X, list_of_set X ≡ₚ elements X
}.

(** What [extract_recursive] appends to [urls] for a string: the string when
    it starts with "http", the string after "https://" when it has a dot. *)
Definition url_of (s : string) : list string :=
  if Py.startswith s "http" then [s]
  else if Py.contains "." s && negb (Py.startswith s "http") then ["https://" +:+ s]
  else [].

(** [extract_recursive], returning what it appends to [urls]; its [path]
    argument only builds a string that is not used *)
Fixpoint extract_recursive (data : Json) : list string :=
  match data with
  | JDict entries =>
      flat_map (λ entry,
        let '(key, value) := entry in
        url_of key
        ++ match value with JStr s => url_of s | _ => [] end
        ++ extract_recursive value) entries
  | JList items =>
      flat_map (λ item,
        match item with
        | JStr s => url_of s
        | _ => extract_recursive item
        end) items
  | _ => []
  end.

(** [extract_urls_from_sitemap] *)
Definition extract_urls_from_sitemap {list_set : ListOfSet} (sitemap : Json)
  : list string :=
  list_of_set (list_to_set (extract_recursive sitemap)).

(** sets listed in the order of [elements] *)
Definition elements_list : ListOfSet :=
  {| list_of_set := elements; list_of_set_perm := λ X, reflexivity (elements X) |}.

(** the sitemap as the app receives it: the tree of the generator as a JSON
    document *)
Fixpoint to_json (v : Value) : Json :=
  match v with
  | Dict entries => JDict (map (λ entry, let '(k, v') := entry in (k, to_json v')) entries)
  | List items => JList (map JStr items)
  end.

(** [s] is a key, a string value of a key or a string item of a list,
    anywhere in a document *)
Inductive occurs (s : string) : Json → Prop :=
  | occurs_key entries value :
      (s, value) ∈ entries → occurs s (JDict entries)
  | occurs_item items :
      JStr s ∈ items → occurs s (JList items)
  | occurs_value entries key :
      (key, JStr s) ∈ entries → occurs s (JDict entries)
  | occurs_in_value entries key value :
      (key, value) ∈ entries → occurs s value → occurs s (JDict entries)
  | occurs_in_item items item :
      item ∈ items → occurs s item → occurs s (JList items).

(** * Properties *)

(** ** Python string methods *)
Section PyFacts.

Lemma sapp_nil (s : string) : "" +:+ s = s.
Proof. reflexivity. Qed.

Lemma sapp_cons (a : ascii) (s t : string) : String a s +:+ t = String a (s +:+ t).
Proof. reflexivity. Qed.

Lemma sapp_nil_r (s : string) : s +:+ "" = s.
Proof. induction s as [|a s IH]; [done|]. by rewrite sapp_cons, IH. Qed.

Lemma sapp_assoc (s t u : string) : (s +:+ t) +:+ u = s +:+ t +:+ u.
Proof. induction s as [|a s IH]; [done|]. by rewrite !sapp_cons, IH. Qed.

Lemma sapp_length (s t : string) :
  String.length (s +:+ t) = (String.length s + String.length t)%nat.
Proof. induction s as [|a s IH]; [done|]. rewrite sapp_cons. simpl. by rewrite IH. Qed.

Lemma sapp_eq_nil (s t : string) : s +:+ t = "" → s = "" ∧ t = "".
Proof. destruct s; [done|]. rewrite sapp_cons. done. Qed.

Lemma startswith_spec (s p : string) : Py.startswith s p = true ↔ prefix_of p s.
Proof.
  unfold prefix_of. revert s. induction p as [|a p IH]; intros s; simpl.
  - split; [intros _; by exists s|done].
  - destruct s as [|b s].
    + split; [done|]. intros [r Hr]. by rewrite sapp_cons in Hr.
    + rewrite andb_true_iff, Ascii.eqb_eq, IH. split.
      * intros [-> [r ->]]. by exists r.
      * intros [r Hr]. rewrite sapp_cons in Hr. injection Hr as -> ->. eauto.
Qed.

Lemma contains_spec (sub s : string) : Py.contains sub s = true ↔ substring_of sub s.
Proof.
  unfold substring_of. induction s as [|c s IH]; simpl.
  - rewrite orb_false_r, startswith_spec. split.
    + intros [r Hr]. by exists "", r.
    + intros (a & b & Hab). destruct a; [by exists b|]. by rewrite sapp_cons in Hab.
  - rewrite orb_true_iff, IH, startswith_spec. split.
    + intros [[r Hr]|(a & b & ->)].
      * by exists "", r.
      * by exists (String c a), b.
    + intros (a & b & Hab). destruct a as [|c' a].
      * left. by exists b.
      * right. rewrite sapp_cons in Hab. injection Hab as -> ->. eauto.
Qed.

Lemma endswith_unfold (s p : string) :
  Py.endswith s p =
  String.eqb s p || match s with EmptyString => false | String _ s' => Py.endswith s' p end.
Proof. by destruct s. Qed.

Lemma endswith_spec (s p : string) : Py.endswith s p = true ↔ suffix_of p s.
Proof.
  unfold suffix_of. induction s as [|c s IH]; rewrite endswith_unfold.
  - rewrite orb_false_r, String.eqb_eq. split.
    + intros <-. by exists "".
    + intros [r Hr]. symmetry in Hr. by apply sapp_eq_nil in Hr as [_ ->].
  - rewrite orb_true_iff, IH, String.eqb_eq. split.
    + intros [<-|[r ->]]; [by exists ""|by exists (String c r)].
    + intros [[|c' r] Hr]; [by left|].
      rewrite sapp_cons in Hr. injection Hr as -> ->. right. eauto.
Qed.

Lemma drop_app (p r : string) : Py.drop (String.length p) (p +:+ r) = r.
Proof. induction p as [|a p IH]; [by destruct r|]. by rewrite sapp_cons. Qed.

Lemma substring_of_trans (a b s : string) :
  substring_of a b → substring_of b s → substring_of a s.
Proof.
  intros (x & y & ->) (u & v & ->). exists (u +:+ x), (y +:+ v).
  by rewrite !sapp_assoc.
Qed.

Lemma contains_blogs_blog (s : string) :
  Py.contains "blogs" s || Py.contains "blog" s = Py.contains "blog" s.
Proof.
  destruct (Py.contains "blogs" s) eqn:E; [|done]. simpl. symmetry.
  apply contains_spec. apply contains_spec in E.
  apply (substring_of_trans _ "blogs"); [|done]. by exists "", "s".
Qed.

(** what [rstrip] leaves: no trailing character of the set, and only such
    characters dropped *)
Lemma rstrip_spec (f : ascii → bool) (s : string) :
  ∃ t, s = Py.rstrip f s +:+ t ∧ Py.forallb f t = true
       ∧ ∀ u a, Py.rstrip f s = u +:+ String a "" → f a = false.
Proof.
  induction s as [|c s (t & Hs & Ht & Hlast)]; simpl.
  - exists "". split_and!; [done..|]. by intros [|??] ??.
  - destruct (Py.rstrip f s) as [|d r] eqn:E.
    + rewrite sapp_nil in Hs. subst t. destruct (f c) eqn:Ec.
      * exists (String c s). simpl. rewrite Ec.
        split_and!; [done..|]. by intros [|??] ??.
      * exists s. split_and!; [done..|].
        intros [|c' u] a Hu.
        -- by injection Hu as <-.
        -- rewrite sapp_cons in Hu. injection Hu as _ Hu. by destruct u.
    + exists t. rewrite sapp_cons, <-Hs. split_and!; [done..|].
      intros [|c' u] a Hu; [done|].
      rewrite sapp_cons in Hu. injection Hu as _ Hu. eauto.
Qed.

Lemma rstrip_idemp (f : ascii → bool) (s : string) :
  Py.rstrip f (Py.rstrip f s) = Py.rstrip f s.
Proof.
  induction s as [|c s IH]; [done|]. simpl.
  destruct (Py.rstrip f s) as [|d r] eqn:E.
  - destruct (f c) eqn:Ec; [done|]. simpl. by rewrite Ec.
  - simpl in *. by rewrite IH.
Qed.

End PyFacts.

(** ** URL classification: [is_same_domain] and [is_child_of] *)
Section Classifier.

Context {url_lib : UrlLib}.

Lemma eqb_false_iff (s t : string) : String.eqb s t = false ↔ s ≠ t.
Proof. apply String.eqb_neq. Qed.

(** [is_child_of] on two URLs that parse to the same network location, in
    terms of the two paths with their trailing slashes stripped *)
Lemma is_child_of_same_netloc (parent child : string) (pp cp : ParseResult) :
  urlparse parent = Some pp → urlparse child = Some cp → netloc pp = netloc cp →
  is_child_of parent child =
  Some (let P := Py.rstrip is_slash (path pp) in
        let C := Py.rstrip is_slash (path cp) in
        if String.eqb P "" then negb (String.eqb C "") && Py.startswith C "/"
        else Py.startswith C (P +:+ "/")
             && (Py.contains "blog" P
                 || negb (Py.contains "/" (Py.drop (String.length (P +:+ "/")) C)))).
Proof.
  intros Hp Hc Hn. unfold is_child_of. rewrite Hp, Hc. simpl.
  rewrite Hn, String.eqb_refl. simpl.
  destruct (String.eqb (Py.rstrip is_slash (path pp)) ""); [done|].
  destruct (Py.startswith _ _); [|done]. simpl.
  rewrite contains_blogs_blog. by destruct (Py.contains "blog" _).
Qed.

Lemma is_child_of_root (parent child : string) (pp cp : ParseResult) :
  urlparse parent = Some pp → urlparse child = Some cp → netloc pp = netloc cp →
  Py.rstrip is_slash (path pp) = "" →
  is_child_of parent child = Some true ↔
  Py.rstrip is_slash (path cp) ≠ "" ∧ prefix_of "/" (Py.rstrip is_slash (path cp)).
Proof.
  intros Hp Hc Hn HP. rewrite (is_child_of_same_netloc _ _ _ _ Hp Hc Hn). simpl.
  rewrite HP. simpl. rewrite <-startswith_spec.
  destruct (String.eqb_spec (Py.rstrip is_slash (path cp)) "") as [->|Hne]; simpl.
  - split; [done|]. by intros [].
  - split; [intros [= ->]; done|]. by intros [_ ->].
Qed.

Lemma is_child_of_section (parent child : string) (pp cp : ParseResult) :
  urlparse parent = Some pp → urlparse child = Some cp → netloc pp = netloc cp →
  Py.rstrip is_slash (path pp) ≠ "" →
  is_child_of parent child = Some true ↔
  ∃ rest, Py.rstrip is_slash (path cp) = Py.rstrip is_slash (path pp) +:+ "/" +:+ rest
          ∧ (substring_of "blog" (Py.rstrip is_slash (path pp)) ∨ ¬ substring_of "/" rest).
Proof.
  intros Hp Hc Hn HP. rewrite (is_child_of_same_netloc _ _ _ _ Hp Hc Hn). simpl.
  apply eqb_false_iff in HP. rewrite HP.
  set (P := Py.rstrip is_slash (path pp)). set (C := Py.rstrip is_slash (path cp)).
  split.
  - intros [= H]. apply andb_true_iff in H as [Hpre H].
    apply startswith_spec in Hpre as [rest HC]. exists rest.
    rewrite sapp_assoc in HC. split; [done|].
    apply orb_true_iff in H as [H|H]; [left; by apply contains_spec|right].
    rewrite HC, <-sapp_assoc, drop_app in H. apply negb_true_iff in H.
    rewrite <-contains_spec. by rewrite H.
  - intros (rest & HC & H). f_equal. apply andb_true_iff. split.
    + apply startswith_spec. exists rest. by rewrite sapp_assoc.
    + apply orb_true_iff. destruct H as [H|H]; [left; by apply contains_spec|right].
      rewrite HC, <-sapp_assoc, drop_app. apply negb_true_iff.
      rewrite <-contains_spec in H. by destruct (Py.contains "/" rest).
Qed.

Lemma is_same_domain_true (base url : string) :
  is_same_domain base url = true ↔
  ∃ bp up, urlparse base = Some bp ∧ urlparse url = Some up ∧ netloc up = netloc bp.
Proof.
  unfold is_same_domain. split.
  - destruct (urlparse base) as [bp|]; [|done].
    destruct (urlparse url) as [up|]; [|done].
    intros H%String.eqb_eq. by exists bp, up.
  - intros (bp & up & -> & -> & ->). apply String.eqb_refl.
Qed.

End Classifier.

(** C1 as the specification states it, at a same-domain pair whose child is
    the root with its slash: the child's path "/" is not empty, the parent's
    stripped path is, and [is_child_of] answers [False]. *)
Lemma C1_root_slash_counterexample :
  ¬ (∀ parent child pp cp,
       urlparse (UrlLib := cpython) parent = Some pp →
       urlparse (UrlLib := cpython) child = Some cp →
       netloc pp = netloc cp →
       Py.rstrip is_slash (path pp) = "" →
       (is_child_of (url_lib := cpython) parent child = Some true ↔ path cp ≠ "")).
Proof.
  intros H.
  destruct (H "https://x.com" "https://x.com/" _ _ eq_refl eq_refl eq_refl eq_refl)
    as [_ H'].
  by specialize (H' ltac:(done)).
Qed.

(** C1 (amended). For two URLs that parse to the same network location, with
    P and C the parent's and the child's path after [rstrip('/')]: when P is
    empty, [is_child_of] is true exactly when C is not empty and starts with
    '/'; otherwise exactly when C is P, a '/', and a rest, where P contains
    "blog" or the rest contains no '/'. It does not raise on such a pair. The
    four examples of the specification hold. *)
Theorem C1_is_child_of :
  (∀ (url_lib : UrlLib) (parent child : string) (pp cp : ParseResult),
     urlparse parent = Some pp → urlparse child = Some cp → netloc pp = netloc cp →
     let P := Py.rstrip is_slash (path pp) in
     let C := Py.rstrip is_slash (path cp) in
     is_Some (is_child_of parent child)
     ∧ (P = "" → (is_child_of parent child = Some true ↔ C ≠ "" ∧ prefix_of "/" C))
     ∧ (P ≠ "" →
        (is_child_of parent child = Some true ↔
         ∃ rest, C = P +:+ "/" +:+ rest
                 ∧ (substring_of "blog" P ∨ ¬ substring_of "/" rest))))
  ∧ (∀ chk,
       let lib := CPython.lib chk in
       is_child_of (url_lib := lib) "https://x.com" "https://x.com/about" = Some true
       ∧ is_child_of (url_lib := lib) "https://x.com/about" "https://x.com/about/team" = Some true
       ∧ is_child_of (url_lib := lib) "https://x.com/about" "https://x.com/about/team/bio" = Some false
       ∧ is_child_of (url_lib := lib) "https://x.com/blogs" "https://x.com/blogs/2024/post-1" = Some true).
Proof.
  split.
  - intros url_lib parent child pp cp Hp Hc Hn P C. split_and!.
    + rewrite (is_child_of_same_netloc _ _ _ _ Hp Hc Hn). eauto.
    + by apply is_child_of_root.
    + by apply is_child_of_section.
  - intros chk. by vm_compute.
Qed.

Lemma C1_is_child_of_witness :
  let parent := "https://x.com/about/" in
  let child := "https://x.com/about/team/" in
  is_child_of (url_lib := cpython) parent child = Some true ↔
  ∃ rest, "/about/team" = "/about" +:+ "/" +:+ rest
          ∧ (substring_of "blog" "/about" ∨ ¬ substring_of "/" rest).
Proof.
  intros parent child.
  refine (proj2 (proj2 (proj1 C1_is_child_of cpython parent child _ _
            eq_refl eq_refl eq_refl)) _).
  by vm_compute.
Defined.

(** C9. [is_same_domain] is a total boolean function (its [try] catches
    every exception): for a base URL that parses, it is true exactly when the
    URL parses and has the network location of the base; it is false when the
    URL does not parse. "https://x.com/a" is on the domain of https://x.com
    and not on that of https://y.com. *)
Theorem C9_is_same_domain :
  (∀ (url_lib : UrlLib) (base url : string) (bp : ParseResult),
     urlparse base = Some bp → netloc bp ≠ "" →
     (is_same_domain base url = true ↔
      ∃ up, urlparse url = Some up ∧ netloc up = netloc bp)
     ∧ (urlparse url = None → is_same_domain base url = false))
  ∧ (∀ chk,
       let lib := CPython.lib chk in
       is_same_domain (url_lib := lib) "https://x.com" "https://x.com/a" = true
       ∧ is_same_domain (url_lib := lib) "https://y.com" "https://x.com/a" = false
       ∧ is_same_domain (url_lib := lib) "https://x.com" "https://[x.com/a" = false).
Proof.
  split.
  - intros url_lib base url bp Hb _. split.
    + rewrite is_same_domain_true. split.
      * intros (bp' & up & Hb' & Hu & Hn). exists up.
        rewrite Hb in Hb'. by injection Hb' as ->.
      * intros (up & Hu & Hn). by exists bp, up.
    + intros Hu. unfold is_same_domain. by rewrite Hb, Hu.
  - intros chk. by vm_compute.
Qed.

Lemma C9_is_same_domain_witness :
  (is_same_domain (url_lib := cpython) "https://x.com" "http://x.com/a?b#c" = true ↔
   ∃ up, urlparse (UrlLib := cpython) "http://x.com/a?b#c" = Some up ∧ netloc up = "x.com")
  ∧ (urlparse (UrlLib := cpython) "http://x.com/a?b#c" = None →
     is_same_domain (url_lib := cpython) "https://x.com" "http://x.com/a?b#c" = false).
Proof.
  refine (proj1 C9_is_same_domain cpython "https://x.com" "http://x.com/a?b#c" _ eq_refl _).
  by vm_compute.
Defined.

(** C10. The answer of [is_child_of] is determined by the network locations
    and the paths the two URLs parse to: two pairs of URLs that agree on
    these get the same answer, whatever their schemes, queries and
    fragments. *)
Theorem C10_is_child_of_netloc_path (url_lib : UrlLib)
    (parent parent' child child' : string) (pp pp' cp cp' : ParseResult) :
  urlparse parent = Some pp → urlparse parent' = Some pp' →
  urlparse child = Some cp → urlparse child' = Some cp' →
  netloc pp = netloc pp' → path pp = path pp' →
  netloc cp = netloc cp' → path cp = path cp' →
  is_child_of parent child = is_child_of parent' child'.
Proof.
  intros Hp Hp' Hc Hc' Hn1 Hq1 Hn2 Hq2. unfold is_child_of.
  rewrite Hp, Hp', Hc, Hc'. simpl. by rewrite Hn1, Hq1, Hn2, Hq2.
Qed.

Lemma C10_is_child_of_netloc_path_witness :
  is_child_of (url_lib := cpython) "https://x.com/about?tab=1#top" "https://x.com/about/team"
  = is_child_of (url_lib := cpython) "http://x.com/about" "ftp://x.com/about/team?x=y#z".
Proof.
  eapply (C10_is_child_of_netloc_path cpython
            "https://x.com/about?tab=1#top" "http://x.com/about"
            "https://x.com/about/team" "ftp://x.com/about/team?x=y#z");
    [vm_compute; reflexivity.. | | | | ]; reflexivity.
Defined.

(** ** Link extraction: [get_page_links] *)
Section Extraction.

Context {url_lib : UrlLib} {browser : Browser}.
Variable base_url : string.

Lemma extract_links_sound (url : string) (pool elems : list attribute) (urls : gset string) :
  elems ⊆ pool →
  (∀ u, u ∈ urls → extracted_from base_url url pool u) →
  ∀ u, u ∈ (extract_links base_url url elems urls).1 → extracted_from base_url url pool u.
Proof.
  revert urls. induction elems as [|e elems IH]; intros urls Hsub Hurls; [done|].
  assert (elems ⊆ pool) as Hsub' by set_solver.
  destruct e as [| |href]; simpl; [done|by apply IH|].
  destruct (Py.nonempty href); [|by apply IH].
  destruct (urljoin url href) as [absolute_url|] eqn:Hj; [|done].
  destruct (is_same_domain base_url absolute_url) eqn:Hd; [|by apply IH].
  destruct (urlparse absolute_url) as [parsed|] eqn:Hp; [|done].
  destruct (keep_link url (defragment parsed)) eqn:Hk; [|by apply IH].
  apply IH; [done|]. intros u [->%elem_of_singleton|Hu]%elem_of_union; [|by eauto].
  exists href, absolute_url, parsed. split_and!; try done. set_solver.
Qed.

Lemma page_links_sound (url u : string) :
  u ∈ page_links base_url url → extracted_from base_url url (page_attrs (render url)) u.
Proof.
  unfold page_links, page_attrs.
  destruct (loads (render url)); simpl; [|set_solver].
  destruct (all_links (render url)) as [|elems] eqn:Ha; [set_solver|].
  destruct (extract_links base_url url elems ∅) as [urls finished] eqn:He.
  assert (∀ v, v ∈ urls → extracted_from base_url url (elems ++
            match more_links (render url) with Found l => l | FindRaises => [] end) v)
    as Hurls.
  { intros v Hv. apply (extract_links_sound url _ elems ∅); [set_solver|set_solver|].
    by rewrite He. }
  destruct (finished && Py.contains "blogs" url); [|by auto].
  destruct (scrolls (render url)); [|by auto].
  destruct (more_links (render url)) as [|more]; [by auto|].
  apply extract_links_sound; [set_solver|done].
Qed.

Lemma keep_link_spec (url u : string) :
  keep_link url u = true ↔
  prefix_of "http" u ∧ u ≠ url
  ∧ (∀ ext, ext ∈ skipped_extensions → ¬ suffix_of ext u)
  ∧ ¬ substring_of "#" u.
Proof.
  unfold keep_link. rewrite !andb_true_iff, !negb_true_iff.
  rewrite startswith_spec, String.eqb_neq.
  rewrite <-(not_true_iff_false (Py.endswith_any _ _)).
  rewrite <-(not_true_iff_false (Py.contains _ _)), contains_spec.
  unfold Py.endswith_any. rewrite existsb_exists.
  split.
  - intros [[[? ?] Hext] ?]. split_and!; try done.
    intros ext Hin Hsuf. apply Hext. exists ext.
    by rewrite <-list_elem_of_In, endswith_spec.
  - intros (? & ? & Hext & ?). split_and!; try done.
    intros (ext & Hin & Hsuf). apply (Hext ext); [by apply list_elem_of_In|].
    by apply endswith_spec.
Qed.

(** [get_page_links] with the driver up: it returns, and leaves the
    generator as it was *)
Lemma get_page_links_running (url : string) (g : Generator) :
  driver g = true → get_page_links base_url url g = (g, Ret (page_links base_url url)).
Proof. intros Hd. unfold get_page_links, mbind, M_bind, get_self. by rewrite Hd. Qed.

End Extraction.

Lemma get_page_links_returns {url_lib : UrlLib} {browser : Browser}
    (base_url url : string) (g g' : Generator) (links : gset string) :
  get_page_links base_url url g = (g', Ret links) → links = page_links base_url url.
Proof.
  unfold get_page_links, mbind, M_bind, get_self, setup_driver.
  destruct (driver g); simpl; [by intros [= _ <-]|].
  destruct chrome_starts; simpl; [by intros [= _ <-]|done].
Qed.

(** C6 as the specification states it, on a page of https://x.com with one
    link to https://x.com/logo.png?v=2: the link is returned although its
    path ends with ".png". *)
Lemma C6_query_counterexample :
  let browser := uniform_browser [AttrValue "https://x.com/logo.png?v=2"] in
  ∃ u parsed,
    get_page_links (url_lib := cpython) (browser := browser)
      "https://x.com" "https://x.com" started = (started, Ret {[u]})
    ∧ urlparse (UrlLib := cpython) u = Some parsed
    ∧ path parsed = "/logo.png"
    ∧ Py.endswith_any (path parsed) skipped_extensions = true.
Proof.
  exists "https://x.com/logo.png?v=2", (mkParseResult "https" "x.com" "/logo.png" "" "v=2" "").
  split_and!; by vm_compute.
Qed.

(** C6 (amended). Every URL that [get_page_links] returns is the target of a
    link of the page, resolved against the page's URL, on the base domain,
    with its fragment dropped; it differs from the page's URL, starts with
    "http", contains no '#', and as a whole string (query included) does not
    end with .jpg, .png, .gif, .css, .js, .pdf or .zip. *)
Theorem C6_extracted_links (url_lib : UrlLib) (browser : Browser)
    (base_url url : string) (g g' : Generator) (links : gset string) (u : string) :
  get_page_links base_url url g = (g', Ret links) → u ∈ links →
  ∃ href absolute_url parsed,
    AttrValue href ∈ page_attrs (render url)
    ∧ urljoin url href = Some absolute_url
    ∧ is_same_domain base_url absolute_url = true
    ∧ urlparse absolute_url = Some parsed
    ∧ u = defragment parsed
    ∧ u ≠ url
    ∧ prefix_of "http" u
    ∧ (∀ ext, ext ∈ skipped_extensions → ¬ suffix_of ext u)
    ∧ ¬ substring_of "#" u.
Proof.
  intros ->%get_page_links_returns Hu.
  apply page_links_sound in Hu as (href & absolute_url & parsed & ? & ? & ? & ? & ? & Hk).
  apply keep_link_spec in Hk as (? & ? & ? & ?).
  exists href, absolute_url, parsed. by split_and!.
Qed.

Lemma C6_extracted_links_witness :
  ∃ href absolute_url parsed,
    AttrValue href ∈ page_attrs (render (Browser := uniform_browser [AttrValue "/a#top"]) "https://x.com")
    ∧ urljoin (UrlLib := cpython) "https://x.com" href = Some absolute_url
    ∧ is_same_domain (url_lib := cpython) "https://x.com" absolute_url = true
    ∧ urlparse (UrlLib := cpython) absolute_url = Some parsed
    ∧ "https://x.com/a" = defragment (url_lib := cpython) parsed
    ∧ "https://x.com/a" ≠ "https://x.com"
    ∧ prefix_of "http" "https://x.com/a"
    ∧ (∀ ext, ext ∈ skipped_extensions → ¬ suffix_of ext "https://x.com/a")
    ∧ ¬ substring_of "#" "https://x.com/a".
Proof.
  apply (C6_extracted_links cpython (uniform_browser [AttrValue "/a#top"])
           "https://x.com" "https://x.com" started started {["https://x.com/a"]}).
  - vm_compute. reflexivity.
  - apply elem_of_singleton. reflexivity.
Defined.

Lemma iter_empty {set_order : SetOrder} (site : loop_site) (url : string) :
  iter site url ∅ = [].
Proof.
  apply Permutation_nil_r. rewrite iter_perm. by rewrite elements_empty.
Qed.

(** the step of [crawl_recursive] for a page that yields no link *)
Lemma crawl_no_links {url_lib : UrlLib} {set_order : SetOrder} {browser : Browser}
    (base_url : string) (max_depth : Z) (fuel : nat) (url : string) (depth : Z)
    (g : Generator) :
  driver g = true → page_links base_url url = ∅ →
  depth ≤ max_depth → url ∉ visited_urls (state g) →
  ∃ g', crawl_recursive base_url max_depth (S fuel) url depth g = (g', Ret tt)
        ∧ state g' = mkState ({[url]} ∪ visited_urls (state g))
                       (all_found_urls (state g))
                       (<[url := ∅]> (url_children (state g)))
        ∧ logs g' = logs g ++ [(url, depth)]
        ∧ driver g' = true.
Proof.
  intros Hd Hl Hdepth Hv. simpl. unfold crawl_body.
  unfold mbind at 1. unfold M_bind, get_self.
  replace (depth >? max_depth) with false by lia.
  rewrite bool_decide_eq_false_2 by done. simpl.
  unfold mbind, M_bind, log_crawling, add_visited, update_found, set_children, update.
  simpl. rewrite get_page_links_running by done. simpl.
  rewrite Hl, iter_empty. simpl. rewrite iter_empty. simpl.
  destruct (Py.contains "blogs" url && (depth <? 3)); simpl;
    (eexists; split_and!; [reflexivity| |reflexivity|done]); simpl;
    by rewrite (right_id_L ∅ (∪)).
Qed.





(** ** The crawl: a proof rule for [crawl_recursive] *)
Section Monad.

Lemma after_bind {A B} (c : M A) (k : A → M B) (g : Generator) :
  after (c ≫= k) g =
  match outcome c g with
  | Ret a => after (k a) (after c g)
  | _ => after c g
  end.
Proof. unfold after, outcome, mbind, M_bind. by destruct (c g) as [g' [a|e|]]. Qed.

Lemma outcome_bind {A B} (c : M A) (k : A → M B) (g : Generator) :
  outcome (c ≫= k) g =
  match outcome c g with
  | Ret a => outcome (k a) (after c g)
  | Raise e => Raise e
  | OutOfFuel => OutOfFuel
  end.
Proof. unfold after, outcome, mbind, M_bind. by destruct (c g) as [g' [a|e|]]. Qed.

Lemma after_get_self {A} (k : Generator → M A) (g : Generator) :
  after (get_self ≫= k) g = after (k g) g.
Proof. done. Qed.

Lemma outcome_get_self {A} (k : Generator → M A) (g : Generator) :
  outcome (get_self ≫= k) g = outcome (k g) g.
Proof. done. Qed.

Lemma after_update {A} (f : CrawlState → CrawlState) (k : M A) (g : Generator) :
  after (update f ≫= λ _, k) g = after k (after (update f) g).
Proof. done. Qed.

Lemma outcome_update {A} (f : CrawlState → CrawlState) (k : M A) (g : Generator) :
  outcome (update f ≫= λ _, k) g = outcome k (after (update f) g).
Proof. done. Qed.

Lemma after_lift {A B} (o : option A) (k : A → M B) (g : Generator) :
  after (lift o ≫= k) g = match o with Some a => after (k a) g | None => g end.
Proof. by destruct o. Qed.

Lemma outcome_lift {A B} (o : option A) (k : A → M B) (g : Generator) :
  outcome (lift o ≫= k) g =
  match o with Some a => outcome (k a) g | None => Raise ValueError end.
Proof. by destruct o. Qed.

(** an invariant of the body is an invariant of the loop *)
Lemma for_each_after {A} (I : Generator → Prop) (l : list A) (body : A → M unit) :
  (∀ x g, x ∈ l → I g → I (after (body x) g)) →
  ∀ g, I g → I (after (for_each l body) g).
Proof.
  induction l as [|x l IH]; intros Hbody g Hg; [done|].
  simpl. rewrite after_bind.
  assert (I (after (body x) g)) by (apply Hbody; [left|done]).
  destruct (outcome (body x) g); [|done..].
  apply IH; [|done]. intros y g' Hy. apply Hbody. by right.
Qed.

(** a loop whose body does not run out of fuel does not *)
Lemma for_each_outcome {A} (l : list A) (body : A → M unit) :
  (∀ x g, x ∈ l → outcome (body x) g ≠ OutOfFuel) →
  ∀ g, outcome (for_each l body) g ≠ OutOfFuel.
Proof.
  induction l as [|x l IH]; intros Hbody g; [done|].
  simpl. rewrite outcome_bind.
  pose proof (Hbody x g ltac:(left)) as Hx.
  destruct (outcome (body x) g); [|done..].
  apply IH. intros y g' Hy. apply Hbody. by right.
Qed.

End Monad.

Section Crawl.

Context {url_lib : UrlLib} {set_order : SetOrder} {browser : Browser}.
Variable base_url : string.
Variable max_depth : Z.

Lemma elem_of_iter (site : loop_site) (url : string) (X : gset string) (x : string) :
  x ∈ iter site url X ↔ x ∈ X.
Proof. by rewrite iter_perm, elem_of_elements. Qed.

Lemma NoDup_iter (site : loop_site) (url : string) (X : gset string) :
  NoDup (iter site url X).
Proof. rewrite iter_perm. apply NoDup_elements. Qed.

Lemma collect_children_subseteq (url : string) (links : list string)
    (acc children : gset string) :
  collect_children url links acc = Some children →
  children ⊆ acc ∪ list_to_set links.
Proof.
  revert acc. induction links as [|link links IH]; intros acc; simpl.
  - intros [= ->]. set_solver.
  - destruct (is_child_of url link) as [b|]; [|done]. simpl.
    intros H%IH. destruct b; set_solver.
Qed.

(** [get_page_links] touches the driver only *)
Lemma get_page_links_after (url : string) (g : Generator) :
  ∃ d, after (get_page_links base_url url) g = mkGen (state g) d (logs g) (history g).
Proof.
  unfold after, get_page_links, mbind, M_bind, get_self, setup_driver.
  destruct g as [s d l h]. simpl. destruct d; simpl; [by eexists|].
  destruct chrome_starts; simpl; by eexists.
Qed.

Lemma get_page_links_outcome (url : string) (g : Generator) :
  outcome (get_page_links base_url url) g = Ret (page_links base_url url)
  ∨ outcome (get_page_links base_url url) g = Raise DriverInitError.
Proof.
  unfold outcome, get_page_links, mbind, M_bind, get_self, setup_driver.
  destruct (driver g); simpl; [by left|].
  destruct chrome_starts; simpl; by eauto.
Qed.

Section Rule.

(** [Pre url g]: [url] may be crawled from [g]. [Rel g g']: how a crawl may
    change the generator. *)
Variable Pre : string → Generator → Prop.
Variable Rel : Generator → Generator → Prop.

Hypothesis Rel_refl : ∀ g, Rel g g.
Hypothesis Rel_trans : ∀ g1 g2 g3, Rel g1 g2 → Rel g2 g3 → Rel g1 g3.
Hypothesis Rel_driver : ∀ g d, Rel g (mkGen (state g) d (logs g) (history g)).
Hypothesis Pre_mono : ∀ url g g', Pre url g → Rel g g' → Pre url g'.
Hypothesis Rel_enter : ∀ url depth g,
  Pre url g → url ∉ visited_urls (state g) → Rel g (after (enter url depth) g).
Hypothesis Rel_found : ∀ links g, Rel g (after (update_found links) g).
Hypothesis Pre_found : ∀ links g link,
  link ∈ links → Pre link (after (update_found links) g).
Hypothesis Rel_children : ∀ url children g,
  url ∈ visited_urls (state g) → Rel g (after (set_children url children) g).

Lemma after_enter {A} (url : string) (depth : Z) (k : M A) (g : Generator) :
  after (log_crawling url depth ≫= λ _, add_visited url ≫= λ _, k) g
  = after k (after (enter url depth) g).
Proof. done. Qed.

Lemma outcome_enter {A} (url : string) (depth : Z) (k : M A) (g : Generator) :
  outcome (log_crawling url depth ≫= λ _, add_visited url ≫= λ _, k) g
  = outcome k (after (enter url depth) g).
Proof. done. Qed.

Lemma crawl_rule (fuel : nat) (url : string) (depth : Z) (g : Generator) :
  Pre url g → Rel g (after (crawl_recursive base_url max_depth fuel url depth) g).
Proof.
  revert url depth g. induction fuel as [|fuel IH]; intros url depth g HPre; [done|].
  cbn [crawl_recursive]. unfold crawl_body. rewrite after_get_self.
  destruct (_ || _) eqn:Hguard; [done|].
  apply orb_false_iff in Hguard as [_ Hv%bool_decide_eq_false].
  rewrite after_enter.
  set (g1 := after (enter url depth) g).
  assert (Rel g g1) as H1 by by apply Rel_enter.
  assert (url ∈ visited_urls (state g1)) as Hv1 by (simpl; set_solver).
  rewrite after_bind.
  destruct (get_page_links_after url g1) as [d Hg2]. rewrite Hg2.
  set (g2 := mkGen (state g1) d (logs g1) (history g1)).
  assert (Rel g g2) as H2 by (eapply Rel_trans; [done|apply Rel_driver]).
  destruct (get_page_links_outcome url g1) as [-> | ->]; [|done].
  set (links := page_links base_url url).
  unfold update_found at 1. rewrite after_update. fold (update_found links).
  set (g3 := after (update_found links) g2).
  assert (Rel g g3) as H3 by (eapply Rel_trans; [done|apply Rel_found]).
  rewrite after_lift.
  destruct (collect_children url (iter OverLinks url links) ∅) as [children|] eqn:Hc;
    [|done].
  unfold set_children at 1. rewrite after_update. fold (set_children url children).
  set (g4 := after (set_children url children) g3).
  assert (Rel g3 g4) as H34 by by apply Rel_children.
  assert (Rel g g4) as H4 by by eapply Rel_trans.
  assert (∀ link g', link ∈ links → Rel g3 g' → Rel g' (after
            (crawl_recursive base_url max_depth fuel link (depth + 1)) g')) as Hrec.
  { intros link g' Hin Hrel. apply IH. eapply Pre_mono; [|done]. by apply Pre_found. }
  assert (children ⊆ links) as Hsub.
  { apply collect_children_subseteq in Hc. intros x Hx. apply Hc in Hx.
    rewrite elem_of_union, elem_of_list_to_set, elem_of_iter in Hx. set_solver. }
  apply (Rel_trans _ g3); [done|].
  rewrite after_bind.
  set (blog_loop := if Py.contains "blogs" url && (depth <? 3) then _ else _).
  assert (Rel g3 (after blog_loop g4)) as H5.
  { unfold blog_loop. destruct (_ && _); [|done].
    apply (for_each_after (Rel g3)); [|done].
    intros link g' Hin%elem_of_iter Hg'. rewrite after_get_self.
    destruct (_ && _); [|done].
    eapply Rel_trans; [done|]. by apply Hrec. }
  destruct (outcome blog_loop g4); [|done..].
  apply (for_each_after (Rel g3)); [|done].
  intros child g' Hin%elem_of_iter Hg'. rewrite after_get_self.
  destruct (bool_decide _); [|done].
  eapply Rel_trans; [done|]. apply Hrec; [by apply Hsub|done].
Qed.

End Rule.
End Crawl.

Section CrawlFacts.

Context {url_lib : UrlLib} {set_order : SetOrder} {browser : Browser}.
Variable base_url : string.
Variable max_depth : Z.

(** *** Termination *)

Lemma crawl_recursive_fuel (fuel : nat) (url : string) (depth : Z) (g : Generator) :
  (Z.to_nat (max_depth - depth + 1) < fuel)%nat →
  outcome (crawl_recursive base_url max_depth fuel url depth) g ≠ OutOfFuel.
Proof.
  revert url depth g. induction fuel as [|fuel IH]; intros url depth g Hfuel; [lia|].
  cbn [crawl_recursive]. unfold crawl_body. rewrite outcome_get_self.
  destruct (_ || _) eqn:Hguard; [done|].
  apply orb_false_iff in Hguard as [Hdepth _].
  assert (∀ link g', outcome
            (crawl_recursive base_url max_depth fuel link (depth + 1)) g' ≠ OutOfFuel)
    as Hrec by (intros; apply IH; lia).
  rewrite outcome_enter.
  rewrite outcome_bind.
  destruct (get_page_links_outcome base_url url (after (enter url depth) g))
    as [-> | ->]; [|done].
  unfold update_found at 1. rewrite outcome_update. rewrite outcome_lift.
  destruct (collect_children _ _ _) as [children|]; [|done].
  unfold set_children at 1. rewrite outcome_update. rewrite outcome_bind.
  set (blog_loop := if Py.contains "blogs" url && (depth <? 3) then _ else _).
  assert (∀ g', outcome blog_loop g' ≠ OutOfFuel) as Hblog.
  { intros g'. unfold blog_loop. destruct (_ && _); [|done].
    apply for_each_outcome. intros link g'' _. rewrite outcome_get_self.
    by destruct (_ && _). }
  destruct (outcome blog_loop _) eqn:Hb; [|done|by apply Hblog in Hb].
  apply for_each_outcome. intros link g'' _. rewrite outcome_get_self.
  by destruct (bool_decide _).
Qed.

(** *** More fuel does not change a run that had enough *)

Lemma bind_more {A B} (c c' : M A) (k k' : A → M B) (g : Generator) :
  (outcome c g ≠ OutOfFuel → c' g = c g) →
  (∀ a g', outcome (k a) g' ≠ OutOfFuel → k' a g' = k a g') →
  outcome (c ≫= k) g ≠ OutOfFuel → (c' ≫= k') g = (c ≫= k) g.
Proof.
  intros Hc Hk. unfold outcome, mbind, M_bind in *.
  destruct (c g) as [g1 [a| |]] eqn:E; simpl in *; intros H.
  - rewrite Hc by done. by apply Hk.
  - by rewrite Hc.
  - done.
Qed.

Lemma for_each_more {A} (body body' : A → M unit) (l : list A) (g : Generator) :
  (∀ x g', outcome (body x) g' ≠ OutOfFuel → body' x g' = body x g') →
  outcome (for_each l body) g ≠ OutOfFuel →
  for_each l body' g = for_each l body g.
Proof.
  intros Hbody. revert g. induction l as [|x l IH]; intros g; [done|].
  simpl. apply bind_more; [apply Hbody|]. intros _ g'. apply IH.
Qed.

Lemma crawl_body_more (self_crawl self_crawl' : string → Z → M unit)
    (url : string) (depth : Z) (g : Generator) :
  (∀ u d g', outcome (self_crawl u d) g' ≠ OutOfFuel →
             self_crawl' u d g' = self_crawl u d g') →
  outcome (crawl_body base_url max_depth self_crawl url depth) g ≠ OutOfFuel →
  crawl_body base_url max_depth self_crawl' url depth g
  = crawl_body base_url max_depth self_crawl url depth g.
Proof.
  intros Hself. unfold crawl_body.
  apply bind_more; [done|]. intros g0 g1. destruct (_ || _); [done|].
  do 6 (apply bind_more; [done|]; intros ? ?).
  apply bind_more.
  - destruct (_ && _); [|done]. apply for_each_more. intros link g4.
    apply bind_more; [done|]. intros g5 g6. destruct (_ && _); [|done]. apply Hself.
  - intros _ g4. apply for_each_more. intros child g5.
    apply bind_more; [done|]. intros g6 g7. destruct (bool_decide _); [|done].
    apply Hself.
Qed.

Lemma crawl_recursive_more (fuel fuel' : nat) (url : string) (depth : Z)
    (g : Generator) :
  (fuel ≤ fuel')%nat →
  outcome (crawl_recursive base_url max_depth fuel url depth) g ≠ OutOfFuel →
  crawl_recursive base_url max_depth fuel' url depth g
  = crawl_recursive base_url max_depth fuel url depth g.
Proof.
  revert fuel' url depth g. induction fuel as [|fuel IH]; intros fuel' url depth g Hle H;
    [done|].
  destruct fuel' as [|fuel']; [lia|]. cbn [crawl_recursive].
  apply crawl_body_more; [|done]. intros u d g'. apply IH. lia.
Qed.

(** *** Each URL is crawled once, and [visited_urls] only grows *)

Lemma progress_visited (g g' : Generator) :
  progress g g' → visited_urls (state g) ⊆ visited_urls (state g').
Proof. intros [(steps & _ & _ & H) _]. by apply Forall_cons in H as [H _]. Qed.

Lemma progress_refl (g : Generator) : progress g g.
Proof.
  split.
  - exists []. split_and!; [done|repeat constructor|by repeat constructor].
  - exists []. rewrite app_nil_r. split_and!; [done|constructor|constructor].
Qed.

Lemma progress_trans (g1 g2 g3 : Generator) :
  progress g1 g2 → progress g2 g3 → progress g1 g3.
Proof.
  intros H12 H23.
  pose proof (progress_visited _ _ H12) as Hv12.
  pose proof (progress_visited _ _ H23) as Hv23.
  destruct H12 as [(st12 & Hh12 & Ha12 & Hf12) (en12 & Hl12 & Hn12 & He12)].
  destruct H23 as [(st23 & Hh23 & Ha23 & Hf23) (en23 & Hl23 & Hn23 & He23)].
  split.
  - exists (st23 ++ st12). split_and!.
    + by rewrite Hh23, Hh12, (assoc_L (++)).
    + unfold ascending in *. rewrite app_comm_cons. apply StronglySorted_app.
      split_and!; [|done|by apply StronglySorted_cons in Ha12 as [_ ?]].
      intros x1 x2 Hx1 Hx2. unfold grows.
      apply StronglySorted_cons in Ha12 as [Hhd _].
      rewrite Forall_forall in Hhd, Hf23.
      etrans; [by apply Hhd|by apply Hf23].
    + rewrite app_comm_cons. apply Forall_app. split.
      * eapply Forall_impl; [done|]. simpl. intros s Hs. by etrans.
      * by apply Forall_cons in Hf12 as [_ ?].
  - exists (en12 ++ en23). rewrite fmap_app. split_and!.
    + by rewrite Hl23, Hl12, (assoc_L (++)).
    + apply NoDup_app. split_and!; [done| |done].
      rewrite Forall_forall in He12, He23. intros u Hu1 Hu2.
      apply He12 in Hu1 as [_ Hu1]. apply He23 in Hu2 as [Hu2 _]. done.
    + apply Forall_app. split.
      * eapply Forall_impl; [done|]. simpl. intros u [? ?]. split; [done|]. by apply Hv23.
      * eapply Forall_impl; [done|]. simpl. intros u [Hu ?]. split; [|done].
        intros ?. by apply Hu, Hv12.
Qed.

Lemma progress_driver (g : Generator) (d : bool) :
  progress g (mkGen (state g) d (logs g) (history g)).
Proof.
  split.
  - exists []. split_and!; [done|repeat constructor|by repeat constructor].
  - exists []. simpl. rewrite app_nil_r. split_and!; [done|constructor|constructor].
Qed.

(** an update that keeps [visited_urls] or adds to it *)
Lemma progress_update (f : CrawlState → CrawlState) (g : Generator) :
  visited_urls (state g) ⊆ visited_urls (f (state g)) →
  progress g (after (update f) g).
Proof.
  intros Hv. split.
  - exists [state g]. simpl. split_and!; [done| |by repeat constructor].
    repeat constructor. done.
  - exists []. simpl. rewrite app_nil_r. split_and!; [done|constructor|constructor].
Qed.

Lemma progress_enter (url : string) (depth : Z) (g : Generator) :
  url ∉ visited_urls (state g) → progress g (after (enter url depth) g).
Proof.
  intros Hv. split.
  - exists [state g]. simpl. split_and!; [done| |repeat constructor; set_solver].
    repeat constructor. unfold grows. simpl. set_solver.
  - exists [(url, depth)]. simpl. split_and!; [done|apply NoDup_singleton|].
    repeat constructor; [done|set_solver].
Qed.

Lemma crawl_progress (fuel : nat) (url : string) (depth : Z) (g : Generator) :
  progress g (after (crawl_recursive base_url max_depth fuel url depth) g).
Proof.
  apply (crawl_rule base_url max_depth (λ _ _, True) progress);
    auto using progress_refl, progress_driver.
  - apply progress_trans.
  - intros. by apply progress_enter.
  - intros. by apply progress_update.
  - intros. by apply progress_update.
Qed.

(** *** The invariant of the crawl state *)

Section Invariant.

Variable roots : gset string.

Lemma keeps_invariant_update (f : CrawlState → CrawlState) (g : Generator) :
  all_found_urls (state g) ⊆ all_found_urls (f (state g)) →
  (crawl_invariant roots (state g) → crawl_invariant roots (f (state g))) →
  keeps_invariant roots g (after (update f) g).
Proof.
  intros Hfound Hinv. split; [done|]. unfold states. simpl. intros H.
  constructor; [|done]. apply Hinv. by apply Forall_cons in H as [? _].
Qed.

Lemma crawl_keeps_invariant (fuel : nat) (url : string) (depth : Z) (g : Generator) :
  crawlable roots url g →
  keeps_invariant roots g (after (crawl_recursive base_url max_depth fuel url depth) g).
Proof.
  apply (crawl_rule base_url max_depth (crawlable roots) (keeps_invariant roots)).
  - by intros g0.
  - intros g1 g2 g3 [? ?] [? ?]. split; [by etrans|auto].
  - by intros g0 d.
  - intros u g1 g2 Hu [Hsub _]. unfold crawlable in *. set_solver.
  - intros u d g0 Hu _. apply (keeps_invariant_update _ (after (log_crawling u d) g0)).
    + done.
    + unfold crawlable in Hu. unfold crawl_invariant. simpl. set_solver.
  - intros links g0. apply keeps_invariant_update.
    + simpl. set_solver.
    + unfold crawl_invariant. simpl. set_solver.
  - intros links g0 link Hin. unfold crawlable. simpl. set_solver.
  - intros u children g0 Hu. apply keeps_invariant_update; [done|].
    unfold crawl_invariant. simpl. rewrite dom_insert_L. set_solver.
Qed.

End Invariant.

End CrawlFacts.

Lemma crawl_site_keeps_invariant {url_lib : UrlLib} {set_order : SetOrder}
    {browser : Browser} (base_url : string) (max_depth : Z) (fuel : nat) (g : Generator) :
  keeps_invariant (crawl_roots base_url) g (after (crawl_site base_url max_depth fuel) g).
Proof.
  assert (∀ g1 g2 g3 : Generator,
            keeps_invariant (crawl_roots base_url) g1 g2 →
            keeps_invariant (crawl_roots base_url) g2 g3 →
            keeps_invariant (crawl_roots base_url) g1 g3) as Htrans.
  { intros g1 g2 g3 [? ?] [? ?]. split; [by etrans|auto]. }
  unfold crawl_site. rewrite after_get_self, after_bind.
  set (g1 := after (if driver g then mret () else setup_driver) g).
  assert (keeps_invariant (crawl_roots base_url) g g1) as H1.
  { unfold g1, setup_driver, after. destruct (driver g); [done|].
    by destruct chrome_starts. }
  destruct (outcome _ g); [|done..].
  rewrite after_lift. unfold crawl_roots in *.
  destruct (urlparse base_url) as [parsed|]; [|done].
  unfold update_found at 1. rewrite after_update. fold (update_found (discover_sitemap_urls base_url)).
  set (g2 := after (update_found _) g1).
  assert (keeps_invariant {[root_of parsed; base_url]} g g2) as H2.
  { apply (Htrans _ g1); [done|]. apply keeps_invariant_update.
    - simpl. set_solver.
    - unfold crawl_invariant. simpl. set_solver. }
  rewrite after_bind.
  set (g3 := after (crawl_recursive base_url max_depth fuel (root_of parsed) 0) g2).
  assert (keeps_invariant {[root_of parsed; base_url]} g g3) as H3.
  { apply (Htrans _ g2); [done|]. apply crawl_keeps_invariant.
    unfold crawlable. set_solver. }
  destruct (outcome _ g2); [|done..].
  destruct (negb _); [|done].
  apply (Htrans _ g3); [done|]. apply crawl_keeps_invariant.
  unfold crawlable. set_solver.
Qed.

(** C2. [crawl_recursive] terminates: with more fuel than
    [max_depth - depth + 1] it never runs out of it, and more fuel still
    gives the same run. Whatever it is started
    on, it logs [Crawling] (and so passes its guard and fetches the page)
    only for URLs that were not visited before, for each of them once, and
    leaves them visited; and along the crawl states it goes through,
    [visited_urls] only grows. *)
Theorem C2_crawl_terminates (url_lib : UrlLib) (set_order : SetOrder) (browser : Browser)
    (base_url : string) (max_depth : Z) (url : string) (depth : Z) (g : Generator)
    (fuel : nat) :
  let run := crawl_recursive base_url max_depth fuel url depth in
  ((Z.to_nat (max_depth - depth + 1) < fuel)%nat →
   outcome run g ≠ OutOfFuel
   ∧ ∀ fuel', (fuel ≤ fuel')%nat →
              crawl_recursive base_url max_depth fuel' url depth g = run g)
  ∧ (∃ entries,
       logs (after run g) = logs g ++ entries
       ∧ NoDup entries.*1
       ∧ Forall (λ u, (u ∉ visited_urls (state g)) ∧ (u ∈ visited_urls (state (after run g))))
                entries.*1)
  ∧ (∃ steps,
       history (after run g) = steps ++ history g
       ∧ ascending (state (after run g) :: steps)
       ∧ Forall (λ s, visited_urls (state g) ⊆ visited_urls s)
                (state (after run g) :: steps)).
Proof.
  intros run. split.
  { intros Hfuel. pose proof (crawl_recursive_fuel base_url max_depth fuel url depth g Hfuel).
    split; [done|]. intros fuel' Hle. by apply crawl_recursive_more. }
  destruct (crawl_progress base_url max_depth fuel url depth g) as [Hsteps Hlog].
  done.
Qed.

Lemma C2_crawl_terminates_witness :
  outcome (crawl_recursive (url_lib := cpython) (set_order := elements_order)
             (browser := uniform_browser [AttrValue "/a"; AttrValue "/a/b"])
             "https://x.com" 5 7 "https://x.com" 0) started ≠ OutOfFuel.
Proof.
  refine (proj1 (proj1 (C2_crawl_terminates cpython elements_order
                   (uniform_browser [AttrValue "/a"; AttrValue "/a/b"])
                   "https://x.com" 5 "https://x.com" 0 started 7) _)).
  vm_compute. lia.
Defined.

(** C4 as the specification states it, on a site none of whose pages loads,
    crawled from the base URL https://x.com/a: the crawl ends with the base
    URL visited, though it is neither the root https://x.com nor a found
    link. *)
Lemma C4_base_url_counterexample :
  let s := state (after (crawl_site (url_lib := cpython) (set_order := elements_order)
                           (browser := dead_browser) "https://x.com/a" 5 7) init) in
  (root_of (url_lib := cpython) <$> urlparse (UrlLib := cpython) "https://x.com/a")
  = Some "https://x.com"
  ∧ ¬ (visited_urls s ⊆ all_found_urls s ∪ {["https://x.com"]}).
Proof.
  split; [by vm_compute|].
  apply (bool_decide_eq_false_1 _). by vm_compute.
Qed.

(** C4 (amended). With the base URL counted as a root beside the bare root:
    in every crawl state that [crawl_site] goes through from a new
    generator, and in the one it ends in, every visited URL is a found link,
    the root or the base URL, and every key of [url_children] is visited.
    [crawl_recursive] keeps this invariant, for any set of roots, when it is
    started on a root or a found link. *)
Theorem C4_crawl_invariant (url_lib : UrlLib) (set_order : SetOrder) (browser : Browser)
    (base_url : string) (max_depth : Z) (fuel : nat) :
  Forall (crawl_invariant (crawl_roots base_url))
         (states (after (crawl_site base_url max_depth fuel) init))
  ∧ (∀ roots url depth g,
       url ∈ all_found_urls (state g) ∪ roots →
       Forall (crawl_invariant roots) (states g) →
       Forall (crawl_invariant roots)
              (states (after (crawl_recursive base_url max_depth fuel url depth) g))).
Proof.
  split.
  - apply (crawl_site_keeps_invariant base_url max_depth fuel init).
    repeat constructor; simpl; set_solver.
  - intros roots url depth g Hurl Hinv.
    by apply (crawl_keeps_invariant base_url max_depth roots fuel url depth g).
Qed.

Lemma C4_crawl_invariant_witness :
  Forall (crawl_invariant {["https://x.com"]})
         (states (after (crawl_recursive (url_lib := cpython) (set_order := elements_order)
                           (browser := uniform_browser [AttrValue "/a"])
                           "https://x.com" 5 7 "https://x.com" 0) started)).
Proof.
  refine (proj2 (C4_crawl_invariant cpython elements_order
                   (uniform_browser [AttrValue "/a"]) "https://x.com" 5 7)
            {["https://x.com"]} "https://x.com" 0 started _ _).
  - apply elem_of_union_r, elem_of_singleton. reflexivity.
  - repeat constructor; simpl; intros x Hx; exfalso; revert Hx;
      [apply not_elem_of_empty | rewrite dom_empty_L; apply not_elem_of_empty].
Defined.

(** ** The crawl: which links one step recurses into *)
Section Deepening.

Context {url_lib : UrlLib} {set_order : SetOrder} {browser : Browser}.
Variable base_url : string.
Variable max_depth : Z.

Lemma run_eq {A} (c : M A) (g g' : Generator) (r : result A) :
  c g = (g', r) → after c g = g' ∧ outcome c g = r.
Proof. unfold after, outcome. by intros ->. Qed.

Lemma filter_ext_elem {A} (P Q : A → Prop) `{∀ x, Decision (P x), ∀ x, Decision (Q x)}
    (l : list A) :
  (∀ x, x ∈ l → P x ↔ Q x) → filter P l = filter Q l.
Proof.
  induction l as [|x l IH]; intros Hext; [done|].
  rewrite !filter_cons. rewrite IH by (intros; apply Hext; by right).
  destruct (decide (P x)) as [HP|HP], (decide (Q x)) as [HQ|HQ]; try done.
  - by apply Hext in HP; [|left].
  - by apply Hext in HQ; [|left].
Qed.

Lemma page_links_not_self (url : string) : url ∉ page_links base_url url.
Proof.
  intros (?&?&?&_&_&_&_&_&Hk)%page_links_sound.
  by apply keep_link_spec in Hk as (_ & ? & _).
Qed.

(** a loop of guarded recursive calls over pages that have no links: it
    crawls, in order, the elements that pass the guard at the start *)
Lemma deepening_loop (static : string → bool) (fuel : nat) (d : Z)
    (l : list string) (g : Generator) :
  d ≤ max_depth → driver g = true → NoDup l →
  (∀ link, link ∈ l → page_links base_url link = ∅) →
  let called :=
    filter (λ link, static link = true ∧ link ∉ visited_urls (state g)) l in
  ∃ g',
    for_each l (λ link,
      g0 ← get_self;
      if static link && bool_decide (link ∉ visited_urls (state g0))
      then crawl_recursive base_url max_depth (S fuel) link d
      else mret ()) g = (g', Ret ())
    ∧ driver g' = true
    ∧ logs g' = logs g ++ ((λ link, (link, d)) <$> called)
    ∧ visited_urls (state g') = list_to_set called ∪ visited_urls (state g).
Proof.
  intros Hd. revert g. induction l as [|x l IH]; intros g Hdrv Hnd Hleaf called.
  - exists g. subst called. simpl. rewrite app_nil_r. split_and!; try done. set_solver.
  - apply NoDup_cons in Hnd as [Hx Hnd]. subst called. rewrite filter_cons.
    cbn [for_each]. unfold mbind at 1, M_bind at 1. unfold mbind at 1, M_bind at 1.
    unfold get_self at 1.
    destruct (decide (static x = true ∧ x ∉ visited_urls (state g))) as [[Hs Hv]|Hno].
    + rewrite Hs, bool_decide_eq_true_2 by done. cbn [andb].
      destruct (crawl_no_links base_url max_depth fuel x d g)
        as (g1 & -> & Hst1 & Hl1 & Hd1); [done|apply Hleaf; by left|done|done|].
      destruct (IH g1) as (g' & -> & Hd' & Hl' & Hv'); [done|done| |].
      { intros; apply Hleaf; by right. }
      exists g'. split_and!; [done|done| |].
      * rewrite Hl', Hl1, <-(assoc_L (++)). simpl. do 3 f_equal.
        apply filter_ext_elem. intros y Hy. rewrite Hst1. simpl. set_solver.
      * rewrite Hv', Hst1. simpl.
        rewrite (filter_ext_elem _ (λ link, static link = true
                   ∧ link ∉ visited_urls (state g)) l).
        -- set_solver.
        -- intros y Hy. set_solver.
    + assert (static x && bool_decide (x ∉ visited_urls (state g)) = false) as ->.
      { apply not_true_is_false. intros [? ?%bool_decide_eq_true]%andb_true_iff. tauto. }
      cbv iota. unfold mret at 1, M_ret at 1.
      destruct (IH g) as (g' & -> & ?); [done|done| |by exists g'].
      intros; apply Hleaf; by right.
Qed.

Lemma blog_deepening (fuel : nat) (url : string) (depth : Z) (g : Generator)
    (children : gset string) :
  driver g = true → url ∉ visited_urls (state g) → depth < max_depth →
  (∀ link, link ∈ page_links base_url url → page_links base_url link = ∅) →
  collect_children url (iter OverLinks url (page_links base_url url)) ∅ = Some children →
  let links := page_links base_url url in
  let blog_links :=
    if Py.contains "blogs" url && (depth <? 3)
    then filter (λ link, is_same_domain base_url link && Py.contains "/blogs/" link = true
                         ∧ link ∉ visited_urls (state g))
                (iter OverLinks url links)
    else [] in
  let child_links :=
    filter (λ child, (child ∉ visited_urls (state g)) ∧ (child ∉ blog_links))
           (iter OverChildren url children) in
  let run := crawl_recursive base_url max_depth (S (S fuel)) url depth in
  outcome run g = Ret ()
  ∧ logs (after run g)
    = logs g ++ (url, depth) :: ((λ link, (link, depth + 1)) <$> (blog_links ++ child_links)).
Proof.
  intros Hdrv Hv Hdepth Hleaf Hc links blog_links child_links run.
  assert (children ⊆ links) as Hsub.
  { apply collect_children_subseteq in Hc. intros x Hx. apply Hc in Hx.
    rewrite elem_of_union, elem_of_list_to_set, elem_of_iter in Hx. set_solver. }
  pose proof (page_links_not_self url) as Hself. fold links in Hself.
  subst run.
  change (crawl_recursive base_url max_depth (S (S fuel)) url depth)
    with (crawl_body base_url max_depth
            (crawl_recursive base_url max_depth (S fuel)) url depth).
  unfold crawl_body.
  rewrite after_get_self, outcome_get_self.
  replace (depth >? max_depth) with false by lia.
  rewrite bool_decide_eq_false_2 by done. cbn [orb].
  rewrite after_enter, outcome_enter.
  set (g1 := after (enter url depth) g).
  rewrite after_bind, outcome_bind.
  assert (get_page_links base_url url g1 = (g1, Ret links)) as Hgpl
    by by apply get_page_links_running.
  apply run_eq in Hgpl as [-> ->].
  unfold update_found at 1 2. rewrite after_update, outcome_update.
  fold (update_found links).
  rewrite after_lift, outcome_lift. fold links in Hc. rewrite Hc.
  unfold set_children at 1 2. rewrite after_update, outcome_update.
  fold (set_children url children).
  set (g4 := after (set_children url children) _).
  assert (visited_urls (state g4) = {[url]} ∪ visited_urls (state g)) as Hv4 by done.
  assert (logs g4 = logs g ++ [(url, depth)]) as Hl4 by done.
  assert (driver g4 = true) as Hd4 by done.
  clearbody g4. clear g1.
  rewrite after_bind, outcome_bind.
  set (blog_loop := if Py.contains "blogs" url && (depth <? 3) then _ else _).
  assert (∃ g5, blog_loop g4 = (g5, Ret ())
                ∧ driver g5 = true
                ∧ logs g5 = logs g4 ++ ((λ link, (link, depth + 1)) <$> blog_links)
                ∧ visited_urls (state g5) = list_to_set blog_links ∪ visited_urls (state g4))
    as (g5 & Hblog & Hd5 & Hl5 & Hv5).
  { subst blog_loop blog_links. destruct (Py.contains "blogs" url && (depth <? 3)).
    - destruct (deepening_loop
                  (λ link, is_same_domain base_url link && Py.contains "/blogs/" link)
                  fuel (depth + 1) (iter OverLinks url links) g4)
        as (g5 & Hrun & Hd5 & Hl5 & Hv5); [lia|done|apply NoDup_iter| |].
      { intros link Hin%elem_of_iter. by apply Hleaf. }
      exists g5.
      rewrite (filter_ext_elem _ (λ link,
                 is_same_domain base_url link && Py.contains "/blogs/" link = true
                 ∧ link ∉ visited_urls (state g)) (iter OverLinks url links)) in Hl5, Hv5.
      + done.
      + intros y Hy%elem_of_iter. rewrite Hv4. set_solver.
      + intros y Hy%elem_of_iter. rewrite Hv4. set_solver.
    - exists g4. simpl. rewrite app_nil_r. split_and!; try done. set_solver. }
  apply run_eq in Hblog as [-> ->].
  destruct (deepening_loop (λ _, true) fuel (depth + 1)
              (iter OverChildren url children) g5)
    as (g6 & Hrun & Hd6 & Hl6 & Hv6); [lia|done|apply NoDup_iter| |].
  { intros link Hin%elem_of_iter. by apply Hleaf, Hsub. }
  cbn [andb] in Hrun. apply run_eq in Hrun as [-> ->]. split; [done|].
  rewrite Hl6, Hl5, Hl4, fmap_app, <-!(assoc_L (++)). simpl. do 4 f_equal.
  apply filter_ext_elem. intros y Hy%elem_of_iter. rewrite Hv5, Hv4.
  rewrite !not_elem_of_union, elem_of_list_to_set, not_elem_of_singleton.
  assert (y ≠ url) by (intros ->; by apply Hself, Hsub). tauto.
Qed.

End Deepening.

(** C5 as the specification states it, on the host blogs.x.com: the page
    /a, whose path does not contain "blogs", links to /blogs/p1, which is
    not one of its children; the step for /a at depth 0 recurses into it. *)
Lemma C5_host_counterexample :
  let url := "https://blogs.x.com/a" in
  let link := "https://blogs.x.com/blogs/p1" in
  (Py.contains "blogs" ∘ path <$> urlparse (UrlLib := cpython) url) = Some false
  ∧ is_child_of (url_lib := cpython) url link = Some false
  ∧ logs (after (crawl_recursive (url_lib := cpython) (set_order := elements_order)
                   (browser := blog_host_browser) "https://blogs.x.com" 5 7 url 0)
            started)
    = [(url, 0); (link, 1)].
Proof. by vm_compute. Qed.

(** *** The log of a step *)
Section Step.

Context {url_lib : UrlLib} {set_order : SetOrder} {browser : Browser}.
Variable base_url : string.
Variable max_depth : Z.

Lemma call_entries_app (depth : Z) (b1 b2 : list (string * list (string * Z))) :
  call_entries depth (b1 ++ b2) = call_entries depth b1 ++ call_entries depth b2.
Proof. unfold call_entries. by rewrite fmap_app, concat_app. Qed.

Section Body.

Variable self_crawl : string → Z → M unit.
Hypothesis self_contract : crawl_contract max_depth self_crawl.

(** a loop of guarded recursive calls leaves visited every element that
    passes the static part of the guard, when it returns *)
Lemma loop_visits (static : string → bool) (d : Z) (l : list string) (g : Generator) :
  let loop := for_each l (λ link,
    g0 ← get_self;
    if static link && bool_decide (link ∉ visited_urls (state g0))
    then self_crawl link d
    else mret ()) in
  visited_urls (state g) ⊆ visited_urls (state (after loop g))
  ∧ (d ≤ max_depth → outcome loop g = Ret tt →
     ∀ link, link ∈ l → static link = true → link ∈ visited_urls (state (after loop g))).
Proof.
  revert g. induction l as [|x l IH]; intros g loop.
  - split; [done|]. by intros _ _ link ?%elem_of_nil.
  - subst loop. cbn [for_each]. set (body := get_self ≫= _).
    rewrite after_bind, outcome_bind.
    assert (visited_urls (state g) ⊆ visited_urls (state (after body g))
            ∧ (d ≤ max_depth → outcome body g = Ret tt → static x = true →
               x ∈ visited_urls (state (after body g)))) as [Hmono Hx].
    { unfold body. rewrite after_get_self, outcome_get_self.
      destruct (static x) eqn:Hs; simpl; [|done].
      destruct (decide (x ∈ visited_urls (state g))) as [Hv|Hv].
      - rewrite bool_decide_eq_false_2 by (intros Hn; by apply Hn).
        split; [done|]. by intros _ _ _.
      - rewrite bool_decide_eq_true_2 by done.
        destruct (self_contract x d g) as (? & Hvis & _). split; [done|]. auto. }
    destruct (outcome body g) as [[]| |] eqn:Hbody; [|by split..].
    destruct (IH (after body g)) as [Hmono' Hl]. split; [by etrans|].
    intros Hd Hret link [->|Hin]%elem_of_cons Hs.
    + apply Hmono'. by apply Hx.
    + by apply Hl.
Qed.

(** the step of a URL that passes the guard *)
Lemma deepening_body (url : string) (depth : Z) (g : Generator) :
  depth ≤ max_depth → url ∉ visited_urls (state g) →
  deepening_step base_url max_depth url depth g
    (after (crawl_body base_url max_depth self_crawl url depth) g)
    (outcome (crawl_body base_url max_depth self_crawl url depth) g).
Proof.
  intros Hd Hv.
  set (Q := deepening_step base_url max_depth url depth g).
  unfold crawl_body. rewrite after_get_self, outcome_get_self.
  replace (depth >? max_depth) with false by lia.
  rewrite bool_decide_eq_false_2 by done. cbn [orb].
  rewrite after_enter, outcome_enter.
  set (g1 := after (enter url depth) g).
  (* the invariant of the rest of the step *)
  set (J := λ g' : Generator,
    visited_urls (state g1) ⊆ visited_urls (state g')
    ∧ ∃ blocks,
        logs g' = logs g1 ++ call_entries depth blocks
        ∧ visited_urls (state g')
          ⊆ visited_urls (state g1) ∪ list_to_set (call_entries depth blocks).*1
        ∧ Forall (call_block base_url max_depth url depth) blocks).
  assert (∀ g' r, J g' →
            (r = Ret tt → Py.contains "blogs" url && (depth <? 3) = true →
             depth < max_depth →
             ∀ link, link ∈ page_links base_url url →
                     deepening_target base_url link = true →
                     link ∈ visited_urls (state g')) →
            Q g' r) as Hfinish.
  { intros g' r [Hmono (blocks & Hlogs & Hvis & Hblocks)] Hr. split_and!.
    - etrans; [|done]. simpl. set_solver.
    - apply Hmono. simpl. set_solver.
    - exists blocks. split_and!; [|simpl in Hvis; set_solver|done|done].
      rewrite Hlogs. simpl. by rewrite <-(assoc_L (++)). }
  assert (∀ g' r, J g' → r ≠ Ret tt → Q g' r) as Hstop.
  { intros g' r HJ Hr. by apply Hfinish. }
  assert (∀ g', visited_urls (state g') = visited_urls (state g1) →
                logs g' = logs g1 → J g') as Hsame.
  { intros g' Hs Hl. split; [by rewrite Hs|]. exists []. rewrite Hs, Hl.
    unfold call_entries. simpl. rewrite app_nil_r. split_and!; [done|set_solver|done]. }
  rewrite after_bind, outcome_bind.
  destruct (get_page_links_after base_url url g1) as [dr Hg2]. rewrite Hg2.
  set (g2 := mkGen (state g1) dr (logs g1) (history g1)).
  destruct (get_page_links_outcome base_url url g1) as [-> | ->];
    [|by apply Hstop; [apply Hsame|]].
  set (links := page_links base_url url).
  unfold update_found at 1 2. rewrite after_update, outcome_update.
  fold (update_found links).
  set (g3 := after (update_found links) g2).
  rewrite after_lift, outcome_lift.
  destruct (collect_children url (iter OverLinks url links) ∅) as [children|] eqn:Hc;
    [|by apply Hstop; [apply Hsame|]].
  unfold set_children at 1 2. rewrite after_update, outcome_update.
  fold (set_children url children).
  set (g4 := after (set_children url children) g3).
  assert (J g4) as H4 by by apply Hsame.
  (* a recursive call keeps the invariant *)
  assert (∀ link g', J g' → link ∈ links →
            (Py.contains "blogs" url && (depth <? 3) = true
             ∧ deepening_target base_url link = true)
            ∨ is_child_of url link = Some true →
            J (after (self_crawl link (depth + 1)) g')) as Hcall.
  { intros link g' [Hmono (blocks & Hlogs & Hvis & Hblocks)] Hin Hwhy.
    destruct (self_contract link (depth + 1) g')
      as (Hmono' & _ & es & Hlogs' & Hvis' & Hbound & Hhead).
    split; [by etrans|].
    destruct Hhead as [->|(nested & -> & Hnested)].
    - exists blocks. rewrite Hlogs', app_nil_r. split_and!; [done| |done].
      etrans; [done|]. simpl. set_solver.
    - exists (blocks ++ [(link, nested)]). rewrite call_entries_app.
      assert (call_entries depth [(link, nested)] = (link, depth + 1) :: nested) as ->.
      { unfold call_entries. simpl. by rewrite app_nil_r. }
      split_and!.
      + by rewrite Hlogs', Hlogs, <-(assoc_L (++)).
      + etrans; [done|]. rewrite fmap_app, list_to_set_app_L. set_solver.
      + apply Forall_app. split; [done|]. constructor; [|done].
        apply Forall_cons in Hbound as [[_ Hmax] Hbound]. simpl in Hmax.
        split_and!; [done|done|done|]. simpl.
        rewrite Forall_forall in Hbound, Hnested. apply Forall_forall.
        intros e He. specialize (Hbound e He). specialize (Hnested e He). lia. }
  assert (children ⊆ links ∧ ∀ c, c ∈ children → is_child_of url c = Some true)
    as [Hsub Hchild].
  { assert (∀ acc ch l, collect_children url l acc = Some ch →
              ∀ c, c ∈ ch → c ∈ acc ∨ (c ∈ l ∧ is_child_of url c = Some true)) as Hcc.
    { intros acc ch l. revert acc. induction l as [|x l IH]; intros acc; simpl.
      - intros [= ->] c. by left.
      - destruct (is_child_of url x) as [b|] eqn:Hb; [|done]. simpl.
        intros H c Hin. apply (IH _ H) in Hin as [Hin|[? ?]].
        + destruct b; [|by left].
          apply elem_of_union in Hin as [->%elem_of_singleton|?]; [|by left].
          right. split; [by left|done].
        + right. split; [by right|done]. }
    split.
    - intros c Hin. apply (Hcc _ _ _ Hc) in Hin as [Hin|[Hin _]].
      + by apply not_elem_of_empty in Hin.
      + by apply elem_of_iter in Hin.
    - intros c Hin. apply (Hcc _ _ _ Hc) in Hin as [Hin|[_ ?]]; [|done].
      by apply not_elem_of_empty in Hin. }
  rewrite after_bind, outcome_bind.
  set (blog_loop := if Py.contains "blogs" url && (depth <? 3) then _ else _).
  assert (J (after blog_loop g4)) as H5.
  { unfold blog_loop. destruct (Py.contains "blogs" url && (depth <? 3)) eqn:Hdeep;
      [|done].
    apply (for_each_after J); [|done].
    intros link g' Hin%elem_of_iter Hg'. rewrite after_get_self.
    destruct (is_same_domain base_url link && Py.contains "/blogs/" link) eqn:Ht;
      [|done].
    cbn [andb]. destruct (bool_decide (link ∉ _)); [|done].
    apply Hcall; [done..|]. by left. }
  assert (outcome blog_loop g4 = Ret tt →
          Py.contains "blogs" url && (depth <? 3) = true → depth < max_depth →
          ∀ link, link ∈ links → deepening_target base_url link = true →
                  link ∈ visited_urls (state (after blog_loop g4))) as Hvisit.
  { unfold blog_loop. intros Hret Hdeep Hlt link Hin Ht. revert Hret.
    rewrite Hdeep. intros Hret.
    destruct (loop_visits (deepening_target base_url) (depth + 1)
                (iter OverLinks url links) g4) as [_ Hl].
    apply Hl; [lia|done|by apply elem_of_iter|done]. }
  destruct (outcome blog_loop g4) as [[]| |] eqn:Hblog;
    [|by apply Hstop..].
  set (child_loop := for_each _ _).
  assert (J (after child_loop (after blog_loop g4))) as H6.
  { apply (for_each_after J); [|done].
    intros c g' Hin%elem_of_iter Hg'. rewrite after_get_self.
    destruct (bool_decide (c ∉ _)); [|done].
    apply Hcall; [done|by apply Hsub|]. right. by apply Hchild. }
  destruct (loop_visits (λ _, true) (depth + 1) (iter OverChildren url children)
              (after blog_loop g4)) as [Hmono6 _].
  apply Hfinish; [done|].
  intros _ Hdeep Hlt link Hin Ht. apply Hmono6. by apply Hvisit.
Qed.

End Body.
End Step.

Section Contract.

Context {url_lib : UrlLib} {set_order : SetOrder} {browser : Browser}.
Variable base_url : string.
Variable max_depth : Z.

(** [crawl_recursive] keeps the contract of its recursive calls *)
Lemma crawl_recursive_contract (fuel : nat) :
  crawl_contract max_depth (crawl_recursive base_url max_depth fuel).
Proof.
  induction fuel as [|fuel IH]; intros link d g.
  - split_and!; [done|done|]. exists []. rewrite app_nil_r.
    split_and!; [done|set_solver|done|by left].
  - cbn [crawl_recursive].
    destruct ((d >? max_depth) || bool_decide (link ∈ visited_urls (state g)))
      eqn:Hguard.
    + assert (crawl_body base_url max_depth (crawl_recursive base_url max_depth fuel)
                link d g = (g, Ret tt)) as Hrun.
      { unfold crawl_body, mbind, M_bind, get_self. by rewrite Hguard. }
      apply run_eq in Hrun as [-> Hout]. split_and!; [done| |].
      * intros _ Hd. apply orb_true_iff in Hguard as [?|?%bool_decide_eq_true];
          [lia|done].
      * exists []. rewrite app_nil_r. split_and!; [done|set_solver|done|by left].
    + apply orb_false_iff in Hguard as [Hd Hv%bool_decide_eq_false].
      destruct (deepening_body base_url max_depth _ IH link d g ltac:(lia) Hv)
        as (Hmono & Hin & blocks & Hlogs & Hvis & Hblocks & _).
      split_and!; [done|done|].
      exists ((link, d) :: call_entries d blocks). split_and!; [done| | |].
      * etrans; [done|]. rewrite fmap_cons, list_to_set_cons. set_solver.
      * constructor; [simpl; lia|]. unfold call_entries.
        apply Forall_concat, Forall_fmap, Forall_forall. intros b Hb.
        rewrite Forall_forall in Hblocks. destruct (Hblocks b Hb) as (_ & _ & ? & Hn).
        constructor; [simpl; lia|]. eapply Forall_impl; [done|]. simpl. lia.
      * right. exists (call_entries d blocks). split; [done|]. unfold call_entries.
        apply Forall_concat, Forall_fmap, Forall_forall. intros b Hb.
        rewrite Forall_forall in Hblocks. destruct (Hblocks b Hb) as (_ & _ & ? & Hn).
        constructor; [simpl; lia|]. eapply Forall_impl; [done|]. simpl. lia.
Qed.

End Contract.

(** C5 (amended). A step of [crawl_recursive] that passes its guard logs its
    URL and then, for each recursive call it makes that passes the guard in
    its turn, a block: the entry of the link at [depth + 1], followed by the
    entries of the calls nested in that call, which are deeper. No URL is
    logged twice, and none that was visited before the step. Every call is
    made on an extracted link that is a child of the URL or, only when the
    URL as a whole string contains "blogs" and [depth < 3], on one that is on
    the base domain and contains "/blogs/", whether or not it is a child. In
    that case, when the step returns below the depth bound, every such link
    was visited before the step or is logged in it: at [depth + 1] by a call
    of the step itself unless a nested call reached it first. When the
    pages the links lead to have no links, the log is exactly the URL, the
    blog links not visited before and then the other children not visited
    before, all at [depth + 1]. *)
Theorem C5_blog_deepening (url_lib : UrlLib) (set_order : SetOrder) (browser : Browser)
    (base_url : string) (max_depth : Z) (fuel : nat) (url : string) (depth : Z)
    (g : Generator) :
  depth ≤ max_depth → url ∉ visited_urls (state g) →
  let run := crawl_recursive base_url max_depth (S fuel) url depth in
  let links := page_links base_url url in
  let deepens := Py.contains "blogs" url && (depth <? 3) in
  let target := λ link, is_same_domain base_url link && Py.contains "/blogs/" link in
  (∃ blocks : list (string * list (string * Z)),
     let entries := concat ((λ b, (b.1, depth + 1) :: b.2) <$> blocks) in
     logs (after run g) = logs g ++ (url, depth) :: entries
     ∧ NoDup (url :: entries.*1)
     ∧ Forall (λ u, u ∉ visited_urls (state g)) entries.*1
     ∧ Forall (λ b, b.1 ∈ links
                    ∧ ((deepens = true ∧ target b.1 = true)
                       ∨ is_child_of url b.1 = Some true)
                    ∧ Forall (λ e, depth + 2 ≤ e.2 ≤ max_depth) b.2) blocks
     ∧ (outcome run g = Ret tt → deepens = true → depth < max_depth →
        ∀ link, link ∈ links → target link = true →
                link ∈ visited_urls (state g) ∨ link ∈ entries.*1))
  ∧ (∀ fuel' children,
       fuel = S fuel' → driver g = true → depth < max_depth →
       (∀ link, link ∈ links → page_links base_url link = ∅) →
       collect_children url (iter OverLinks url links) ∅ = Some children →
       let blog_links :=
         if deepens
         then filter (λ link, target link = true ∧ link ∉ visited_urls (state g))
                     (iter OverLinks url links)
         else [] in
       let child_links :=
         filter (λ child, (child ∉ visited_urls (state g)) ∧ (child ∉ blog_links))
                (iter OverChildren url children) in
       outcome run g = Ret tt
       ∧ logs (after run g)
         = logs g ++ (url, depth)
                     :: ((λ link, (link, depth + 1)) <$> (blog_links ++ child_links))).
Proof.
  intros Hd Hv run links deepens target. split.
  - destruct (deepening_body base_url max_depth (crawl_recursive base_url max_depth fuel)
                (crawl_recursive_contract base_url max_depth fuel) url depth g Hd Hv)
      as (_ & _ & blocks & Hlogs & Hvis & Hblocks & Hcomplete).
    change (crawl_body base_url max_depth (crawl_recursive base_url max_depth fuel)
              url depth) with run in Hlogs, Hvis, Hcomplete.
    destruct (crawl_progress base_url max_depth (S fuel) url depth g)
      as [_ (entries & Hlogs' & Hnd & Hnew)]. fold run in Hlogs', Hnew.
    rewrite Hlogs in Hlogs'. apply app_inv_head in Hlogs'. subst entries.
    exists blocks. fold (call_entries depth blocks).
    rewrite fmap_cons in Hnd, Hnew. apply Forall_cons in Hnew as [_ Hnew].
    split_and!; [done|done| | |].
    + eapply Forall_impl; [done|]. by intros u [? _].
    + eapply Forall_impl; [done|]. intros b (? & ? & _ & ?). done.
    + intros Hret Hdeep Hlt link Hin Ht.
      pose proof (Hcomplete Hret Hdeep Hlt link Hin Ht) as Hvisited.
      apply Hvis in Hvisited. rewrite !elem_of_union, elem_of_list_to_set in Hvisited.
      destruct Hvisited as [[?| ->%elem_of_singleton]|?]; [by left| |by right].
      by apply page_links_not_self in Hin.
  - intros fuel' children -> Hdrv Hlt Hleaf Hc blog_links child_links.
    by apply blog_deepening.
Qed.

Lemma C5_blog_deepening_witness :
  ∃ blocks : list (string * list (string * Z)),
    logs (after (crawl_recursive (url_lib := cpython) (set_order := elements_order)
                   (browser := blog_host_browser) "https://blogs.x.com" 5 2
                   "https://blogs.x.com/a" 0) started)
    = logs started
      ++ ("https://blogs.x.com/a", 0) :: concat ((λ b, (b.1, 0 + 1) :: b.2) <$> blocks).
Proof.
  destruct (proj1 (C5_blog_deepening cpython elements_order blog_host_browser
                     "https://blogs.x.com" 5 1 "https://blogs.x.com/a" 0 started
                     ltac:(lia) ltac:(apply not_elem_of_empty)))
    as (blocks & Hlogs & _).
  exists blocks. exact Hlogs.
Defined.

(** ** The hierarchy builder *)
Section Sorting.

Lemma sorted_perm (l1 l2 : list string) : l1 ≡ₚ l2 → sorted l1 = sorted l2.
Proof.
  intros Hp. unfold sorted. apply (Sorted_unique String.le).
  - apply Sorted_merge_sort, _.
  - apply Sorted_merge_sort, _.
  - by rewrite !merge_sort_Permutation.
Qed.

Lemma elem_of_sorted (l : list string) (x : string) : x ∈ sorted l ↔ x ∈ l.
Proof. unfold sorted. by rewrite merge_sort_Permutation. Qed.

Lemma Sorted_sorted (l : list string) : Sorted String.le (sorted l).
Proof. apply Sorted_merge_sort, _. Qed.

Lemma NoDup_sorted (l : list string) : NoDup l → NoDup (sorted l).
Proof. unfold sorted. by rewrite merge_sort_Permutation. Qed.

Lemma sorted_iter {o1 o2 : SetOrder} (site1 site2 : loop_site) (url1 url2 : string)
    (X : gset string) :
  sorted (iter (SetOrder := o1) site1 url1 X) = sorted (iter (SetOrder := o2) site2 url2 X).
Proof. apply sorted_perm. by rewrite !iter_perm. Qed.

End Sorting.

Section Dict.

Lemma dict_get_set_eq (k : string) (v : Value) (d : list (string * Value)) :
  dict_get k (dict_set k v d) = Some v.
Proof.
  induction d as [|[k' v'] d IH]; simpl.
  - by rewrite String.eqb_refl.
  - destruct (String.eqb k' k) eqn:E; simpl; by rewrite E.
Qed.

Lemma dict_get_set_ne (k k' : string) (v : Value) (d : list (string * Value)) :
  k ≠ k' → dict_get k (dict_set k' v d) = dict_get k d.
Proof.
  intros Hne. induction d as [|[k'' v''] d IH]; simpl.
  - by apply not_eq_sym, String.eqb_neq in Hne as ->.
  - destruct (String.eqb_spec k'' k') as [->|Hk]; simpl.
    + by apply not_eq_sym, String.eqb_neq in Hne as ->.
    + by destruct (String.eqb k'' k).
Qed.

End Dict.

Section Builder.

Context {url_lib : UrlLib}.

(** the scan of a candidate list raises exactly when a candidate does not
    parse; otherwise it appends the keys of the descendants *)
Lemma scan_descendants_Some (blogs : bool) (child_url child_path : string)
    (candidates acc r : list string) :
  scan_descendants blogs child_url child_path candidates acc = Some r →
  ∀ k, k ∈ r ↔
       k ∈ acc ∨ ∃ u, u ∈ candidates ∧ descendant_key blogs child_url child_path u k.
Proof.
  revert acc. induction candidates as [|u l IH]; intros acc; simpl.
  - intros [= ->] k. split; [by left|]. intros [?|(u & Hu & _)]; [done|].
    by apply elem_of_nil in Hu.
  - destruct (urlparse u) as [p|] eqn:Hp; [|done]. simpl.
    destruct (Py.startswith (path p) (child_path +:+ "/")) eqn:Hpre; simpl.
    2:{ intros Hr k. rewrite (IH _ Hr). split; intros [?|(u' & Hin & Hd)]; auto.
        - right. exists u'. split; [by right|done].
        - apply elem_of_cons in Hin as [->|Hin]; [|by eauto].
          destruct Hd as (p' & Hp' & Hpre' & _). rewrite Hp in Hp'. injection Hp' as <-.
          apply startswith_spec in Hpre'. congruence. }
    destruct (String.eqb_spec u child_url) as [->|Hne]; simpl.
    { intros Hr k. rewrite (IH _ Hr). split; intros [?|(u' & Hin & Hd)]; auto.
      - right. exists u'. split; [by right|done].
      - apply elem_of_cons in Hin as [->|Hin]; [|by eauto].
        by destruct Hd as (p' & _ & _ & ? & _). }
    destruct (if blogs then Py.contains "/blogs/" (path p) else true) eqn:Hb.
    + intros Hr k. rewrite (IH _ Hr), elem_of_app, list_elem_of_singleton.
      split.
      * intros [[?| ->]|(u' & Hin & Hd)]; [by left| |].
        -- right. exists u. split; [by left|]. exists p. split_and!; try done.
           ++ by apply startswith_spec.
           ++ intros ->. by apply contains_spec.
        -- right. exists u'. split; [by right|done].
      * intros [?|(u' & Hin & Hd)]; [by left; left|].
        apply elem_of_cons in Hin as [->|Hin]; [|by eauto].
        destruct Hd as (p' & Hp' & _ & _ & _ & ->). rewrite Hp in Hp'.
        injection Hp' as <-. by left; right.
    + intros Hr k. rewrite (IH _ Hr). split; intros [?|(u' & Hin & Hd)]; auto.
      * right. exists u'. split; [by right|done].
      * apply elem_of_cons in Hin as [->|Hin]; [|by eauto].
        destruct Hd as (p' & Hp' & _ & _ & Hblog & _). rewrite Hp in Hp'.
        injection Hp' as <-. destruct blogs; [|done].
        specialize (Hblog eq_refl). apply contains_spec in Hblog. congruence.
Qed.

Lemma scan_descendants_is_Some (blogs : bool) (child_url child_path : string)
    (candidates acc : list string) :
  is_Some (scan_descendants blogs child_url child_path candidates acc) ↔
  ∀ u, u ∈ candidates → is_Some (urlparse u).
Proof.
  revert acc. induction candidates as [|u l IH]; intros acc; simpl.
  - split; [|by eauto]. intros _ u Hu. by apply elem_of_nil in Hu.
  - destruct (urlparse u) as [p|] eqn:Hp; simpl.
    + assert ((∀ u0, u0 ∈ u :: l → is_Some (urlparse u0))
              ↔ (∀ u0, u0 ∈ l → is_Some (urlparse u0))) as ->.
      { split; intros H u0 Hu0; [apply H; by right|].
        apply elem_of_cons in Hu0 as [->|?]; [by rewrite Hp|by auto]. }
      destruct (_ && _); apply IH.
    + split; [by intros [? ?]|]. intros H.
      destruct (H u ltac:(left)) as [? ?]. congruence.
Qed.

(** the candidates scanned for the descendants of a leaf *)
Lemma leaf_descendants_Some {set_order : SetOrder} (s : CrawlState)
    (child : string) (parsed : ParseResult) (ds : list string) :
  urlparse child = Some parsed →
  leaf_descendants s child = Some ds →
  let blogs := Py.contains "blogs" (path parsed) in
  let candidates := if blogs then all_found_urls s else visited_urls s in
  Sorted String.le ds ∧ NoDup ds
  ∧ ∀ k, k ∈ ds ↔ ∃ u, u ∈ candidates ∧ descendant_key blogs child (path parsed) u k.
Proof.
  intros Hp. unfold leaf_descendants. rewrite Hp. simpl.
  destruct (Py.contains "blogs" (path parsed)); simpl;
    destruct (scan_descendants _ _ _ _ _) as [r|] eqn:Hs; simpl; try done;
    intros [= <-]; (split_and!;
      [apply Sorted_sorted | apply NoDup_sorted, NoDup_iter |]);
    intros k; rewrite elem_of_sorted, elem_of_iter, elem_of_list_to_set;
    rewrite (scan_descendants_Some _ _ _ _ _ _ Hs k);
    setoid_rewrite elem_of_iter; set_solver.
Qed.

Lemma leaf_descendants_is_Some {set_order : SetOrder} (s : CrawlState)
    (child : string) (parsed : ParseResult) :
  urlparse child = Some parsed →
  is_Some (leaf_descendants s child) ↔
  ∀ u, u ∈ (if Py.contains "blogs" (path parsed)
            then all_found_urls s else visited_urls s) → is_Some (urlparse u).
Proof.
  intros Hp. unfold leaf_descendants. rewrite Hp. simpl.
  destruct (Py.contains "blogs" (path parsed)).
  - pose proof (scan_descendants_is_Some true child (path parsed)
                  (iter OverFound child (all_found_urls s)) []) as H.
    setoid_rewrite elem_of_iter in H. rewrite <-H.
    destruct (scan_descendants _ _ _ _ _); simpl; split; intros [? ?]; by eauto.
  - pose proof (scan_descendants_is_Some false child (path parsed)
                  (iter OverVisited child (visited_urls s)) []) as H.
    setoid_rewrite elem_of_iter in H. rewrite <-H.
    destruct (scan_descendants _ _ _ _ _); simpl; split; intros [? ?]; by eauto.
Qed.

(** the descendants of a leaf do not depend on the iteration order *)
Lemma leaf_descendants_order (o1 o2 : SetOrder) (s : CrawlState) (child : string) :
  leaf_descendants (set_order := o1) s child = leaf_descendants (set_order := o2) s child.
Proof.
  destruct (urlparse child) as [parsed|] eqn:Hp.
  2:{ unfold leaf_descendants. by rewrite Hp. }
  pose proof (leaf_descendants_is_Some (set_order := o1) s child parsed Hp) as H1.
  pose proof (leaf_descendants_is_Some (set_order := o2) s child parsed Hp) as H2.
  destruct (leaf_descendants (set_order := o1) s child) as [ds1|] eqn:E1,
           (leaf_descendants (set_order := o2) s child) as [ds2|] eqn:E2.
  - f_equal.
    destruct (leaf_descendants_Some (set_order := o1) s child parsed ds1 Hp E1)
      as (Hs1 & Hn1 & Hk1).
    destruct (leaf_descendants_Some (set_order := o2) s child parsed ds2 Hp E2)
      as (Hs2 & Hn2 & Hk2).
    apply (Sorted_unique String.le); [done..|].
    apply NoDup_Permutation; [done..|]. intros k. by rewrite Hk1, Hk2.
  - assert (is_Some (None : option (list string))) as [? ?]; [|done].
    apply H2, H1. eauto.
  - assert (is_Some (None : option (list string))) as [? ?]; [|done].
    apply H1, H2. eauto.
  - done.
Qed.

Lemma build_entries_order (o1 o2 : SetOrder) (s : CrawlState)
    (sb1 sb2 : string → result (list (string * Value)))
    (children : list string) (tree : list (string * Value)) :
  (∀ u, sb1 u = sb2 u) →
  build_entries (set_order := o1) s sb1 children tree
  = build_entries (set_order := o2) s sb2 children tree.
Proof.
  intros Hsb. revert tree. induction children as [|c l IH]; intros tree; [done|].
  simpl. destruct (urlparse c) as [p|]; [|done].
  destruct (has_children s c).
  - rewrite Hsb. by destruct (sb2 c).
  - rewrite (leaf_descendants_order o1 o2).
    by destruct (leaf_descendants (set_order := o2) s c).
Qed.

Lemma build_tree_for_url_order (o1 o2 : SetOrder) (s : CrawlState) (fuel : nat)
    (url : string) :
  build_tree_for_url (set_order := o1) s fuel url
  = build_tree_for_url (set_order := o2) s fuel url.
Proof.
  revert url. induction fuel as [|fuel IH]; intros url; [done|].
  simpl. destruct (url_children s !! url) as [cs|]; [|done].
  rewrite (sorted_iter (o1 := o1) (o2 := o2) OverChildren OverChildren url url cs).
  by apply build_entries_order.
Qed.

(** a parent all of whose children are leaves: the builder returns when
    the URLs it parses do parse *)
Lemma build_entries_leaves {set_order : SetOrder} (s : CrawlState)
    (sb : string → result (list (string * Value)))
    (children : list string) (tree : list (string * Value)) :
  (∀ c, c ∈ children → has_children s c = false) →
  (∀ u, u ∈ children ∨ u ∈ all_found_urls s ∨ u ∈ visited_urls s → is_Some (urlparse u)) →
  ∃ tree', build_entries s sb children tree = Ret tree'.
Proof.
  revert tree. induction children as [|c l IH]; intros tree Hleaf Hparse; [by eexists|].
  simpl. destruct (Hparse c) as [p Hp]; [left; by left|]. rewrite Hp.
  rewrite Hleaf by by left.
  destruct (proj2 (leaf_descendants_is_Some s c p Hp)) as [ds ->].
  { intros u Hu. apply Hparse. destruct (Py.contains _ _); auto. }
  apply IH.
  - intros; apply Hleaf; by right.
  - intros u [?|?]; apply Hparse; [left; by right|by right].
Qed.

End Builder.

Lemma has_children_leaf (s : CrawlState) (child : string) :
  url_children s !! child = None ∨ url_children s !! child = Some ∅ →
  has_children s child = false.
Proof.
  unfold has_children. intros [-> | ->]; [done|].
  by apply bool_decide_eq_false_2; intros ?.
Qed.

(** an entry of the tree is kept by later children that are leaves with the
    same list, or have other keys *)
Lemma build_entries_keeps {url_lib : UrlLib} {set_order : SetOrder} (s : CrawlState)
    (sb : string → result (list (string * Value)))
    (children : list string) (tree tree' : list (string * Value))
    (key : string) (ds : list string) :
  (∀ c p, c ∈ children → urlparse c = Some p → key_of p = key →
          has_children s c = false
          ∧ ∀ ds', leaf_descendants s c = Some ds' → ds' = ds) →
  dict_get key tree = Some (List ds) →
  build_entries s sb children tree = Ret tree' →
  dict_get key tree' = Some (List ds).
Proof.
  revert tree. induction children as [|c l IH]; intros tree Hlater Hget; simpl.
  - by intros [= <-].
  - assert (∀ c' p', c' ∈ l → urlparse c' = Some p' → key_of p' = key →
                     has_children s c' = false
                     ∧ ∀ ds', leaf_descendants s c' = Some ds' → ds' = ds) as Hl.
    { intros c' p' ?. apply Hlater. by right. }
    destruct (urlparse c) as [p|] eqn:Hp; [|done].
    destruct (decide (key_of p = key)) as [Hk|Hk].
    + destruct (Hlater c p ltac:(left) Hp Hk) as [-> Hds].
      destruct (leaf_descendants s c) as [ds'|]; [|done].
      rewrite (Hds ds' eq_refl), Hk. apply IH; [done|]. apply dict_get_set_eq.
    + destruct (has_children s c).
      * destruct (sb c) as [sub| |]; [|done..]. apply IH; [done|].
        by rewrite dict_get_set_ne.
      * destruct (leaf_descendants s c) as [ds'|]; [|done]. apply IH; [done|].
        by rewrite dict_get_set_ne.
Qed.

(** the entry of a leaf child: the children before it do not matter *)
Lemma build_entries_leaf_last {url_lib : UrlLib} {set_order : SetOrder} (s : CrawlState)
    (sb : string → result (list (string * Value)))
    (before later : list string) (tree tree' : list (string * Value))
    (child : string) (parsed : ParseResult) :
  urlparse child = Some parsed → has_children s child = false →
  (∀ c p ds, c ∈ later → urlparse c = Some p → key_of p = key_of parsed →
             leaf_descendants s child = Some ds →
             has_children s c = false
             ∧ ∀ ds', leaf_descendants s c = Some ds' → ds' = ds) →
  build_entries s sb (before ++ child :: later) tree = Ret tree' →
  ∃ ds, leaf_descendants s child = Some ds
        ∧ dict_get (key_of parsed) tree' = Some (List ds).
Proof.
  intros Hp Hleaf Hlater. revert tree.
  induction before as [|c l IH]; intros tree; simpl.
  - rewrite Hp, Hleaf. destruct (leaf_descendants s child) as [ds|] eqn:Hds; [|done].
    intros Hrest. exists ds. split; [done|].
    eapply (build_entries_keeps s sb later _ tree' (key_of parsed) ds);
      [|apply dict_get_set_eq|exact Hrest].
    intros c p Hc Hcp Hk. by apply (Hlater c p ds).
  - destruct (urlparse c) as [p|]; [|done]. destruct (has_children s c).
    + destruct (sb c); [|done..]. apply IH.
    + destruct (leaf_descendants s c); [|done]. apply IH.
Qed.

Lemma not_prefix_of_longer (s t : string) : ¬ prefix_of (s +:+ String "/" t) s.
Proof.
  intros [r Hr]. apply (f_equal String.length) in Hr.
  rewrite !sapp_length in Hr. simpl in Hr. lia.
Qed.

(** leaves with the same path have the same descendants *)
Lemma leaf_descendants_same_path {url_lib : UrlLib} {set_order : SetOrder}
    (s : CrawlState) (c c' : string) (p p' : ParseResult) (ds ds' : list string) :
  urlparse c = Some p → urlparse c' = Some p' → path p' = path p →
  leaf_descendants s c = Some ds → leaf_descendants s c' = Some ds' → ds' = ds.
Proof.
  intros Hp Hp' Hpath Hds Hds'.
  destruct (leaf_descendants_Some s c p ds Hp Hds) as (Hs & Hn & Hk).
  destruct (leaf_descendants_Some s c' p' ds' Hp' Hds') as (Hs' & Hn' & Hk').
  apply (Sorted_unique String.le); [done..|].
  apply NoDup_Permutation; [done..|]. intros k. rewrite Hk, Hk', Hpath.
  assert (∀ u, descendant_key (Py.contains "blogs" (path p)) c' (path p) u k
               ↔ descendant_key (Py.contains "blogs" (path p)) c (path p) u k) as Heq.
  { intros u. unfold descendant_key.
    split; intros (q & Hq & Hpre & _ & Hb & ->); exists q; split_and!; try done.
    - intros ->. rewrite Hp in Hq. injection Hq as <-.
      by apply (not_prefix_of_longer (path p) "") in Hpre.
    - intros ->. rewrite Hp' in Hq. injection Hq as <-. rewrite Hpath in Hpre.
      by apply (not_prefix_of_longer (path p) "") in Hpre. }
  by setoid_rewrite Heq.
Qed.

(** C3 as the specification states it. First, on a leaf section /myblogs
    with a found post /myblogs/p1: the section's path contains "blogs", the
    post is a found link whose path starts with "/myblogs/" and it differs
    from the section, but the section's list is empty. Second, on a leaf
    /a with the visited page /a/b below it, and a sibling /a?v=1 that has a
    child: the sibling has the key of the leaf and is processed after it, and
    the entry under that key is the sibling's subtree, not the list of the
    leaf. *)
Lemma C3_leaf_entry_counterexample :
  (let child := "https://x.com/myblogs" in
   let post := "https://x.com/myblogs/p1" in
   build_tree_for_url (url_lib := cpython) (set_order := elements_order)
     myblogs_state 2 "https://x.com" = Ret [("x.com/myblogs", List [])]
   ∧ url_children myblogs_state !! child = Some ∅
   ∧ post ∈ all_found_urls myblogs_state
   ∧ (path <$> urlparse (UrlLib := cpython) child) = Some "/myblogs"
   ∧ Py.contains "blogs" "/myblogs" = true
   ∧ (path <$> urlparse (UrlLib := cpython) post) = Some "/myblogs/p1"
   ∧ Py.startswith "/myblogs/p1" ("/myblogs" +:+ "/") = true
   ∧ post ≠ child)
  ∧ (let child := "https://x.com/a" in
     let sibling := "https://x.com/a?v=1" in
     let page := "https://x.com/a/b" in
     build_tree_for_url (url_lib := cpython) (set_order := elements_order)
       shared_key_state 3 "https://x.com"
     = Ret [("x.com/a", Dict [("x.com/a/b", List [])])]
     ∧ url_children shared_key_state !! "https://x.com" = Some {[child; sibling]}
     ∧ url_children shared_key_state !! child = Some ∅
     ∧ leaf_descendants (url_lib := cpython) (set_order := elements_order)
         shared_key_state child = Some ["x.com/a/b"]
     ∧ page ∈ visited_urls shared_key_state
     ∧ (key_of <$> urlparse (UrlLib := cpython) child) = Some "x.com/a"
     ∧ (key_of <$> urlparse (UrlLib := cpython) sibling) = Some "x.com/a"
     ∧ (path <$> urlparse (UrlLib := cpython) page) = Some "/a/b"
     ∧ Py.contains "blogs" "/a" = false
     ∧ Py.startswith "/a/b" ("/a" +:+ "/") = true
     ∧ String.le child sibling).
Proof.
  split; split_and!; by vm_compute.
Qed.

(** C3 (amended). For a leaf child of [url], unless a child of [url] that
    comes after it in the sorted order of the URLs has its key and has
    children or another path, the tree that [build_tree_for_url] returns
    maps the child's key to a list that is sorted, without duplicates, and
    holds exactly the keys of the candidates whose path starts with the
    child's path followed by '/', that differ from the child and, when the
    child's path contains "blogs", whose path contains "/blogs/"; the
    candidates are [all_found_urls] when the child's path contains "blogs",
    [visited_urls] otherwise. When all children of [url] are leaves and the
    URLs of the crawl state parse, the builder returns. In the example of the
    specification the entry of /docs/guide is the list of /docs/guide/setup. *)
Theorem C3_leaf_descendants :
  (∀ (url_lib : UrlLib) (set_order : SetOrder) (s : CrawlState) (fuel : nat)
     (url : string) (cs : gset string) (child : string) (parsed : ParseResult),
     url_children s !! url = Some cs → child ∈ cs →
     url_children s !! child = None ∨ url_children s !! child = Some ∅ →
     urlparse child = Some parsed →
     (∀ sibling p, sibling ∈ cs → String.le child sibling →
                   urlparse sibling = Some p → key_of p = key_of parsed →
                   (url_children s !! sibling = None ∨ url_children s !! sibling = Some ∅)
                   ∧ path p = path parsed) →
     let blogs := Py.contains "blogs" (path parsed) in
     let candidates := if blogs then all_found_urls s else visited_urls s in
     (∀ tree,
        build_tree_for_url s (S fuel) url = Ret tree →
        ∃ ds, dict_get (key_of parsed) tree = Some (List ds)
              ∧ Sorted String.le ds ∧ NoDup ds
              ∧ ∀ k, k ∈ ds ↔
                     ∃ u, u ∈ candidates
                          ∧ descendant_key blogs child (path parsed) u k)
     ∧ ((∀ c, c ∈ cs → has_children s c = false) →
        (∀ u, u ∈ cs ∨ u ∈ all_found_urls s ∨ u ∈ visited_urls s →
              is_Some (urlparse u)) →
        ∃ tree, build_tree_for_url s (S fuel) url = Ret tree))
  ∧ (∀ (chk : string → bool) (set_order : SetOrder),
       build_tree_for_url (url_lib := CPython.lib chk) docs_state 1 "https://x.com/docs"
       = Ret [("x.com/docs/guide", List ["x.com/docs/guide/setup"])]).
Proof.
  split.
  - intros url_lib set_order s fuel url cs child parsed Hcs Hin Hleaf Hp Hlater
      blogs candidates.
    apply has_children_leaf in Hleaf. split.
    + intros tree. cbn [build_tree_for_url]. rewrite Hcs.
      assert (child ∈ sorted (iter OverChildren url cs)) as Hin'.
      { by rewrite elem_of_sorted, elem_of_iter. }
      destruct (list_elem_of_split _ _ Hin') as (before & later & Hsplit).
      pose proof (Sorted_sorted (iter OverChildren url cs)) as Hsorted.
      apply (Sorted_StronglySorted _) in Hsorted.
      rewrite Hsplit in Hsorted.
      apply StronglySorted_app_1_r, StronglySorted_inv in Hsorted as [_ Hle].
      rewrite Forall_forall in Hle.
      rewrite Hsplit. intros Hbuild.
      destruct (build_entries_leaf_last s (build_tree_for_url s fuel)
                  before later [] tree child parsed Hp Hleaf) as (ds & Hds & Hget);
        [|done|].
      { intros c p ds Hc Hcp Hk Hds.
        assert (c ∈ cs) as Hccs.
        { apply elem_of_iter with OverChildren url, elem_of_sorted.
          rewrite Hsplit, elem_of_app. right. by right. }
        destruct (Hlater c p Hccs (Hle c Hc) Hcp Hk) as [Hcleaf Hpath].
        split; [by apply has_children_leaf|].
        intros ds' Hds'.
        by apply (leaf_descendants_same_path s child c parsed p ds ds'). }
      exists ds. split; [done|].
      by apply (leaf_descendants_Some s child parsed ds Hp Hds).
    + intros Hleaves Hparse. cbn [build_tree_for_url]. rewrite Hcs.
      apply build_entries_leaves.
      * intros c Hc%elem_of_sorted%elem_of_iter. by apply Hleaves.
      * intros u [Hu%elem_of_sorted%elem_of_iter|Hu]; apply Hparse; auto.
  - intros chk set_order.
    rewrite (build_tree_for_url_order set_order elements_order). by vm_compute.
Qed.

Lemma C3_leaf_descendants_witness :
  ∃ tree,
    build_tree_for_url (url_lib := cpython) (set_order := elements_order)
      docs_state 1 "https://x.com/docs" = Ret tree.
Proof.
  refine (proj2 (proj1 C3_leaf_descendants cpython elements_order docs_state 0%nat
                   "https://x.com/docs" {["https://x.com/docs/guide"]}
                   "https://x.com/docs/guide"
                   (mkParseResult "https" "x.com" "/docs/guide" "" "" "")
                   _ _ _ _ _) _ _).
  - vm_compute. reflexivity.
  - apply elem_of_singleton. reflexivity.
  - right. vm_compute. reflexivity.
  - vm_compute. reflexivity.
  - intros sibling p ->%elem_of_singleton _ Hp _. split.
    + right. vm_compute. reflexivity.
    + vm_compute in Hp. injection Hp as <-. reflexivity.
  - intros c ->%elem_of_singleton. vm_compute. reflexivity.
  - intros u Hu.
    assert (u = "https://x.com/docs" ∨ u = "https://x.com/docs/guide"
            ∨ u = "https://x.com/docs/guide/setup") as [-> | [-> | ->]].
    { destruct Hu as [Hu%elem_of_singleton|[Hu|Hu]]; [by auto| |].
      - by apply not_elem_of_empty in Hu.
      - unfold docs_state in Hu. simpl in Hu.
        apply elem_of_union in Hu as [Hu|Hu%elem_of_singleton]; [|by auto].
        apply elem_of_union in Hu as [Hu%elem_of_singleton|Hu%elem_of_singleton];
          by auto. }
    all: vm_compute; eexists; reflexivity.
Defined.

(** * Further properties *)

(** ** [get_url_depth] and [is_child_of] *)
Section Depth.

Context {url_lib : UrlLib}.

Lemma split_nonempty (c : ascii) (s : string) : Py.split c s ≠ [].
Proof.
  destruct s as [|x s]; [done|]. simpl.
  destruct (Ascii.eqb x c); [done|]. by destruct (Py.split c s).
Qed.

Lemma split_cons_length (c x : ascii) (s : string) :
  length (Py.split c (String x s))
  = if Ascii.eqb x c then S (length (Py.split c s)) else length (Py.split c s).
Proof.
  simpl. destruct (Ascii.eqb x c); [done|].
  pose proof (split_nonempty c s). by destruct (Py.split c s).
Qed.

Lemma split_length_pos (c : ascii) (s : string) : (0 < length (Py.split c s))%nat.
Proof.
  induction s as [|x s IH]; [simpl; lia|].
  rewrite split_cons_length. destruct (Ascii.eqb x c); lia.
Qed.

Lemma split_app_length (c : ascii) (a r : string) :
  length (Py.split c (a +:+ String c r))
  = (length (Py.split c a) + length (Py.split c r))%nat.
Proof.
  induction a as [|x a IH].
  - rewrite sapp_nil, split_cons_length, Ascii.eqb_refl. simpl. lia.
  - rewrite sapp_cons, !split_cons_length, IH. destruct (Ascii.eqb x c); lia.
Qed.

Lemma split_no_separator (c : ascii) (s : string) :
  Py.contains (String c "") s = false → length (Py.split c s) = 1%nat.
Proof.
  induction s as [|x s IH]; [done|].
  intros H. rewrite split_cons_length.
  change (Py.contains (String c "") (String x s))
    with (Ascii.eqb c x && true || Py.contains (String c "") s) in H.
  apply orb_false_iff in H as [Hx Hs]. rewrite andb_true_r in Hx.
  rewrite Ascii.eqb_sym, Hx. by apply IH.
Qed.

Lemma lstrip_app (f : ascii → bool) (s t : string) :
  Py.lstrip f s ≠ "" → Py.lstrip f (s +:+ t) = Py.lstrip f s +:+ t.
Proof.
  induction s as [|x s IH]; [done|]. rewrite sapp_cons. simpl.
  destruct (f x); [done|]. by rewrite sapp_cons.
Qed.

Lemma lstrip_empty (f : ascii → bool) (s : string) :
  Py.lstrip f s = "" → Py.forallb f s = true.
Proof.
  induction s as [|x s IH]; [done|]. simpl. destruct (f x); [done|]. done.
Qed.

Lemma forallb_snoc (f : ascii → bool) (u : string) (a : ascii) :
  Py.forallb f (u +:+ String a "") = true → f a = true.
Proof.
  induction u as [|x u IH].
  - rewrite sapp_nil. simpl. by intros [? _]%andb_true_iff.
  - rewrite sapp_cons. simpl. intros [_ ?]%andb_true_iff. by apply IH.
Qed.

Lemma string_snoc (s : string) : s ≠ "" → ∃ u a, s = u +:+ String a "".
Proof.
  induction s as [|x s IH]; [done|]. intros _. destruct s as [|y s].
  - by exists "", x.
  - destruct IH as (u & a & Hs); [done|]. exists (String x u), a.
    by rewrite sapp_cons, <-Hs.
Qed.

(** a stripped path that is not empty has a character that is not a slash:
    stripping it on the left leaves something *)
Lemma lstrip_rstrip_nonempty (f : ascii → bool) (s : string) :
  Py.rstrip f s ≠ "" → Py.lstrip f (Py.rstrip f s) ≠ "".
Proof.
  intros Hne Hl. destruct (rstrip_spec f s) as (t & _ & _ & Hlast).
  destruct (string_snoc _ Hne) as (u & a & Hu).
  apply lstrip_empty in Hl. rewrite Hu in Hl. apply forallb_snoc in Hl.
  by rewrite (Hlast u a Hu) in Hl.
Qed.

Lemma get_url_depth_parsed (url : string) (p : ParseResult) :
  urlparse url = Some p →
  get_url_depth url =
  Some (if String.eqb (strip is_slash (path p)) "" then 0
        else Z.of_nat (length (Py.split "/" (strip is_slash (path p))))).
Proof.
  intros Hp. unfold get_url_depth. rewrite Hp. simpl.
  by destruct (String.eqb _ _).
Qed.

Lemma is_child_of_true (parent child : string) :
  is_child_of parent child = Some true →
  ∃ pp cp, urlparse parent = Some pp ∧ urlparse child = Some cp
           ∧ netloc pp = netloc cp.
Proof.
  unfold is_child_of. destruct (urlparse parent) as [pp|]; [|done].
  destruct (urlparse child) as [cp|]; [|done]. simpl.
  destruct (String.eqb_spec (netloc pp) (netloc cp)); [|done].
  intros _. by exists pp, cp.
Qed.

Lemma depth_of_child (parent child : string) :
  is_child_of parent child = Some true →
  ∃ pp dp dc,
    urlparse parent = Some pp
    ∧ get_url_depth parent = Some dp ∧ get_url_depth child = Some dc
    ∧ 0 ≤ dp < dc
    ∧ (Py.rstrip is_slash (path pp) ≠ "" →
       Py.contains "blog" (Py.rstrip is_slash (path pp)) = false →
       dc = dp + 1).
Proof.
  intros Hchild.
  destruct (is_child_of_true _ _ Hchild) as (pp & cp & Hp & Hc & Hn).
  exists pp. rewrite (get_url_depth_parsed _ _ Hp), (get_url_depth_parsed _ _ Hc).
  unfold strip.
  set (P := Py.rstrip is_slash (path pp)) in *.
  set (C := Py.rstrip is_slash (path cp)) in *.
  destruct (decide (P = "")) as [HP|HP].
  - destruct (proj1 (is_child_of_root _ _ _ _ Hp Hc Hn HP) Hchild) as [HC _].
    fold C in HC.
    rewrite HP. simpl.
    apply lstrip_rstrip_nonempty, String.eqb_neq in HC. fold C in HC. rewrite HC.
    pose proof (split_length_pos "/" (Py.lstrip is_slash C)).
    exists 0, (Z.of_nat (length (Py.split "/" (Py.lstrip is_slash C)))).
    split_and!; [done|done|done|lia|lia|done].
  - destruct (proj1 (is_child_of_section _ _ _ _ Hp Hc Hn HP) Hchild)
      as (rest & HC & Hrest).
    fold P C in HC, Hrest.
    pose proof (lstrip_rstrip_nonempty is_slash (path pp) HP) as HlP. fold P in HlP.
    assert (Py.lstrip is_slash C = Py.lstrip is_slash P +:+ String "/" rest) as HlC.
    { rewrite HC. by apply lstrip_app. }
    assert (Py.lstrip is_slash C ≠ "") as HlC'.
    { rewrite HlC. intros [? _]%sapp_eq_nil. done. }
    apply String.eqb_neq in HlP, HlC'. rewrite HlP, HlC', HlC, split_app_length.
    pose proof (split_length_pos "/" (Py.lstrip is_slash P)).
    pose proof (split_length_pos "/" rest).
    eexists _, _. split_and!; [done|done|done|lia|lia|].
    intros _ Hblog. destruct Hrest as [Hb|Hs].
    + apply contains_spec in Hb. congruence.
    + rewrite (split_no_separator "/" rest); [lia|].
      apply not_true_is_false. by rewrite contains_spec.
Qed.

Lemma is_child_of_weight (parent child : string) :
  is_child_of parent child = Some true →
  (path_weight parent < path_weight child)%nat.
Proof.
  intros Hchild.
  destruct (is_child_of_true _ _ Hchild) as (pp & cp & Hp & Hc & Hn).
  unfold path_weight. rewrite Hp, Hc.
  destruct (decide (Py.rstrip is_slash (path pp) = "")) as [HP|HP].
  - destruct (proj1 (is_child_of_root _ _ _ _ Hp Hc Hn HP) Hchild) as [HC _].
    rewrite HP. destruct (Py.rstrip is_slash (path cp)); [done|]. simpl. lia.
  - destruct (proj1 (is_child_of_section _ _ _ _ Hp Hc Hn HP) Hchild)
      as (rest & -> & _).
    rewrite !sapp_length. simpl. lia.
Qed.

End Depth.

(** X1. A child, as [is_child_of] sees it, is strictly deeper than its
    parent for [get_url_depth]; for a parent that is not the root and whose
    path does not contain "blog", exactly one level deeper. *)
Theorem X1_child_is_deeper (url_lib : UrlLib) (parent child : string) :
  is_child_of parent child = Some true →
  ∃ pp dp dc,
    urlparse parent = Some pp
    ∧ get_url_depth parent = Some dp ∧ get_url_depth child = Some dc
    ∧ 0 ≤ dp < dc
    ∧ (Py.rstrip is_slash (path pp) ≠ "" →
       Py.contains "blog" (Py.rstrip is_slash (path pp)) = false →
       dc = dp + 1).
Proof. apply depth_of_child. Qed.

Lemma X1_child_is_deeper_witness :
  ∃ pp dp dc,
    urlparse (UrlLib := cpython) "https://x.com/docs/" = Some pp
    ∧ get_url_depth (url_lib := cpython) "https://x.com/docs/" = Some dp
    ∧ get_url_depth (url_lib := cpython) "https://x.com/docs/guide" = Some dc
    ∧ 0 ≤ dp < dc
    ∧ (Py.rstrip is_slash (path pp) ≠ "" →
       Py.contains "blog" (Py.rstrip is_slash (path pp)) = false →
       dc = dp + 1).
Proof.
  apply (X1_child_is_deeper cpython "https://x.com/docs/" "https://x.com/docs/guide").
  vm_compute. reflexivity.
Defined.

(** X2. [is_child_of] never answers true for a URL and itself, nor in both
    directions for a pair, nor across network locations: a true answer means
    equal network locations and a strictly longer stripped path. *)
Theorem X2_is_child_of_strict (url_lib : UrlLib) (parent child : string) :
  is_child_of parent child = Some true →
  (∃ pp cp, urlparse parent = Some pp ∧ urlparse child = Some cp
            ∧ netloc pp = netloc cp
            ∧ (String.length (Py.rstrip is_slash (path pp))
               < String.length (Py.rstrip is_slash (path cp)))%nat)
  ∧ parent ≠ child
  ∧ is_child_of child parent ≠ Some true.
Proof.
  intros Hchild. pose proof (is_child_of_weight _ _ Hchild) as Hw.
  destruct (is_child_of_true _ _ Hchild) as (pp & cp & Hp & Hc & Hn).
  split_and!.
  - exists pp, cp. unfold path_weight in Hw. by rewrite Hp, Hc in Hw.
  - intros ->. lia.
  - intros Hw'%is_child_of_weight. lia.
Qed.

Lemma X2_is_child_of_strict_witness :
  "https://x.com/blogs" ≠ "https://x.com/blogs/2024/p"
  ∧ is_child_of (url_lib := cpython) "https://x.com/blogs/2024/p" "https://x.com/blogs"
    ≠ Some true.
Proof.
  refine (proj2 (X2_is_child_of_strict cpython
                   "https://x.com/blogs" "https://x.com/blogs/2024/p" _)).
  vm_compute. reflexivity.
Defined.

(** ** The crawl: a second proof rule, and what it gives *)
Section CrawlMore.

Context {url_lib : UrlLib} {set_order : SetOrder} {browser : Browser}.
Variable base_url : string.
Variable max_depth : Z.

Lemma collect_children_spec (url : string) (links : list string)
    (acc children : gset string) :
  collect_children url links acc = Some children →
  ∀ child, child ∈ children ↔
           child ∈ acc ∨ (child ∈ links ∧ is_child_of url child = Some true).
Proof.
  revert acc. induction links as [|link links IH]; intros acc; simpl.
  - intros [= ->] child. split; [by left|]. intros [?|[H _]]; [done|].
    by apply elem_of_nil in H.
  - destruct (is_child_of url link) as [b|] eqn:Hb; [|done]. simpl.
    intros H child. rewrite (IH _ H child), elem_of_cons. destruct b.
    + rewrite elem_of_union, elem_of_singleton. split.
      * intros [[->|?]|[? ?]]; [right|left|right]; auto.
      * intros [?|[[->|?] ?]]; [left; right|left; left|right]; auto.
    + split.
      * intros [?|[? ?]]; [left|right]; auto.
      * intros [?|[[->|?] ?]]; [left|congruence|right]; auto.
Qed.

Section StrongRule.

(** As [crawl_rule], with what the crawl knows when it takes each step: the
    depth is within the bound when a URL is entered, and the children that
    are recorded are those collected from the links of the page. *)
Variable Pre : string → Z → Generator → Prop.
Variable Rel : Generator → Generator → Prop.

Hypothesis Rel_refl : ∀ g, Rel g g.
Hypothesis Rel_trans : ∀ g1 g2 g3, Rel g1 g2 → Rel g2 g3 → Rel g1 g3.
Hypothesis Rel_driver : ∀ g d, Rel g (mkGen (state g) d (logs g) (history g)).
Hypothesis Pre_mono : ∀ url depth g g', Pre url depth g → Rel g g' → Pre url depth g'.
Hypothesis Rel_enter : ∀ url depth g,
  Pre url depth g → url ∉ visited_urls (state g) → depth ≤ max_depth →
  Rel g (after (enter url depth) g).
Hypothesis Rel_found : ∀ url g,
  url ∈ visited_urls (state g) →
  Rel g (after (update_found (page_links base_url url)) g).
Hypothesis Pre_found : ∀ url depth links g link,
  Pre url depth g → depth ≤ max_depth → link ∈ links →
  Pre link (depth + 1) (after (update_found links) g).
Hypothesis Rel_children : ∀ url children g,
  url ∈ visited_urls (state g) →
  page_links base_url url ⊆ all_found_urls (state g) →
  collect_children url (iter OverLinks url (page_links base_url url)) ∅ = Some children →
  Rel g (after (set_children url children) g).

Lemma crawl_rule_strong (fuel : nat) (url : string) (depth : Z) (g : Generator) :
  Pre url depth g →
  Rel g (after (crawl_recursive base_url max_depth fuel url depth) g).
Proof.
  revert url depth g. induction fuel as [|fuel IH]; intros url depth g HPre; [done|].
  cbn [crawl_recursive]. unfold crawl_body. rewrite after_get_self.
  destruct (_ || _) eqn:Hguard; [done|].
  apply orb_false_iff in Hguard as [Hdepth Hv%bool_decide_eq_false].
  assert (depth ≤ max_depth) as Hd by lia. clear Hdepth.
  rewrite after_enter.
  set (g1 := after (enter url depth) g).
  assert (Rel g g1) as H1 by by apply Rel_enter.
  assert (url ∈ visited_urls (state g1)) as Hv1 by (simpl; set_solver).
  rewrite after_bind.
  destruct (get_page_links_after base_url url g1) as [d Hg2]. rewrite Hg2.
  set (g2 := mkGen (state g1) d (logs g1) (history g1)).
  assert (Rel g g2) as H2 by (eapply Rel_trans; [done|apply Rel_driver]).
  destruct (get_page_links_outcome base_url url g1) as [-> | ->]; [|done].
  set (links := page_links base_url url).
  unfold update_found at 1. rewrite after_update. fold (update_found links).
  set (g3 := after (update_found links) g2).
  assert (Rel g g3) as H3 by (eapply Rel_trans; [done|by apply Rel_found]).
  rewrite after_lift.
  destruct (collect_children url (iter OverLinks url links) ∅) as [children|] eqn:Hc;
    [|done].
  unfold set_children at 1. rewrite after_update. fold (set_children url children).
  set (g4 := after (set_children url children) g3).
  assert (Rel g3 g4) as H34.
  { apply Rel_children; [done| |done]. simpl. set_solver. }
  assert (∀ link g', link ∈ links → Rel g3 g' → Rel g' (after
            (crawl_recursive base_url max_depth fuel link (depth + 1)) g')) as Hrec.
  { intros link g' Hin Hrel. apply IH. eapply Pre_mono; [|done].
    apply (Pre_found url depth); [|done..]. by eapply Pre_mono. }
  assert (children ⊆ links) as Hsub.
  { intros x Hx. apply (collect_children_spec _ _ _ _ Hc) in Hx as [Hx|[Hx _]].
    - by apply not_elem_of_empty in Hx.
    - by apply elem_of_iter in Hx. }
  apply (Rel_trans _ g3); [done|].
  rewrite after_bind.
  set (blog_loop := if Py.contains "blogs" url && (depth <? 3) then _ else _).
  assert (Rel g3 (after blog_loop g4)) as H5.
  { unfold blog_loop. destruct (_ && _); [|done].
    apply (for_each_after (Rel g3)); [|done].
    intros link g' Hin%elem_of_iter Hg'. rewrite after_get_self.
    destruct (_ && _); [|done].
    eapply Rel_trans; [done|]. by apply Hrec. }
  destruct (outcome blog_loop g4); [|done..].
  apply (for_each_after (Rel g3)); [|done].
  intros child g' Hin%elem_of_iter Hg'. rewrite after_get_self.
  destruct (bool_decide _); [|done].
  eapply Rel_trans; [done|]. apply Hrec; [by apply Hsub|done].
Qed.

End StrongRule.

Section SiteRule.

Variable Rel : Generator → Generator → Prop.

Hypothesis Rel_refl : ∀ g, Rel g g.
Hypothesis Rel_trans : ∀ g1 g2 g3, Rel g1 g2 → Rel g2 g3 → Rel g1 g3.
Hypothesis Rel_driver : ∀ g d, Rel g (mkGen (state g) d (logs g) (history g)).
Hypothesis Rel_found : ∀ links g, Rel g (after (update_found links) g).
Hypothesis Rel_crawl : ∀ fuel url g,
  Rel g (after (crawl_recursive base_url max_depth fuel url 0) g).

(** [crawl_site] keeps what its two traversals keep *)
Lemma crawl_site_rule (fuel : nat) (g : Generator) :
  Rel g (after (crawl_site base_url max_depth fuel) g).
Proof.
  unfold crawl_site. rewrite after_get_self, after_bind.
  set (g1 := after (if driver g then mret () else setup_driver) g).
  assert (Rel g g1) as H1.
  { unfold g1, setup_driver, after. destruct (driver g); [done|].
    destruct chrome_starts; [apply Rel_driver|done]. }
  destruct (outcome _ g); [|done..].
  rewrite after_lift. destruct (urlparse base_url) as [parsed|]; [|done].
  unfold update_found at 1. rewrite after_update.
  fold (update_found (discover_sitemap_urls base_url)).
  set (g2 := after (update_found _) g1).
  assert (Rel g g2) as H2 by (eapply Rel_trans; [done|apply Rel_found]).
  rewrite after_bind.
  set (g3 := after (crawl_recursive base_url max_depth fuel (root_of parsed) 0) g2).
  assert (Rel g g3) as H3.
  { eapply Rel_trans; [done|]. apply Rel_crawl. }
  destruct (outcome _ g2); [|done..].
  destruct (negb _); [|done].
  eapply Rel_trans; [done|]. apply Rel_crawl.
Qed.

End SiteRule.

Lemma keeps_children_update (f : CrawlState → CrawlState) (g : Generator) :
  all_found_urls (state g) ⊆ all_found_urls (f (state g)) →
  (children_exact base_url (state g) → children_exact base_url (f (state g))) →
  keeps_children base_url g (after (update f) g).
Proof. by intros ? ?. Qed.

Lemma crawl_keeps_children (fuel : nat) (url : string) (depth : Z) (g : Generator) :
  keeps_children base_url g (after (crawl_recursive base_url max_depth fuel url depth) g).
Proof.
  apply (crawl_rule_strong (λ _ _ _, True) (keeps_children base_url)); try done.
  - intros g1 g2 g3 [? ?] [? ?]. split; [by etrans|auto].
  - intros u g0 _. apply keeps_children_update.
    + simpl. set_solver.
    + intros H u' cs Hcs. destruct (H u' cs Hcs) as [Hf Hx]. split; [|done].
      simpl. set_solver.
  - intros u children g0 Hu Hlinks Hc. apply keeps_children_update; [done|].
    intros H u' cs. simpl. rewrite lookup_insert. case_decide as Hu'.
    + intros [= <-]. subst u'. split.
      * intros c Hin. apply (collect_children_spec _ _ _ _ Hc) in Hin as [Hin|[Hin _]].
        { by apply not_elem_of_empty in Hin. }
        apply elem_of_iter in Hin. by apply Hlinks.
      * intros c. rewrite (collect_children_spec _ _ _ _ Hc c), elem_of_iter.
        split; [intros [Hin|?]; [by apply not_elem_of_empty in Hin|done]|by right].
    + apply H.
Qed.

Lemma logs_within_trans (d0 : Z) (g1 g2 g3 : Generator) :
  logs_within d0 max_depth g1 g2 → logs_within d0 max_depth g2 g3 →
  logs_within d0 max_depth g1 g3.
Proof.
  intros (e1 & H1 & Hf1) (e2 & H2 & Hf2). exists (e1 ++ e2). split.
  - by rewrite H2, H1, (assoc_L (++)).
  - by apply Forall_app.
Qed.

Lemma logs_within_same (d0 : Z) (g g' : Generator) :
  logs g' = logs g → logs_within d0 max_depth g g'.
Proof. intros H. exists []. by rewrite app_nil_r. Qed.

Lemma crawl_logs_within (d0 : Z) (fuel : nat) (url : string) (depth : Z)
    (g : Generator) :
  d0 ≤ depth →
  logs_within d0 max_depth g (after (crawl_recursive base_url max_depth fuel url depth) g).
Proof.
  apply (crawl_rule_strong (λ _ d _, d0 ≤ d) (logs_within d0 max_depth)).
  - intros g0. by apply logs_within_same.
  - apply logs_within_trans.
  - intros g0 d. by apply logs_within_same.
  - done.
  - intros u d g0 Hd _ Hmax. exists [(u, d)]. split; [done|].
    by repeat constructor.
  - intros u g0 _. by apply logs_within_same.
  - intros u d links g0 link Hd _ _. lia.
  - intros u children g0 _ _ _. by apply logs_within_same.
Qed.

Lemma crawl_site_keeps_children (fuel : nat) (g : Generator) :
  keeps_children base_url g (after (crawl_site base_url max_depth fuel) g).
Proof.
  apply (crawl_site_rule (keeps_children base_url)); try done.
  - intros g1 g2 g3 [? ?] [? ?]. split; [by etrans|auto].
  - intros links g0. apply keeps_children_update.
    + simpl. set_solver.
    + intros H u' cs Hcs. destruct (H u' cs Hcs) as [Hf Hx]. split; [|done].
      simpl. set_solver.
  - intros. apply crawl_keeps_children.
Qed.

Lemma crawl_site_logs_within (fuel : nat) (g : Generator) :
  logs_within 0 max_depth g (after (crawl_site base_url max_depth fuel) g).
Proof.
  apply (crawl_site_rule (logs_within 0 max_depth)).
  - intros g0. by apply logs_within_same.
  - apply logs_within_trans.
  - intros g0 d. by apply logs_within_same.
  - intros links g0. by apply logs_within_same.
  - intros. by apply crawl_logs_within.
Qed.

End CrawlMore.

(** X3. In the state [crawl_site] leaves from a new generator, the children
    recorded for a URL are exactly the links of its page that [is_child_of]
    accepts; they are all found links, and the URL is not among them. *)
Theorem X3_children_recorded (url_lib : UrlLib) (set_order : SetOrder)
    (browser : Browser) (base_url : string) (max_depth : Z) (fuel : nat)
    (url : string) (cs : gset string) :
  let s := state (after (crawl_site base_url max_depth fuel) init) in
  url_children s !! url = Some cs →
  (∀ child, child ∈ cs ↔
            child ∈ page_links base_url url ∧ is_child_of url child = Some true)
  ∧ cs ⊆ all_found_urls s
  ∧ url ∉ cs.
Proof.
  intros s Hcs.
  destruct (crawl_site_keeps_children base_url max_depth fuel init) as [_ Hkeep].
  destruct (Hkeep ltac:(by intros u c Hu) url cs Hcs) as [Hfound Hexact].
  split_and!; [done|done|].
  intros [_ Hself%is_child_of_weight]%Hexact. lia.
Qed.

Lemma X3_children_recorded_witness :
  let browser := uniform_browser [AttrValue "/a"; AttrValue "https://y.com/b"] in
  let s := state (after (crawl_site (url_lib := cpython) (set_order := elements_order)
                           (browser := browser) "https://x.com" 5 7) init) in
  {["https://x.com/a"]} ⊆ all_found_urls s.
Proof.
  intros browser s.
  refine (proj1 (proj2 (X3_children_recorded cpython elements_order browser
                          "https://x.com" 5 7 "https://x.com" {["https://x.com/a"]} _))).
  vm_compute. reflexivity.
Defined.

(** X4. [crawl_recursive] started at depth [d] never logs (and so never
    visits or fetches) a URL at a depth below [d] or above [max_depth]; for
    [crawl_site] every logged depth is between 0 and [max_depth]. *)
Theorem X4_depth_bound (url_lib : UrlLib) (set_order : SetOrder) (browser : Browser)
    (base_url : string) (max_depth : Z) (fuel : nat) (url : string) (depth : Z)
    (g : Generator) :
  (∃ entries,
     logs (after (crawl_recursive base_url max_depth fuel url depth) g)
     = logs g ++ entries
     ∧ Forall (λ e, depth ≤ e.2 ≤ max_depth) entries)
  ∧ (∃ entries,
       logs (after (crawl_site base_url max_depth fuel) g) = logs g ++ entries
       ∧ Forall (λ e, 0 ≤ e.2 ≤ max_depth) entries).
Proof.
  split.
  - by apply (crawl_logs_within base_url max_depth depth fuel url depth g).
  - apply (crawl_site_logs_within base_url max_depth fuel g).
Qed.

(** ** The hierarchy builder: termination and keys *)
Section BuilderMore.

Context {url_lib : UrlLib} {set_order : SetOrder}.

Lemma build_entries_fuel (s : CrawlState)
    (sb : string → result (list (string * Value)))
    (children : list string) (tree : list (string * Value)) :
  (∀ c, c ∈ children → has_children s c = true → sb c ≠ OutOfFuel) →
  build_entries s sb children tree ≠ OutOfFuel.
Proof.
  revert tree. induction children as [|c l IH]; intros tree Hsb; [done|].
  assert (∀ c', c' ∈ l → has_children s c' = true → sb c' ≠ OutOfFuel) as Hl.
  { intros c' ?. apply Hsb. by right. }
  simpl. destruct (urlparse c) as [p|]; [|done].
  destruct (has_children s c) eqn:Hc.
  - pose proof (Hsb c ltac:(left) Hc) as Hne.
    destruct (sb c); [by apply IH|done|done].
  - destruct (leaf_descendants s c); [by apply IH|done].
Qed.

Lemma has_children_dom (s : CrawlState) (c : string) :
  has_children s c = true → c ∈ dom (url_children s).
Proof.
  unfold has_children. intros H. apply elem_of_dom.
  by destruct (url_children s !! c).
Qed.

Lemma build_tree_for_url_fuel (s : CrawlState) (fuel : nat) (url : string) :
  children_sound s →
  (size (deeper s url) < fuel)%nat →
  build_tree_for_url s fuel url ≠ OutOfFuel.
Proof.
  intros Hsound. revert url. induction fuel as [|fuel IH]; intros url Hsize; [lia|].
  simpl. destruct (url_children s !! url) as [cs|] eqn:Hcs; [|done].
  apply build_entries_fuel. intros c Hc%elem_of_sorted%elem_of_iter Hhas.
  apply IH. pose proof (is_child_of_weight _ _ (Hsound url cs c Hcs Hc)) as Hw.
  assert (deeper s c ⊂ deeper s url) as Hsub%subset_size; [|lia].
  split.
  - intros k. unfold deeper. rewrite !elem_of_filter. intros [? ?]. split; [lia|done].
  - intros Hrev. assert (c ∈ deeper s c) as Hin.
    { apply Hrev. unfold deeper. apply elem_of_filter. split; [done|].
      by apply has_children_dom. }
    unfold deeper in Hin. apply elem_of_filter in Hin as [? _]. lia.
Qed.

Lemma deeper_size (s : CrawlState) (url : string) :
  (size (deeper s url) ≤ size (url_children s))%nat.
Proof.
  rewrite <-size_dom. apply subseteq_size. unfold deeper.
  intros k [_ ?]%elem_of_filter. done.
Qed.

Lemma build_entries_more (s : CrawlState)
    (sb sb' : string → result (list (string * Value)))
    (children : list string) (tree : list (string * Value)) :
  (∀ c, sb c ≠ OutOfFuel → sb' c = sb c) →
  build_entries s sb children tree ≠ OutOfFuel →
  build_entries s sb' children tree = build_entries s sb children tree.
Proof.
  intros Hsb. revert tree. induction children as [|c l IH]; intros tree; [done|].
  simpl. destruct (urlparse c) as [p|]; [|done].
  destruct (has_children s c).
  - destruct (sb c) as [sub|e|] eqn:Hc.
    + rewrite Hsb, Hc by by rewrite Hc. apply IH.
    + by rewrite Hsb, Hc by by rewrite Hc.
    + done.
  - destruct (leaf_descendants s c); [apply IH|done].
Qed.

Lemma build_tree_for_url_more (s : CrawlState) (fuel fuel' : nat) (url : string) :
  (fuel ≤ fuel')%nat →
  build_tree_for_url s fuel url ≠ OutOfFuel →
  build_tree_for_url s fuel' url = build_tree_for_url s fuel url.
Proof.
  revert fuel' url. induction fuel as [|fuel IH]; intros fuel' url Hle; [done|].
  destruct fuel' as [|fuel']; [lia|]. simpl.
  destruct (url_children s !! url) as [cs|]; [|done].
  apply build_entries_more. intros c. apply IH. lia.
Qed.

(** *** The keys of the tree *)

Lemma dict_set_keys (k : string) (v : Value) (d : list (string * Value)) :
  (dict_set k v d).*1 = if bool_decide (k ∈ d.*1) then d.*1 else d.*1 ++ [k].
Proof.
  induction d as [|[k' v'] d IH]; [done|]. cbn [dict_set].
  destruct (String.eqb_spec k' k) as [->|Hne]; rewrite !fmap_cons; cbn [fst].
  - rewrite (bool_decide_eq_true_2 (k ∈ k :: d.*1)); [done|by left].
  - rewrite IH. destruct (decide (k ∈ d.*1)) as [Hin|Hnin].
    + rewrite (bool_decide_eq_true_2 _ Hin).
      rewrite (bool_decide_eq_true_2 (k ∈ k' :: d.*1)); [done|by right].
    + rewrite (bool_decide_eq_false_2 _ Hnin).
      rewrite (bool_decide_eq_false_2 (k ∈ k' :: d.*1)); [done|].
      intros [?|?]%elem_of_cons; [congruence|done].
Qed.

Lemma dict_set_NoDup (k : string) (v : Value) (d : list (string * Value)) :
  NoDup d.*1 → NoDup (dict_set k v d).*1.
Proof.
  intros Hd. rewrite dict_set_keys. case_bool_decide; [done|].
  apply NoDup_app. split_and!; [done| |apply NoDup_singleton].
  intros x Hx ->%list_elem_of_singleton. done.
Qed.

Lemma elem_of_dict_set (k k' : string) (v : Value) (d : list (string * Value)) :
  k' ∈ (dict_set k v d).*1 ↔ k' = k ∨ k' ∈ d.*1.
Proof.
  rewrite dict_set_keys. case_bool_decide.
  - split; [by right|]. by intros [->|?].
  - rewrite elem_of_app, list_elem_of_singleton. tauto.
Qed.

Lemma dict_get_None (k : string) (d : list (string * Value)) :
  dict_get k d = None ↔ k ∉ d.*1.
Proof.
  induction d as [|[k' v'] d IH]; simpl.
  - split; [|done]. by intros _ ?%elem_of_nil.
  - rewrite not_elem_of_cons. destruct (String.eqb_spec k' k) as [->|Hne].
    + split; [done|]. by intros [? _].
    + rewrite IH. split; [by split|by intros [_ ?]].
Qed.

Lemma build_entries_keys (s : CrawlState)
    (sb : string → result (list (string * Value)))
    (children : list string) (tree tree' : list (string * Value)) :
  build_entries s sb children tree = Ret tree' →
  (NoDup tree.*1 → NoDup tree'.*1)
  ∧ (∀ c, c ∈ children → is_Some (urlparse c))
  ∧ ∀ k, k ∈ tree'.*1 ↔
         k ∈ tree.*1 ∨ ∃ c p, c ∈ children ∧ urlparse c = Some p ∧ k = key_of p.
Proof.
  revert tree. induction children as [|c l IH]; intros tree; simpl.
  - intros [= ->]. split_and!; [done| |].
    + by intros c ?%elem_of_nil.
    + intros k. split; [by left|]. intros [?|(c & p & ?%elem_of_nil & _)]; done.
  - destruct (urlparse c) as [p|] eqn:Hp; [|done].
    assert (∀ v, build_entries s sb l (dict_set (key_of p) v tree) = Ret tree' →
      (NoDup tree.*1 → NoDup tree'.*1)
      ∧ (∀ c0, c0 ∈ c :: l → is_Some (urlparse c0))
      ∧ ∀ k, k ∈ tree'.*1 ↔
             k ∈ tree.*1 ∨ ∃ c0 p0, c0 ∈ c :: l ∧ urlparse c0 = Some p0 ∧ k = key_of p0)
      as Hstep.
    { intros v (Hnd & Hparse & Hk)%IH. split_and!.
      - intros ?. by apply Hnd, dict_set_NoDup.
      - intros c0 [->|?]%elem_of_cons; [by rewrite Hp|by apply Hparse].
      - intros k. rewrite Hk, elem_of_dict_set. split.
        + intros [[->|?]|(c0 & p0 & ? & ? & ?)]; [right|by left|right].
          * exists c, p. split_and!; [by left|done..].
          * exists c0, p0. split_and!; [by right|done..].
        + intros [?|(c0 & p0 & [->|?]%elem_of_cons & Hp0 & ->)]; [by left; right| |].
          * rewrite Hp in Hp0. injection Hp0 as <-. by left; left.
          * right. by exists c0, p0. }
    destruct (has_children s c).
    + destruct (sb c); [apply Hstep|done|done].
    + destruct (leaf_descendants s c); [apply Hstep|done].
Qed.

End BuilderMore.

Lemma children_exact_sound {url_lib : UrlLib} {browser : Browser}
    (base_url : string) (s : CrawlState) :
  children_exact base_url s → children_sound s.
Proof.
  intros H url cs child Hcs Hin. destruct (H url cs Hcs) as [_ Hx].
  by apply Hx in Hin as [_ ?].
Qed.

Lemma crawl_site_children_exact {url_lib : UrlLib} {set_order : SetOrder}
    {browser : Browser} (base_url : string) (max_depth : Z) (fuel : nat) :
  children_exact base_url (state (after (crawl_site base_url max_depth fuel) init)).
Proof.
  destruct (crawl_site_keeps_children base_url max_depth fuel init) as [_ H].
  apply H. by intros u c Hu.
Qed.

Lemma build_hierarchical_fuel {url_lib : UrlLib} {set_order : SetOrder}
    (base_url : string) (s : CrawlState) (fuel : nat) :
  children_sound s → (size (url_children s) < fuel)%nat →
  build_hierarchical_sitemap base_url s fuel ≠ OutOfFuel.
Proof.
  intros Hsound Hsize. unfold build_hierarchical_sitemap.
  destruct (urlparse base_url) as [parsed|]; [|done].
  assert (build_tree_for_url s fuel (root_of parsed) ≠ OutOfFuel).
  { apply build_tree_for_url_fuel; [done|].
    pose proof (deeper_size s (root_of parsed)). lia. }
  by destruct (build_tree_for_url s fuel (root_of parsed)).
Qed.

Lemma build_hierarchical_more {url_lib : UrlLib} {set_order : SetOrder}
    (base_url : string) (s : CrawlState) (fuel fuel' : nat) :
  (fuel ≤ fuel')%nat →
  build_hierarchical_sitemap base_url s fuel ≠ OutOfFuel →
  build_hierarchical_sitemap base_url s fuel'
  = build_hierarchical_sitemap base_url s fuel.
Proof.
  intros Hle. unfold build_hierarchical_sitemap.
  destruct (urlparse base_url) as [parsed|]; [|done].
  intros H. rewrite (build_tree_for_url_more s fuel fuel'); [done..|].
  by destruct (build_tree_for_url s fuel (root_of parsed)).
Qed.

Lemma build_tree_for_url_keys {url_lib : UrlLib} {set_order : SetOrder}
    (s : CrawlState) (fuel : nat) (url : string) (tree : list (string * Value)) :
  build_tree_for_url s fuel url = Ret tree →
  NoDup tree.*1
  ∧ match url_children s !! url with
    | None => tree = []
    | Some cs =>
        (∀ c, c ∈ cs → is_Some (urlparse c))
        ∧ ∀ k, is_Some (dict_get k tree) ↔
               ∃ c p, c ∈ cs ∧ urlparse c = Some p ∧ k = key_of p
    end.
Proof.
  destruct fuel as [|fuel]; [done|]. simpl.
  destruct (url_children s !! url) as [cs|].
  - intros (Hnd & Hparse & Hk)%build_entries_keys. split_and!.
    + apply Hnd. constructor.
    + intros c Hc. apply Hparse. by rewrite elem_of_sorted, elem_of_iter.
    + intros k. rewrite <-not_eq_None_Some, dict_get_None.
      split.
      * intros Hin. apply dec_stable in Hin. apply Hk in Hin as [Hin|(c & p & Hc & ?)].
        { by apply elem_of_nil in Hin. }
        exists c, p. by rewrite elem_of_sorted, elem_of_iter in Hc.
      * intros (c & p & Hc & Hp & ->) Hnin. apply Hnin, Hk. right.
        exists c, p. by rewrite elem_of_sorted, elem_of_iter.
  - intros [= <-]. split; [constructor|done].
Qed.

(** X5. On the state [crawl_site] leaves from a new generator the hierarchy
    builder terminates: the nesting of [build_tree_for_url] is bounded by the
    number of keys of [url_children], since a recorded child has a longer
    path than its parent. With more fuel than that number the model never
    runs out of it, and more fuel still gives the same tree or the same
    exception. *)
Theorem X5_build_terminates (url_lib : UrlLib) (set_order : SetOrder)
    (browser : Browser) (base_url : string) (max_depth : Z) (crawl_fuel : nat)
    (fuel fuel' : nat) :
  let s := state (after (crawl_site base_url max_depth crawl_fuel) init) in
  (size (url_children s) < fuel)%nat → (fuel ≤ fuel')%nat →
  (build_hierarchical_sitemap base_url s fuel ≠ OutOfFuel
   ∧ build_hierarchical_sitemap base_url s fuel'
     = build_hierarchical_sitemap base_url s fuel)
  ∧ ∀ url, build_tree_for_url s fuel url ≠ OutOfFuel
           ∧ build_tree_for_url s fuel' url = build_tree_for_url s fuel url.
Proof.
  intros s Hsize Hle.
  assert (children_sound s) as Hsound.
  { apply (children_exact_sound base_url), crawl_site_children_exact. }
  assert (∀ url, build_tree_for_url s fuel url ≠ OutOfFuel) as Hfuel.
  { intros url. apply build_tree_for_url_fuel; [done|].
    pose proof (deeper_size s url). lia. }
  split.
  - pose proof (build_hierarchical_fuel base_url s fuel Hsound Hsize).
    split; [done|]. by apply build_hierarchical_more.
  - intros url. split; [done|]. by apply build_tree_for_url_more.
Qed.

Lemma X5_build_terminates_witness :
  let browser := uniform_browser [AttrValue "/a"; AttrValue "/a/b"] in
  let s := state (after (crawl_site (url_lib := cpython) (set_order := elements_order)
                           (browser := browser) "https://x.com" 5 7) init) in
  build_hierarchical_sitemap (url_lib := cpython) (set_order := elements_order)
    "https://x.com" s 4 ≠ OutOfFuel.
Proof.
  intros browser s.
  refine (proj1 (proj1 (X5_build_terminates cpython elements_order browser
                          "https://x.com" 5 7 4 4 _ _))).
  - vm_compute. lia.
  - lia.
Defined.

(** X6. The dict that [build_tree_for_url] returns has no key twice. For a
    URL without an entry in [url_children] it is empty; otherwise every
    child of the URL parses and the keys of the dict are exactly the keys
    (network location and path) of the children. *)
Theorem X6_tree_keys (url_lib : UrlLib) (set_order : SetOrder) (s : CrawlState)
    (fuel : nat) (url : string) (tree : list (string * Value)) :
  build_tree_for_url s fuel url = Ret tree →
  NoDup tree.*1
  ∧ match url_children s !! url with
    | None => tree = []
    | Some cs =>
        (∀ c, c ∈ cs → is_Some (urlparse c))
        ∧ ∀ k, is_Some (dict_get k tree) ↔
               ∃ c p, c ∈ cs ∧ urlparse c = Some p ∧ k = key_of p
    end.
Proof. apply build_tree_for_url_keys. Qed.

Lemma X6_tree_keys_witness :
  NoDup [("x.com/docs/guide", List ["x.com/docs/guide/setup"])].*1.
Proof.
  refine (proj1 (X6_tree_keys cpython elements_order docs_state 1 "https://x.com/docs"
                   [("x.com/docs/guide", List ["x.com/docs/guide/setup"])] _)).
  vm_compute. reflexivity.
Defined.

(** ** The crawl when it returns normally *)
Section CrawlReturns.

Context {url_lib : UrlLib} {set_order : SetOrder} {browser : Browser}.
Variable base_url : string.
Variable max_depth : Z.

(** an invariant that the body keeps when it returns is kept by a loop that
    returns *)
Lemma for_each_ret {A} (I : Generator → Prop) (l : list A) (body : A → M unit) :
  (∀ x g, x ∈ l → I g → outcome (body x) g = Ret tt → I (after (body x) g)) →
  ∀ g, I g → outcome (for_each l body) g = Ret tt → I (after (for_each l body) g).
Proof.
  induction l as [|x l IH]; intros Hbody g Hg; [done|].
  simpl. rewrite after_bind, outcome_bind.
  destruct (outcome (body x) g) as [[]| |] eqn:Hx; [|done..].
  apply IH.
  - intros y g' Hy. apply Hbody. by right.
  - apply Hbody; [left|done..].
Qed.

Lemma crawl_dom_mono (fuel : nat) (url : string) (depth : Z) (g : Generator) :
  dom (url_children (state g))
  ⊆ dom (url_children (state (after (crawl_recursive base_url max_depth fuel url depth) g))).
Proof.
  apply (crawl_rule base_url max_depth (λ _ _, True)
           (λ g g', dom (url_children (state g)) ⊆ dom (url_children (state g'))));
    try done.
  - intros g1 g2 g3 ? ?. by etrans.
  - intros u children g0 _. simpl. rewrite dom_insert. set_solver.
Qed.

Lemma crawl_visited_mono (fuel : nat) (url : string) (depth : Z) (g : Generator) :
  visited_urls (state g)
  ⊆ visited_urls (state (after (crawl_recursive base_url max_depth fuel url depth) g)).
Proof. apply progress_visited, crawl_progress. Qed.

(** a crawl that returns has recorded the children of every URL it visited *)
Lemma crawl_records (fuel : nat) (url : string) (depth : Z) (g : Generator) :
  outcome (crawl_recursive base_url max_depth fuel url depth) g = Ret tt →
  visited_urls (state (after (crawl_recursive base_url max_depth fuel url depth) g))
  ⊆ visited_urls (state g)
    ∪ dom (url_children (state (after (crawl_recursive base_url max_depth fuel url depth) g))).
Proof.
  revert url depth g. induction fuel as [|fuel IH]; intros url depth g; [done|].
  set (I := λ g' : Generator,
         visited_urls (state g') ⊆ visited_urls (state g) ∪ dom (url_children (state g'))).
  change (outcome (crawl_recursive base_url max_depth (S fuel) url depth) g = Ret tt →
          I (after (crawl_recursive base_url max_depth (S fuel) url depth) g)).
  cbn [crawl_recursive]. unfold crawl_body. rewrite after_get_self, outcome_get_self.
  destruct (_ || _) eqn:Hguard; [intros _; unfold I; set_solver|].
  rewrite after_enter, outcome_enter.
  set (g1 := after (enter url depth) g).
  rewrite after_bind, outcome_bind.
  destruct (get_page_links_after base_url url g1) as [d Hg2]. rewrite Hg2.
  set (g2 := mkGen (state g1) d (logs g1) (history g1)).
  destruct (get_page_links_outcome base_url url g1) as [-> | ->]; [|done].
  set (links := page_links base_url url).
  unfold update_found at 1 2. rewrite after_update, outcome_update.
  fold (update_found links).
  set (g3 := after (update_found links) g2).
  rewrite after_lift, outcome_lift.
  destruct (collect_children url (iter OverLinks url links) ∅) as [children|] eqn:Hc;
    [|done].
  unfold set_children at 1 2. rewrite after_update, outcome_update.
  fold (set_children url children).
  set (g4 := after (set_children url children) g3).
  assert (I g4) as H4.
  { unfold I. simpl. rewrite dom_insert. set_solver. }
  assert (∀ link g', I g' →
            outcome (crawl_recursive base_url max_depth fuel link (depth + 1)) g' = Ret tt →
            I (after (crawl_recursive base_url max_depth fuel link (depth + 1)) g'))
    as Hrec.
  { intros link g' Hg' Hret. unfold I in *.
    pose proof (IH link (depth + 1) g' Hret).
    pose proof (crawl_dom_mono fuel link (depth + 1) g'). set_solver. }
  rewrite after_bind, outcome_bind.
  set (blog_loop := if Py.contains "blogs" url && (depth <? 3) then _ else _).
  destruct (outcome blog_loop g4) as [[]| |] eqn:Hblog; [|done..].
  assert (I (after blog_loop g4)) as H5.
  { revert Hblog. unfold blog_loop. destruct (_ && _); [|done].
    apply (for_each_ret I); [|done].
    intros link g' _ Hg'. rewrite after_get_self, outcome_get_self.
    destruct (_ && _); [|done]. by apply Hrec. }
  apply (for_each_ret I); [|done].
  intros child g' _ Hg'. rewrite after_get_self, outcome_get_self.
  destruct (bool_decide (child ∉ _)); [|done]. by apply Hrec.
Qed.

(** a crawl within the depth bound leaves its URL visited, however it ends *)
Lemma crawl_visits (fuel : nat) (url : string) (depth : Z) (g : Generator) :
  depth ≤ max_depth →
  url ∈ visited_urls
          (state (after (crawl_recursive base_url max_depth (S fuel) url depth) g)).
Proof.
  intros Hd. set (I := λ g' : Generator, url ∈ visited_urls (state g')).
  change (I (after (crawl_recursive base_url max_depth (S fuel) url depth) g)).
  cbn [crawl_recursive]. unfold crawl_body. rewrite after_get_self.
  destruct (_ || _) eqn:Hguard.
  { apply orb_true_iff in Hguard as [?|?%bool_decide_eq_true]; [lia|done]. }
  rewrite after_enter.
  set (g1 := after (enter url depth) g).
  assert (I g1) as H1 by (unfold I; simpl; set_solver).
  rewrite after_bind.
  destruct (get_page_links_after base_url url g1) as [d Hg2]. rewrite Hg2.
  set (g2 := mkGen (state g1) d (logs g1) (history g1)).
  destruct (get_page_links_outcome base_url url g1) as [-> | ->]; [|done].
  set (links := page_links base_url url).
  unfold update_found at 1. rewrite after_update. fold (update_found links).
  set (g3 := after (update_found links) g2).
  rewrite after_lift.
  destruct (collect_children url (iter OverLinks url links) ∅) as [children|] eqn:Hc;
    [|done].
  unfold set_children at 1. rewrite after_update. fold (set_children url children).
  set (g4 := after (set_children url children) g3).
  assert (I g4) as H4 by done.
  assert (∀ link g', I g' →
            I (after (crawl_recursive base_url max_depth fuel link (depth + 1)) g'))
    as Hrec.
  { intros link g' Hg'. by apply crawl_visited_mono. }
  rewrite after_bind.
  set (blog_loop := if Py.contains "blogs" url && (depth <? 3) then _ else _).
  assert (I (after blog_loop g4)) as H5.
  { unfold blog_loop. destruct (_ && _); [|done].
    apply (for_each_after I); [|done].
    intros link g' _ Hg'. rewrite after_get_self.
    destruct (_ && _); [|done]. by apply Hrec. }
  destruct (outcome blog_loop g4); [|done..].
  apply (for_each_after I); [|done].
  intros child g' _ Hg'. rewrite after_get_self.
  destruct (bool_decide (child ∉ _)); [|done]. by apply Hrec.
Qed.

(** [crawl_site] that returns: the base URL parsed, and both traversals
    returned *)
Lemma crawl_site_ret (fuel : nat) (g : Generator) :
  outcome (crawl_site base_url max_depth fuel) g = Ret tt →
  ∃ parsed d fuel',
    fuel = S fuel'
    ∧ urlparse base_url = Some parsed
    ∧ let g2 := after (update_found (discover_sitemap_urls base_url))
                  (mkGen (state g) d (logs g) (history g)) in
      let g3 := after (crawl_recursive base_url max_depth fuel (root_of parsed) 0) g2 in
      outcome (crawl_recursive base_url max_depth fuel (root_of parsed) 0) g2 = Ret tt
      ∧ outcome (crawl_base base_url max_depth fuel (root_of parsed)) g3 = Ret tt
      ∧ after (crawl_site base_url max_depth fuel) g
        = after (crawl_base base_url max_depth fuel (root_of parsed)) g3.
Proof.
  set (P := λ g' : Generator, ∃ parsed d fuel',
    fuel = S fuel'
    ∧ urlparse base_url = Some parsed
    ∧ let g2 := after (update_found (discover_sitemap_urls base_url))
                  (mkGen (state g) d (logs g) (history g)) in
      let g3 := after (crawl_recursive base_url max_depth fuel (root_of parsed) 0) g2 in
      outcome (crawl_recursive base_url max_depth fuel (root_of parsed) 0) g2 = Ret tt
      ∧ outcome (crawl_base base_url max_depth fuel (root_of parsed)) g3 = Ret tt
      ∧ g' = after (crawl_base base_url max_depth fuel (root_of parsed)) g3).
  change (outcome (crawl_site base_url max_depth fuel) g = Ret tt →
          P (after (crawl_site base_url max_depth fuel) g)).
  unfold crawl_site. rewrite after_get_self, outcome_get_self, after_bind, outcome_bind.
  assert (∃ d, after (if driver g then mret () else setup_driver) g
               = mkGen (state g) d (logs g) (history g)) as [d Hd].
  { unfold setup_driver, after. destruct g as [s [] l h]; simpl; [by eexists|].
    destruct chrome_starts; by eexists. }
  rewrite Hd. destruct (outcome _ g) as [[]| |]; [|done..].
  rewrite after_lift, outcome_lift.
  destruct (urlparse base_url) as [parsed|] eqn:Hp; [|done].
  unfold update_found at 1 2. rewrite after_update, outcome_update.
  fold (update_found (discover_sitemap_urls base_url)).
  rewrite after_bind, outcome_bind.
  destruct (outcome (crawl_recursive _ _ fuel _ _) _) as [[]| |] eqn:Hroot; [|done..].
  intros Hbase. destruct fuel as [|fuel']; [done|].
  exists parsed, d, fuel'. by split_and!.
Qed.

Lemma keeps_links_update (f : CrawlState → CrawlState) (g : Generator) :
  all_found_urls (state g) ⊆ all_found_urls (f (state g)) →
  (links_found base_url (state g) → links_found base_url (f (state g))) →
  keeps_links base_url g (after (update f) g).
Proof. by intros ? ?. Qed.

Lemma keeps_links_found (links : gset string) (g : Generator) :
  keeps_links base_url g (after (update_found links) g).
Proof.
  apply keeps_links_update; [simpl; set_solver|].
  intros H u Hu. simpl in *. specialize (H u Hu). set_solver.
Qed.

Lemma crawl_keeps_links (fuel : nat) (url : string) (depth : Z) (g : Generator) :
  keeps_links base_url g (after (crawl_recursive base_url max_depth fuel url depth) g).
Proof.
  apply (crawl_rule_strong base_url max_depth (λ _ _ _, True) (keeps_links base_url));
    try done.
  - intros g1 g2 g3 [? ?] [? ?]. split; [by etrans|auto].
  - intros u g0 _. apply keeps_links_found.
  - intros u children g0 _ Hlinks _. apply keeps_links_update; [done|].
    intros H u'. simpl. rewrite dom_insert, elem_of_union, elem_of_singleton.
    intros [->|Hu']; [done|by apply H].
Qed.

Lemma crawl_site_keeps_links (fuel : nat) (g : Generator) :
  keeps_links base_url g (after (crawl_site base_url max_depth fuel) g).
Proof.
  apply (crawl_site_rule base_url max_depth (keeps_links base_url)); try done.
  - intros g1 g2 g3 [? ?] [? ?]. split; [by etrans|auto].
  - apply keeps_links_found.
  - intros. apply crawl_keeps_links.
Qed.

Lemma found_from_trans (g1 g2 g3 : Generator) :
  found_from base_url g1 g2 → found_from base_url g2 g3 → found_from base_url g1 g3.
Proof.
  intros [Hv1 Hf1] [Hv2 Hf2]. split; [by etrans|].
  intros link [Hin|(u & Hu & Hl)]%Hf2; [|by eauto].
  apply Hf1 in Hin as [Hin|(u & Hu & Hl)]; [by left|]. right. exists u. split; [|done].
  by apply Hv2.
Qed.

Lemma found_from_same (g g' : Generator) :
  visited_urls (state g) ⊆ visited_urls (state g') →
  all_found_urls (state g') = all_found_urls (state g) →
  found_from base_url g g'.
Proof. intros Hv Hf. split; [done|]. intros link. rewrite Hf. by left. Qed.

Lemma crawl_found_from (fuel : nat) (url : string) (depth : Z) (g : Generator) :
  found_from base_url g (after (crawl_recursive base_url max_depth fuel url depth) g).
Proof.
  apply (crawl_rule_strong base_url max_depth (λ _ _ _, True) (found_from base_url));
    try done.
  - intros g0. by apply found_from_same.
  - apply found_from_trans.
  - intros g0 d. by apply found_from_same.
  - intros u d g0 _ _ _. apply found_from_same; [simpl; set_solver|done].
  - intros u g0 Hu. split; [done|]. intros link. simpl.
    rewrite elem_of_union. intros [?|?]; [by left|right; by exists u].
  - intros u children g0 _ _ _. by apply found_from_same.
Qed.

End CrawlReturns.

Lemma crawl_site_visited_dom {url_lib : UrlLib} {set_order : SetOrder}
    {browser : Browser} (base_url : string) (max_depth : Z) (fuel : nat) :
  outcome (crawl_site base_url max_depth fuel) init = Ret tt →
  dom (url_children (state (after (crawl_site base_url max_depth fuel) init)))
  = visited_urls (state (after (crawl_site base_url max_depth fuel) init)).
Proof.
  intros Hret. apply set_eq. intros u. split.
  - destruct (crawl_site_keeps_invariant base_url max_depth fuel init) as [_ Hinv].
    assert (Forall (crawl_invariant (crawl_roots base_url)) (states init)) as H0.
    { repeat constructor; simpl; set_solver. }
    apply Hinv, Forall_cons in H0 as [[_ Hdom] _]. apply Hdom.
  - destruct (crawl_site_ret base_url max_depth fuel init Hret)
      as (parsed & d & fuel' & _ & _ & Hroot & Hbase & ->).
    simpl in Hroot, Hbase. revert Hroot Hbase.
    set (g2 := after (update_found _) _).
    set (g3 := after (crawl_recursive _ _ _ (root_of parsed) _) g2).
    intros Hroot Hbase.
    pose proof (crawl_records base_url max_depth fuel _ _ _ Hroot) as H3. fold g3 in H3.
    assert (visited_urls (state g3) ⊆ dom (url_children (state g3))) as H3'.
    { intros x Hx. apply H3 in Hx. set_solver. }
    revert Hbase. unfold crawl_base. destruct (negb _); [|intros _; apply H3'].
    intros Hbase.
    pose proof (crawl_records base_url max_depth fuel _ _ _ Hbase) as H4.
    pose proof (crawl_dom_mono base_url max_depth fuel base_url 0 g3) as Hmono.
    intros Hu. apply H4 in Hu. set_solver.
Qed.

(** X7. When [crawl_site], called on a new generator, returns normally, the
    keys of [url_children] are exactly the visited URLs: every page that was
    visited has its children recorded. *)
Theorem X7_visited_recorded (url_lib : UrlLib) (set_order : SetOrder)
    (browser : Browser) (base_url : string) (max_depth : Z) (fuel : nat) :
  outcome (crawl_site base_url max_depth fuel) init = Ret tt →
  dom (url_children (state (after (crawl_site base_url max_depth fuel) init)))
  = visited_urls (state (after (crawl_site base_url max_depth fuel) init)).
Proof. apply crawl_site_visited_dom. Qed.

Lemma X7_visited_recorded_witness :
  let browser := uniform_browser [AttrValue "/a"; AttrValue "/a/b"] in
  dom (url_children (state (after (crawl_site (url_lib := cpython)
         (set_order := elements_order) (browser := browser) "https://x.com" 5 7) init)))
  = visited_urls (state (after (crawl_site (url_lib := cpython)
         (set_order := elements_order) (browser := browser) "https://x.com" 5 7) init)).
Proof.
  intros browser.
  refine (X7_visited_recorded cpython elements_order browser "https://x.com" 5 7 _).
  vm_compute. reflexivity.
Defined.

Lemma crawl_site_roots_visited {url_lib : UrlLib} {set_order : SetOrder}
    {browser : Browser} (base_url : string) (max_depth : Z) (fuel : nat)
    (g : Generator) :
  outcome (crawl_site base_url max_depth fuel) g = Ret tt → 0 ≤ max_depth →
  ∃ parsed,
    urlparse base_url = Some parsed
    ∧ root_of parsed ∈ visited_urls (state (after (crawl_site base_url max_depth fuel) g))
    ∧ base_url ∈ visited_urls (state (after (crawl_site base_url max_depth fuel) g)).
Proof.
  intros Hret Hd.
  destruct (crawl_site_ret base_url max_depth fuel g Hret)
    as (parsed & d & fuel' & Hfuel & Hp & _ & _ & ->).
  exists parsed. split; [done|]. cbv zeta.
  set (g2 := after (update_found _) _).
  set (g3 := after (crawl_recursive _ _ _ (root_of parsed) _) g2).
  assert (root_of parsed ∈ visited_urls (state g3)) as Hroot.
  { unfold g3. rewrite Hfuel. by apply crawl_visits. }
  unfold crawl_base. destruct (String.eqb_spec base_url (root_of parsed)) as [He|Hne];
    cbn [negb].
  - split; [done|]. by rewrite He.
  - split; [by apply (crawl_visited_mono base_url max_depth)|].
    rewrite Hfuel. by apply crawl_visits.
Qed.

(** X8. When [crawl_site] returns normally and [max_depth] is not negative,
    the base URL parsed, and both its bare root (scheme and host) and the
    base URL itself are visited. *)
Theorem X8_roots_visited (url_lib : UrlLib) (set_order : SetOrder)
    (browser : Browser) (base_url : string) (max_depth : Z) (fuel : nat)
    (g : Generator) :
  outcome (crawl_site base_url max_depth fuel) g = Ret tt → 0 ≤ max_depth →
  ∃ parsed,
    urlparse base_url = Some parsed
    ∧ root_of parsed ∈ visited_urls (state (after (crawl_site base_url max_depth fuel) g))
    ∧ base_url ∈ visited_urls (state (after (crawl_site base_url max_depth fuel) g)).
Proof. apply crawl_site_roots_visited. Qed.

Lemma X8_roots_visited_witness :
  let browser := uniform_browser [AttrValue "/a"; AttrValue "/a/b"] in
  ∃ parsed,
    urlparse (UrlLib := cpython) "https://x.com/a" = Some parsed
    ∧ root_of (url_lib := cpython) parsed
      ∈ visited_urls (state (after (crawl_site (url_lib := cpython)
        (set_order := elements_order) (browser := browser) "https://x.com/a" 5 7) init))
    ∧ "https://x.com/a" ∈ visited_urls (state (after (crawl_site (url_lib := cpython)
        (set_order := elements_order) (browser := browser) "https://x.com/a" 5 7) init)).
Proof.
  intros browser.
  refine (X8_roots_visited cpython elements_order browser "https://x.com/a" 5 7 init _ _).
  - vm_compute. reflexivity.
  - lia.
Defined.

(** X9. When [crawl_site], called on a new generator, returns normally, the
    found URLs are exactly the same-domain URLs taken from the sitemap files
    together with the links extracted from the pages of the visited URLs. *)
Theorem X9_found_provenance (url_lib : UrlLib) (set_order : SetOrder)
    (browser : Browser) (base_url : string) (max_depth : Z) (fuel : nat)
    (link : string) :
  outcome (crawl_site base_url max_depth fuel) init = Ret tt →
  let s := state (after (crawl_site base_url max_depth fuel) init) in
  link ∈ all_found_urls s ↔
  link ∈ discover_sitemap_urls base_url
  ∨ ∃ url, url ∈ visited_urls s ∧ link ∈ page_links base_url url.
Proof.
  intros Hret s. split.
  - destruct (crawl_site_ret base_url max_depth fuel init Hret)
      as (parsed & d & fuel' & _ & _ & _ & _ & Heq).
    unfold s. rewrite Heq. simpl.
    set (g2 := after (update_found _) _).
    set (g3 := after (crawl_recursive _ _ _ (root_of parsed) _) g2).
    assert (found_from base_url g2 (after (crawl_base base_url max_depth fuel
                                              (root_of parsed)) g3)) as [_ Hfrom].
    { apply (found_from_trans base_url _ g3); [apply crawl_found_from|].
      unfold crawl_base. destruct (negb _); [apply crawl_found_from|].
      by apply found_from_same. }
    intros [Hin|?]%Hfrom; [|by right]. left. simpl in Hin. set_solver.
  - intros [Hin|(u & Hu & Hl)].
    + destruct (crawl_site_ret base_url max_depth fuel init Hret)
        as (parsed & d & fuel' & _ & _ & _ & _ & Heq).
      unfold s. rewrite Heq.
      set (g2 := after (update_found _) _).
      set (g3 := after (crawl_recursive _ _ _ (root_of parsed) _) g2).
      assert (link ∈ all_found_urls (state g2)) as H2 by (simpl; set_solver).
      destruct (crawl_keeps_links base_url max_depth fuel (root_of parsed) 0 g2)
        as [H3 _]. fold g3 in H3.
      unfold crawl_base. destruct (negb _); [|by apply H3].
      destruct (crawl_keeps_links base_url max_depth fuel base_url 0 g3) as [H4 _].
      by apply H4, H3.
    + destruct (crawl_site_keeps_links base_url max_depth fuel init) as [_ Hkeep].
      apply (Hkeep ltac:(by intros x Hx%elem_of_dom%is_Some_alt) u); [|done].
      unfold s in Hu. by rewrite <-crawl_site_visited_dom in Hu.
Qed.

Lemma X9_found_provenance_witness :
  let browser := uniform_browser [AttrValue "/a"; AttrValue "/a/b"] in
  "https://x.com/a/b" ∈ all_found_urls (state (after (crawl_site (url_lib := cpython)
      (set_order := elements_order) (browser := browser) "https://x.com" 5 7) init)).
Proof.
  intros browser.
  refine (proj2 (X9_found_provenance cpython elements_order browser "https://x.com" 5 7
                   "https://x.com/a/b" _) _).
  - vm_compute. reflexivity.
  - right. exists "https://x.com". split; by vm_compute.
Defined.

(** ** app.py: [extract_urls_from_sitemap] *)
Section ExtractUrls.

Context {list_set : ListOfSet}.

Lemma Json_induction (P : Json → Prop) :
  (∀ s, P (JStr s)) →
  (∀ items, Forall P items → P (JList items)) →
  (∀ entries, Forall (λ entry, P entry.2) entries → P (JDict entries)) →
  P JOther →
  ∀ data, P data.
Proof.
  intros Hs Hl Hd Ho. fix IH 1. intros [s|items|entries|].
  - apply Hs.
  - apply Hl. revert items. fix IHl 1. intros [|item items]; constructor.
    + apply IH.
    + apply IHl.
  - apply Hd. revert entries. fix IHl 1. intros [|[key value] entries]; constructor.
    + apply IH.
    + apply IHl.
  - apply Ho.
Qed.

Lemma elem_of_flat_map {A B} (f : A → list B) (l : list A) (y : B) :
  y ∈ flat_map f l ↔ ∃ x, x ∈ l ∧ y ∈ f x.
Proof.
  rewrite list_elem_of_In, in_flat_map. split.
  - intros (x & ?%list_elem_of_In & ?%list_elem_of_In). by exists x.
  - intros (x & ?%list_elem_of_In & ?%list_elem_of_In). by exists x.
Qed.

Lemma url_of_spec (s u : string) :
  u ∈ url_of s ↔
  (prefix_of "http" s ∧ u = s)
  ∨ (¬ prefix_of "http" s ∧ substring_of "." s ∧ u = "https://" +:+ s).
Proof.
  unfold url_of. rewrite <-startswith_spec, <-contains_spec.
  destruct (Py.startswith s "http"); simpl.
  - rewrite list_elem_of_singleton. split; [by left|]. by intros [[_ ?]|[? _]].
  - rewrite andb_true_r. destruct (Py.contains "." s).
    + rewrite list_elem_of_singleton. split; [by right|]. by intros [[? _]|(_ & _ & ?)].
    + split; [by intros ?%elem_of_nil|]. by intros [[? _]|(_ & ? & _)].
Qed.

Lemma url_of_http (s u : string) : u ∈ url_of s → prefix_of "http" u.
Proof.
  intros [[? ->]|(_ & _ & ->)]%url_of_spec; [done|]. by exists ("s://" +:+ s).
Qed.

Lemma extract_recursive_http (data : Json) (u : string) :
  u ∈ extract_recursive data → prefix_of "http" u.
Proof.
  revert u. induction data as [s|items IH|entries IH|] using Json_induction; intros u;
    cbn [extract_recursive].
  - by intros ?%elem_of_nil.
  - intros (item & Hin & Hu)%elem_of_flat_map.
    rewrite Forall_forall in IH. specialize (IH item Hin).
    destruct item; eauto using url_of_http.
  - intros ([key value] & Hin & Hu)%elem_of_flat_map.
    rewrite Forall_forall in IH. specialize (IH _ Hin). simpl in IH.
    rewrite !elem_of_app in Hu. destruct Hu as [Hu|[Hu|Hu]].
    + by eapply url_of_http.
    + destruct value; try by apply elem_of_nil in Hu. by eapply url_of_http.
    + by apply IH.
  - by intros ?%elem_of_nil.
Qed.

Lemma extract_recursive_occurs (data : Json) (u : string) :
  u ∈ extract_recursive data ↔ ∃ s, occurs s data ∧ u ∈ url_of s.
Proof.
  revert u. induction data as [s|items IH|entries IH|] using Json_induction; intros u;
    cbn [extract_recursive].
  - split; [by intros ?%elem_of_nil|]. intros (s' & Hoc & _). inversion Hoc.
  - rewrite Forall_forall in IH. rewrite elem_of_flat_map. split.
    + intros (item & Hin & Hu).
      destruct item as [s|items'|entries'|] eqn:Hitem.
      * exists s. split; [by apply occurs_item|done].
      * apply (IH _ Hin) in Hu as (s & Hoc & Hu). exists s. split; [|done].
        by eapply occurs_in_item.
      * apply (IH _ Hin) in Hu as (s & Hoc & Hu). exists s. split; [|done].
        by eapply occurs_in_item.
      * by apply elem_of_nil in Hu.
    + intros (s & Hoc & Hu). inversion Hoc as [| items' Hin | | |items' item Hin Hoc']; subst.
      * by exists (JStr s).
      * exists item. split; [done|].
        destruct item; [inversion Hoc'| | |inversion Hoc'];
          apply (IH _ Hin); by exists s.
  - rewrite Forall_forall in IH. rewrite elem_of_flat_map. split.
    + intros ([key value] & Hin & Hu). pose proof (IH _ Hin) as IHv. simpl in IHv.
      rewrite !elem_of_app in Hu. destruct Hu as [Hu|[Hu|Hu]].
      * exists key. split; [by eapply occurs_key|done].
      * destruct value as [s| | |]; try by apply elem_of_nil in Hu.
        exists s. split; [by eapply occurs_value|done].
      * apply IHv in Hu as (s & Hoc & Hu). exists s. split; [|done].
        by eapply occurs_in_value.
    + intros (s & Hoc & Hu).
      inversion Hoc as [entries' value Hin| |entries' key Hin|entries' key value Hin Hoc'|];
        subst.
      * exists (s, value). split; [done|]. rewrite !elem_of_app. by left.
      * exists (key, JStr s). split; [done|]. rewrite !elem_of_app. right. by left.
      * exists (key, value). split; [done|]. rewrite !elem_of_app. right. right.
        apply (IH _ Hin). by exists s.
  - split; [by intros ?%elem_of_nil|]. intros (s' & Hoc & _). inversion Hoc.
Qed.

Lemma elem_of_extract_urls (sitemap : Json) (u : string) :
  u ∈ extract_urls_from_sitemap sitemap ↔ u ∈ extract_recursive sitemap.
Proof.
  unfold extract_urls_from_sitemap.
  by rewrite list_of_set_perm, elem_of_elements, elem_of_list_to_set.
Qed.

End ExtractUrls.

(** X10. The list [extract_urls_from_sitemap] returns has no URL twice, and
    every URL in it starts with "http", whatever the document holds. *)
Theorem X10_extract_urls_unique (list_set : ListOfSet) (sitemap : Json) :
  NoDup (extract_urls_from_sitemap sitemap)
  ∧ ∀ u, u ∈ extract_urls_from_sitemap sitemap → prefix_of "http" u.
Proof.
  split.
  - unfold extract_urls_from_sitemap. rewrite list_of_set_perm. apply NoDup_elements.
  - intros u Hu%elem_of_extract_urls. by eapply extract_recursive_http.
Qed.

(** X11. [extract_urls_from_sitemap] returns a URL exactly when it comes from
    a string of the document: a dict key, a string value of a key or a
    string item of a list, at any depth. A string that starts with "http"
    gives itself; another string that has a dot gives itself after
    "https://"; every other string gives nothing. *)
Theorem X11_extract_urls_spec (list_set : ListOfSet) (sitemap : Json) (u : string) :
  u ∈ extract_urls_from_sitemap sitemap ↔
  ∃ s, occurs s sitemap
       ∧ ((prefix_of "http" s ∧ u = s)
          ∨ (¬ prefix_of "http" s ∧ substring_of "." s ∧ u = "https://" +:+ s)).
Proof.
  rewrite elem_of_extract_urls, extract_recursive_occurs.
  split; intros (s & Hoc & Hu); exists s; split; try done; by apply url_of_spec.
Qed.

(** ** [generate_sitemap], and the URLs the app reads off its result *)
Section Generate.

Context {url_lib : UrlLib} {set_order : SetOrder} {browser : Browser}.
Variable base_url : string.
Variable max_depth : Z.

Lemma crawl_site_fuel (fuel : nat) (g : Generator) :
  (Z.to_nat (max_depth + 1) < fuel)%nat →
  outcome (crawl_site base_url max_depth fuel) g ≠ OutOfFuel.
Proof.
  intros Hfuel.
  assert (∀ url g', outcome (crawl_recursive base_url max_depth fuel url 0) g' ≠ OutOfFuel)
    as Hrec.
  { intros url g'. apply crawl_recursive_fuel. by rewrite Z.sub_0_r. }
  unfold crawl_site. rewrite outcome_get_self, outcome_bind.
  assert (outcome (if driver g then mret () else setup_driver) g ≠ OutOfFuel) as Hd.
  { unfold setup_driver, outcome. destruct (driver g); [done|]. by destruct chrome_starts. }
  destruct (outcome (if driver g then _ else _) g) as [[]| |]; [|done..].
  rewrite outcome_lift. destruct (urlparse base_url) as [parsed|]; [|done].
  unfold update_found at 1. rewrite outcome_update, outcome_bind.
  match goal with |- context [outcome (crawl_recursive _ _ _ _ _) ?g'] =>
    pose proof (Hrec (root_of parsed) g') as Hroot;
    destruct (outcome (crawl_recursive base_url max_depth fuel (root_of parsed) 0) g')
      as [[]| |]; [|done..]
  end.
  destruct (negb _); [apply Hrec|done].
Qed.

Lemma crawl_site_more (fuel fuel' : nat) (g : Generator) :
  (fuel ≤ fuel')%nat →
  outcome (crawl_site base_url max_depth fuel) g ≠ OutOfFuel →
  crawl_site base_url max_depth fuel' g = crawl_site base_url max_depth fuel g.
Proof.
  intros Hle. unfold crawl_site.
  apply bind_more; [done|]. intros g0 g1.
  apply bind_more; [done|]. intros [] g2.
  apply bind_more; [done|]. intros parsed g3.
  apply bind_more; [done|]. intros [] g4.
  apply bind_more; [by apply crawl_recursive_more|]. intros [] g5.
  destruct (negb _); [by apply crawl_recursive_more|done].
Qed.

(** what [generate_sitemap] returns when it returns *)
Lemma generate_sitemap_ret (fuel : nat) (g : Generator)
    (h : list (string * Value)) :
  outcome (generate_sitemap base_url max_depth fuel) g = Ret h →
  outcome (crawl_site base_url max_depth fuel) g = Ret tt
  ∧ build_hierarchical_sitemap base_url
      (state (after (crawl_site base_url max_depth fuel) g)) fuel = Ret h.
Proof.
  unfold generate_sitemap. rewrite outcome_bind.
  destruct (outcome (crawl_site base_url max_depth fuel) g) as [[]| |]; [|done..].
  rewrite outcome_get_self.
  destruct (build_hierarchical_sitemap _ _ _) as [h'| |]; [|done..].
  by intros [= ->].
Qed.

Lemma generate_sitemap_total :
  ∃ fuel, ∀ fuel', (fuel ≤ fuel')%nat →
    outcome (generate_sitemap base_url max_depth fuel') init ≠ OutOfFuel
    ∧ generate_sitemap base_url max_depth fuel' init
      = generate_sitemap base_url max_depth fuel init.
Proof.
  set (fuel1 := S (Z.to_nat (max_depth + 1))).
  set (s := state (after (crawl_site base_url max_depth fuel1) init)).
  set (fuel := (fuel1 `max` S (size (url_children s)))%nat).
  assert (∀ fuel', (fuel ≤ fuel')%nat →
            crawl_site base_url max_depth fuel' init
            = crawl_site base_url max_depth fuel1 init) as Hcrawl.
  { intros fuel' Hle. apply crawl_site_more; [lia|]. apply crawl_site_fuel. lia. }
  assert (children_sound s) as Hsound.
  { apply (children_exact_sound base_url), crawl_site_children_exact. }
  assert (∀ fuel', (fuel ≤ fuel')%nat →
            generate_sitemap base_url max_depth fuel' init
            = (crawl_site base_url max_depth fuel1 ;; g ← get_self;
               match build_hierarchical_sitemap base_url (state g) fuel with
               | Ret hierarchical_sitemap => mret hierarchical_sitemap
               | Raise e => raise e
               | OutOfFuel => out_of_fuel
               end) init
              ∧ outcome (generate_sitemap base_url max_depth fuel') init ≠ OutOfFuel)
    as Hgen.
  { intros fuel' Hle. unfold generate_sitemap, outcome, mbind, M_bind.
    rewrite (Hcrawl fuel' Hle).
    pose proof (crawl_site_fuel fuel1 init ltac:(lia)) as Hne.
    unfold outcome in Hne. unfold s, after in Hsound, fuel.
    destruct (crawl_site base_url max_depth fuel1 init) as [g1 [[]|e|]]; [|done..].
    unfold get_self. simpl in *.
    pose proof (build_hierarchical_fuel base_url (state g1) fuel Hsound ltac:(lia)) as Hb.
    rewrite (build_hierarchical_more base_url (state g1) fuel fuel' Hle Hb).
    by destruct (build_hierarchical_sitemap base_url (state g1) fuel). }
  exists fuel. intros fuel' Hle.
  destruct (Hgen fuel' Hle) as [-> ?]. destruct (Hgen fuel ltac:(lia)) as [-> _].
  done.
Qed.

(** the top level of the sitemap: the home page and its child links *)
Lemma generate_sitemap_top_level (fuel : nat) (h : list (string * Value)) :
  outcome (generate_sitemap base_url max_depth fuel) init = Ret h → 0 ≤ max_depth →
  ∃ parsed tree,
    urlparse base_url = Some parsed
    ∧ h = [(netloc parsed, Dict tree)]
    ∧ NoDup tree.*1
    ∧ (∀ c, c ∈ page_links base_url (root_of parsed) →
            is_child_of (root_of parsed) c = Some true → is_Some (urlparse c))
    ∧ ∀ k, is_Some (dict_get k tree) ↔
           ∃ c p, c ∈ page_links base_url (root_of parsed)
                  ∧ is_child_of (root_of parsed) c = Some true
                  ∧ urlparse c = Some p ∧ k = key_of p.
Proof.
  intros [Hcrawl Hbuild]%generate_sitemap_ret Hd.
  destruct (crawl_site_roots_visited base_url max_depth fuel init Hcrawl Hd)
    as (parsed & Hp & Hroot & _).
  rewrite <-(crawl_site_visited_dom base_url max_depth fuel Hcrawl) in Hroot.
  apply elem_of_dom in Hroot as [cs Hcs].
  destruct (crawl_site_children_exact base_url max_depth fuel _ _ Hcs) as [_ Hexact].
  revert Hbuild. unfold build_hierarchical_sitemap. rewrite Hp.
  destruct (build_tree_for_url _ fuel (root_of parsed)) as [tree| |] eqn:Htree; [|done..].
  intros [= <-]. exists parsed, tree.
  apply build_tree_for_url_keys in Htree as [Hnd Hkeys]. rewrite Hcs in Hkeys.
  destruct Hkeys as [Hparse Hkeys]. split_and!; [done..| |].
  - intros c Hc Hchild. apply Hparse, Hexact. done.
  - intros k. rewrite Hkeys. split.
    + intros (c & p & [? ?]%Hexact & ? & ?). by exists c, p.
    + intros (c & p & ? & ? & ? & ?). exists c, p. split_and!; [|done..].
      by apply Hexact.
Qed.

End Generate.

Lemma occurs_to_json_key (k : string) (entries : list (string * Value)) :
  k ∈ entries.*1 → occurs k (to_json (Dict entries)).
Proof.
  intros ([k' v] & -> & Hin)%list_elem_of_fmap. simpl.
  apply (occurs_key _ _ (to_json v)).
  apply list_elem_of_In, in_map_iff. exists (k', v). split; [done|].
  by apply list_elem_of_In.
Qed.

Lemma occurs_to_json_value (s k : string) (v : Value) (entries : list (string * Value)) :
  (k, v) ∈ entries → occurs s (to_json v) → occurs s (to_json (Dict entries)).
Proof.
  intros Hin Hoc. simpl. apply (occurs_in_value _ _ k (to_json v)); [|done].
  apply list_elem_of_In, in_map_iff. exists (k, v). split; [done|].
  by apply list_elem_of_In.
Qed.

Lemma elem_of_keys_dict_get (k : string) (d : list (string * Value)) :
  is_Some (dict_get k d) → k ∈ d.*1.
Proof.
  rewrite <-not_eq_None_Some, dict_get_None. apply dec_stable.
Qed.

(** X12. [generate_sitemap] on a new generator terminates: from some amount
    of fuel on, the model never runs out of it and gives one and the same
    final generator and result (a sitemap or an exception). *)
Theorem X12_generate_sitemap_total (url_lib : UrlLib) (set_order : SetOrder)
    (browser : Browser) (base_url : string) (max_depth : Z) :
  ∃ fuel, ∀ fuel', (fuel ≤ fuel')%nat →
    outcome (generate_sitemap base_url max_depth fuel') init ≠ OutOfFuel
    ∧ generate_sitemap base_url max_depth fuel' init
      = generate_sitemap base_url max_depth fuel init.
Proof. apply generate_sitemap_total. Qed.

(** X13. When [generate_sitemap] on a new generator returns a sitemap and
    [max_depth] is not negative, the sitemap has one entry, under the
    network location of the base URL: a dict without a repeated key, whose
    keys are exactly the keys (network location and path) of the links of
    the home page that [is_child_of] accepts as children of the bare root. *)
Theorem X13_sitemap_top_level (url_lib : UrlLib) (set_order : SetOrder)
    (browser : Browser) (base_url : string) (max_depth : Z) (fuel : nat)
    (h : list (string * Value)) :
  outcome (generate_sitemap base_url max_depth fuel) init = Ret h → 0 ≤ max_depth →
  ∃ parsed tree,
    urlparse base_url = Some parsed
    ∧ h = [(netloc parsed, Dict tree)]
    ∧ NoDup tree.*1
    ∧ ∀ k, is_Some (dict_get k tree) ↔
           ∃ c p, c ∈ page_links base_url (root_of parsed)
                  ∧ is_child_of (root_of parsed) c = Some true
                  ∧ urlparse c = Some p ∧ k = key_of p.
Proof.
  intros Hret Hd.
  destruct (generate_sitemap_top_level base_url max_depth fuel h Hret Hd)
    as (parsed & tree & ? & ? & ? & _ & ?).
  by exists parsed, tree.
Qed.

Lemma X13_sitemap_top_level_witness :
  let browser := uniform_browser [AttrValue "/a"; AttrValue "/a/b"] in
  ∃ parsed tree,
    urlparse (UrlLib := cpython) "https://x.com" = Some parsed
    ∧ [("x.com", Dict [("x.com/a", Dict [("x.com/a/b", List [])]);
                        ("x.com/a/b", List [])])]
      = [(netloc parsed, Dict tree)]
    ∧ NoDup tree.*1
    ∧ ∀ k, is_Some (dict_get k tree) ↔
           ∃ c p, c ∈ page_links (url_lib := cpython) (browser := browser)
                        "https://x.com" (root_of (url_lib := cpython) parsed)
                  ∧ is_child_of (url_lib := cpython)
                      (root_of (url_lib := cpython) parsed) c = Some true
                  ∧ urlparse (UrlLib := cpython) c = Some p ∧ k = key_of p.
Proof.
  intros browser.
  refine (X13_sitemap_top_level cpython elements_order browser "https://x.com" 5 7
            [("x.com", Dict [("x.com/a", Dict [("x.com/a/b", List [])]);
                        ("x.com/a/b", List [])])] _ _).
  - vm_compute. reflexivity.
  - lia.
Defined.

(** X14. What the app reads off the sitemap that [generate_sitemap] returned
    (on a new generator, [max_depth] not negative): the list of
    [extract_urls_from_sitemap] has the URL made from the network location of
    the base URL, and the URL made from the key of every link of the home
    page that [is_child_of] accepts as a child of the bare root. The URL made
    from a key is the key itself when it starts with "http", and the key
    after "https://" when it has a dot; the scheme, the parameters and the
    query of the link are not in it. *)
Theorem X14_app_urls (url_lib : UrlLib) (set_order : SetOrder) (browser : Browser)
    (list_set : ListOfSet) (base_url : string) (max_depth : Z) (fuel : nat)
    (h : list (string * Value)) :
  outcome (generate_sitemap base_url max_depth fuel) init = Ret h → 0 ≤ max_depth →
  ∃ parsed,
    urlparse base_url = Some parsed
    ∧ (∀ u, u ∈ url_of (netloc parsed) →
            u ∈ extract_urls_from_sitemap (to_json (Dict h)))
    ∧ ∀ c, c ∈ page_links base_url (root_of parsed) →
           is_child_of (root_of parsed) c = Some true →
           ∃ p, urlparse c = Some p
                ∧ ∀ u, u ∈ url_of (key_of p) →
                       u ∈ extract_urls_from_sitemap (to_json (Dict h)).
Proof.
  intros Hret Hd.
  destruct (generate_sitemap_top_level base_url max_depth fuel h Hret Hd)
    as (parsed & tree & Hp & -> & _ & Hparse & Hkeys).
  exists parsed. split_and!; [done| |].
  - intros u Hu. apply elem_of_extract_urls, extract_recursive_occurs.
    exists (netloc parsed). split; [|done].
    apply occurs_to_json_key. simpl. by left.
  - intros c Hc Hchild. destruct (Hparse c Hc Hchild) as [p Hcp]. exists p.
    split; [done|]. intros u Hu.
    apply elem_of_extract_urls, extract_recursive_occurs.
    exists (key_of p). split; [|done].
    apply (occurs_to_json_value _ (netloc parsed) (Dict tree)); [by left|].
    apply occurs_to_json_key, elem_of_keys_dict_get, Hkeys. by exists c, p.
Qed.

Lemma X14_app_urls_witness :
  let browser := uniform_browser [AttrValue "/a"; AttrValue "/a/b"] in
  "https://x.com/a"
  ∈ extract_urls_from_sitemap (list_set := elements_list)
      (to_json (Dict [("x.com", Dict [("x.com/a", Dict [("x.com/a/b", List [])]);
                        ("x.com/a/b", List [])])])).
Proof.
  intros browser.
  destruct (X14_app_urls cpython elements_order browser elements_list "https://x.com" 5 7
              [("x.com", Dict [("x.com/a", Dict [("x.com/a/b", List [])]);
                        ("x.com/a/b", List [])])]
              ltac:(vm_compute; reflexivity) ltac:(lia))
    as (parsed & Hp & _ & Hc).
  injection Hp as <-.
  destruct (Hc "https://x.com/a" ltac:(by vm_compute) ltac:(by vm_compute))
    as (p & Hcp & Hu).
  injection Hcp as <-. apply Hu. vm_compute. by left.
Defined.

(** ** [is_child_of] along two steps *)
Section Grandchild.

Context {url_lib : UrlLib}.

Lemma sapp_cancel (p s t : string) : p +:+ s = p +:+ t → s = t.
Proof. induction p as [|a p IH]; [done|]. rewrite !sapp_cons. intros [= ?]. auto. Qed.

Lemma is_child_of_grandchild (a b c : string) :
  is_child_of a b = Some true → is_child_of b c = Some true →
  ∃ pa, urlparse a = Some pa
        ∧ is_child_of a c
          = Some (String.eqb (Py.rstrip is_slash (path pa)) ""
                  || Py.contains "blog" (Py.rstrip is_slash (path pa))).
Proof.
  intros Hab Hbc.
  destruct (is_child_of_true _ _ Hab) as (pa & pb & Ha & Hb & Hnab).
  destruct (is_child_of_true _ _ Hbc) as (pb' & pc & Hb' & Hc & Hnbc).
  rewrite Hb in Hb'. injection Hb' as <-.
  assert (netloc pa = netloc pc) as Hnac by congruence.
  exists pa. split; [done|].
  set (A := Py.rstrip is_slash (path pa)) in *.
  set (B := Py.rstrip is_slash (path pb)) in *.
  set (C := Py.rstrip is_slash (path pc)) in *.
  assert (B ≠ "") as HB.
  { pose proof (is_child_of_weight _ _ Hab) as Hw. unfold path_weight in Hw.
    rewrite Ha, Hb in Hw. fold A B in Hw. intros HB. rewrite HB in Hw. simpl in Hw. lia. }
  destruct (proj1 (is_child_of_section _ _ _ _ Hb Hc Hnbc HB) Hbc) as (r2 & HC & _).
  fold B C in HC.
  destruct (String.eqb_spec A "") as [HA|HA]; simpl.
  - apply (is_child_of_root _ _ _ _ Ha Hc Hnac HA). fold C.
    destruct (proj1 (is_child_of_root _ _ _ _ Ha Hb Hnab HA) Hab) as [_ [r HBr]].
    fold B in HBr. split.
    + rewrite HC. intros [? _]%sapp_eq_nil. done.
    + exists (r +:+ "/" +:+ r2). by rewrite HC, HBr, !sapp_assoc.
  - destruct (proj1 (is_child_of_section _ _ _ _ Ha Hb Hnab HA) Hab) as (r1 & HBr & _).
    fold A B in HBr.
    assert (C = A +:+ "/" +:+ (r1 +:+ "/" +:+ r2)) as HCr.
    { by rewrite HC, HBr, !sapp_assoc. }
    destruct (Py.contains "blog" A) eqn:Hblog.
    + apply (is_child_of_section _ _ _ _ Ha Hc Hnac HA). fold A C.
      exists (r1 +:+ "/" +:+ r2). split; [done|]. left. by apply contains_spec.
    + destruct (is_child_of a c) as [[]|] eqn:Hac.
      * apply (is_child_of_section _ _ _ _ Ha Hc Hnac HA) in Hac as (rest & HCrest & Hor).
        fold A C in HCrest, Hor. destruct Hor as [Hbl|Hno].
        { apply contains_spec in Hbl. congruence. }
        exfalso. apply Hno. rewrite HCr in HCrest.
        apply sapp_cancel, (sapp_cancel "/") in HCrest. subst rest. by exists r1, r2.
      * done.
      * rewrite (is_child_of_same_netloc _ _ _ _ Ha Hc Hnac) in Hac. done.
Qed.

End Grandchild.

(** X15. Two steps of [is_child_of]: when [b] is a child of [a] and [c] a
    child of [b], [c] is a child of [a] exactly when [a] is the root or has
    "blog" in its path. So outside the root and the blog sections the
    children of a page are one level below it, never two. *)
Theorem X15_grandchild (url_lib : UrlLib) (a b c : string) :
  is_child_of a b = Some true → is_child_of b c = Some true →
  ∃ pa, urlparse a = Some pa
        ∧ is_child_of a c
          = Some (String.eqb (Py.rstrip is_slash (path pa)) ""
                  || Py.contains "blog" (Py.rstrip is_slash (path pa))).
Proof. apply is_child_of_grandchild. Qed.

Lemma X15_grandchild_witness :
  ∃ pa, urlparse (UrlLib := cpython) "https://x.com/docs" = Some pa
        ∧ is_child_of (url_lib := cpython) "https://x.com/docs"
            "https://x.com/docs/guide/setup"
          = Some (String.eqb (Py.rstrip is_slash (path pa)) ""
                  || Py.contains "blog" (Py.rstrip is_slash (path pa))).
Proof.
  refine (X15_grandchild cpython "https://x.com/docs" "https://x.com/docs/guide"
            "https://x.com/docs/guide/setup" _ _); vm_compute; reflexivity.
Defined.

(** ** The order of the keys of the tree *)
Section KeyOrder.

Context {url_lib : UrlLib} {set_order : SetOrder}.

Lemma dict_set_Forall (P : Value → Prop) (k : string) (v : Value)
    (d : list (string * Value)) :
  P v → Forall (λ entry, P entry.2) d → Forall (λ entry, P entry.2) (dict_set k v d).
Proof.
  intros Hv. induction d as [|[k' v'] d IH]; intros Hd; simpl.
  - by constructor.
  - apply Forall_cons in Hd as [Hv' Hd]. destruct (String.eqb k' k).
    + by constructor.
    + constructor; [done|by apply IH].
Qed.

Lemma build_entries_sorted (s : CrawlState)
    (sb : string → result (list (string * Value)))
    (children : list string) (tree tree' : list (string * Value)) :
  (∀ c sub, sb c = Ret sub → Forall (λ entry, lists_sorted entry.2) sub) →
  Forall (λ entry, lists_sorted entry.2) tree →
  build_entries s sb children tree = Ret tree' →
  Forall (λ entry, lists_sorted entry.2) tree'.
Proof.
  intros Hsb. revert tree. induction children as [|c l IH]; intros tree Htree; simpl.
  - by intros [= <-].
  - destruct (urlparse c) as [p|] eqn:Hp; [|done]. destruct (has_children s c).
    + destruct (sb c) as [sub| |] eqn:Hsub; [|done..]. apply IH.
      apply dict_set_Forall; [|done]. constructor. by apply (Hsb c).
    + destruct (leaf_descendants s c) as [ds|] eqn:Hds; [|done]. apply IH.
      apply dict_set_Forall; [|done].
      destruct (leaf_descendants_Some s c p ds Hp Hds) as (? & ? & _).
      by constructor.
Qed.

Lemma build_tree_for_url_sorted (s : CrawlState) (fuel : nat) (url : string)
    (tree : list (string * Value)) :
  build_tree_for_url s fuel url = Ret tree →
  Forall (λ entry, lists_sorted entry.2) tree.
Proof.
  revert url tree. induction fuel as [|fuel IH]; intros url tree; [done|]. simpl.
  destruct (url_children s !! url) as [cs|].
  - apply build_entries_sorted; [|done]. intros c sub. apply IH.
  - by intros [= <-].
Qed.

Lemma build_entries_key_order (s : CrawlState)
    (sb : string → result (list (string * Value)))
    (children : list string) (tree tree' : list (string * Value)) :
  build_entries s sb children tree = Ret tree' →
  ∃ parsed,
    Forall2 (λ c p, urlparse c = Some p) children parsed
    ∧ tree'.*1
      = foldl (λ acc k, if bool_decide (k ∈ acc) then acc else acc ++ [k])
              tree.*1 (key_of <$> parsed).
Proof.
  revert tree. induction children as [|c l IH]; intros tree; simpl.
  - intros [= <-]. exists []. by split; [constructor|].
  - destruct (urlparse c) as [p|] eqn:Hp; [|done].
    assert (∀ v, build_entries s sb l (dict_set (key_of p) v tree) = Ret tree' →
              ∃ parsed,
                Forall2 (λ c p, urlparse c = Some p) (c :: l) parsed
                ∧ tree'.*1
                  = foldl (λ acc k, if bool_decide (k ∈ acc) then acc else acc ++ [k])
                          tree.*1 (key_of <$> parsed)) as Hstep.
    { intros v (parsed & Hparsed & Hkeys)%IH. exists (p :: parsed).
      split; [by constructor|]. rewrite Hkeys, dict_set_keys. done. }
    destruct (has_children s c).
    + destruct (sb c) as [sub| |]; [|done..]. apply Hstep.
    + destruct (leaf_descendants s c) as [ds|]; [|done]. apply Hstep.
Qed.

Lemma foldl_first_occurrences (acc keys : list string) :
  NoDup (acc ++ keys) →
  foldl (λ acc k, if bool_decide (k ∈ acc) then acc else acc ++ [k]) acc keys
  = acc ++ keys.
Proof.
  revert acc. induction keys as [|k keys IH]; intros acc Hnd; simpl.
  - by rewrite app_nil_r.
  - assert (k ∉ acc) as Hk.
    { apply NoDup_app in Hnd as (_ & Hdisj & _). intros Hin.
      apply (Hdisj k Hin). by left. }
    rewrite bool_decide_eq_false_2 by done.
    rewrite IH; rewrite <-(assoc_L (++)); done.
Qed.

Lemma build_tree_for_url_key_order (s : CrawlState) (fuel : nat) (url : string)
    (tree : list (string * Value)) (cs : gset string) :
  build_tree_for_url s fuel url = Ret tree → url_children s !! url = Some cs →
  ∃ children parsed,
    children ≡ₚ elements cs ∧ Sorted String.le children
    ∧ Forall2 (λ c p, urlparse c = Some p) children parsed
    ∧ tree.*1 = first_occurrences (key_of <$> parsed)
    ∧ (NoDup (key_of <$> parsed) → tree.*1 = key_of <$> parsed).
Proof.
  destruct fuel as [|fuel]; [done|]. simpl. intros Hbuild Hcs. rewrite Hcs in Hbuild.
  apply build_entries_key_order in Hbuild as (parsed & Hparsed & Hkeys).
  exists (sorted (iter OverChildren url cs)), parsed. split_and!.
  - unfold sorted. by rewrite merge_sort_Permutation, iter_perm.
  - apply Sorted_sorted.
  - done.
  - done.
  - intros Hnd. rewrite Hkeys. by apply (foldl_first_occurrences []).
Qed.

End KeyOrder.

(** C8. The sitemap that the builder returns (or the exception it ends
    with) is a function of the crawl state: it is the same for any two
    iteration orders of the sets, for the whole hierarchy and for the
    subtree of every URL. In the dict returned for a URL the keys are those
    of its children, in the lexicographic order of the children's URLs (a
    key that several children have stands where the first of them puts it),
    and every list in the tree, at any depth, is sorted and free of
    duplicates. *)
Theorem C8_build_deterministic (url_lib : UrlLib) (o1 o2 : SetOrder)
    (base_url : string) (s : CrawlState) (fuel : nat) :
  build_hierarchical_sitemap (set_order := o1) base_url s fuel
  = build_hierarchical_sitemap (set_order := o2) base_url s fuel
  ∧ (∀ url, build_tree_for_url (set_order := o1) s fuel url
            = build_tree_for_url (set_order := o2) s fuel url)
  ∧ (∀ url tree,
       build_tree_for_url (set_order := o1) s fuel url = Ret tree →
       lists_sorted (Dict tree)
       ∧ ∀ cs, url_children s !! url = Some cs →
           ∃ children parsed,
             children ≡ₚ elements cs ∧ Sorted String.le children
             ∧ Forall2 (λ c p, urlparse c = Some p) children parsed
             ∧ tree.*1 = first_occurrences (key_of <$> parsed)
             ∧ (NoDup (key_of <$> parsed) → tree.*1 = key_of <$> parsed))
  ∧ (∀ hierarchy,
       build_hierarchical_sitemap (set_order := o1) base_url s fuel = Ret hierarchy →
       lists_sorted (Dict hierarchy)).
Proof.
  split_and!.
  - unfold build_hierarchical_sitemap. destruct (urlparse base_url); [|done].
    by rewrite (build_tree_for_url_order o1 o2).
  - intros url. apply build_tree_for_url_order.
  - intros url tree Hbuild. split.
    + constructor.
      exact (build_tree_for_url_sorted (set_order := o1) s fuel url tree Hbuild).
    + intros cs Hcs.
      exact (build_tree_for_url_key_order (set_order := o1) s fuel url tree cs
               Hbuild Hcs).
  - intros hierarchy. unfold build_hierarchical_sitemap.
    destruct (urlparse base_url) as [parsed|]; [|done].
    destruct (build_tree_for_url (set_order := o1) s fuel (root_of parsed))
      as [tree| |] eqn:Htree; [|done..].
    intros [= <-]. constructor. constructor; [|constructor]. simpl. constructor.
    exact (build_tree_for_url_sorted (set_order := o1) s fuel _ tree Htree).
Qed.

Lemma C8_build_deterministic_witness :
  ∃ children parsed,
    children ≡ₚ elements ({["https://x.com/a"; "https://x.com/a?v=1"]} : gset string)
    ∧ Sorted String.le children
    ∧ Forall2 (λ c p, urlparse (UrlLib := cpython) c = Some p) children parsed
    ∧ [("x.com/a", Dict [("x.com/a/b", List [])])].*1
      = first_occurrences (key_of <$> parsed)
    ∧ (NoDup (key_of <$> parsed)
       → [("x.com/a", Dict [("x.com/a/b", List [])])].*1 = key_of <$> parsed).
Proof.
  refine (proj2 (proj1 (proj2 (proj2 (C8_build_deterministic cpython elements_order
            elements_order "https://x.com" shared_key_state 3)))
            "https://x.com" [("x.com/a", Dict [("x.com/a/b", List [])])] _) _ _).
  - vm_compute. reflexivity.
  - vm_compute. reflexivity.
Defined.
